(** * Echoes of Error: the deliberation engine's utilities, resume logic and
      model client

    A shallow embedding of [src/utils.py], [src/resume_utils.py] and
    [src/llm_client.py], followed by the properties their specification
    states about them; and of the experiment logger, the analysis of one
    experiment of [analyze.py] and the condition lookup of
    [run_phase1.py], followed by further properties of the code.

    Conventions of the embedding.
    - A Python [int] is a [Z]; a Python [float] is a binary64 value
      ([PrimFloat.float]). [calculate_entropy] is given twice: in binary64
      as the interpreter computes it, the C library's [log2] being a
      parameter ([Binary64]), and over the reals, for the properties of the
      formula it evaluates ([Utils]). The retry delays are exact
      rationals.
    - A Python [str] is a [string] whose characters are code points below 256.
    - A Python exception is a value of [exn]; code that may raise returns a
      [result].
    - A text file is the list of its lines as [readlines] returns them (each
      line with its line terminator); decoding bytes to text is outside the
      model, an undecodable file is [Unreadable].
    - [json.loads] is a parameter [json_loads] of every definition that calls
      it: on a text it returns a value, raises [JSONDecodeError] or raises
      another exception. [Json.decode] is a decoder with the limits of
      CPython 3.11, used to run the definitions on concrete lines.
    - [json.dumps] and [requests.get] are parameters too ([json_dumps],
      [requests_get]); [hashlib.sha256] is the executable function of
      FIPS 180-4. *)

From Stdlib Require Import ZArith QArith Reals List String Ascii Bool Lia Lra.
From Stdlib Require Import Floats Permutation Sorted DecimalString.
Import ListNotations.

Set Warnings "-inexact-float,-register-all".

(* ================================================================== *)
(** * Part I: definitions                                              *)
(* ================================================================== *)

(** ** Python built-ins used by the code *)
Module Py.

(** Exceptions the modelled code can meet. *)
Inductive exn : Type :=
| AttributeError
| TypeError
| ValueError
| RecursionError
| OverflowError
| ZeroDivisionError
| KeyboardInterrupt.

Inductive result (A : Type) : Type :=
| Ok (a : A)
| Raise (e : exn).
Arguments Ok {A} a.
Arguments Raise {A} e.

Definition bind {A B} (c : result A) (k : A -> result B) : result B :=
  match c with
  | Ok a => k a
  | Raise e => Raise e
  end.

(** [str.isspace] on one character (code points below 256). *)
Definition is_space (c : ascii) : bool :=
  let n := nat_of_ascii c in
  ((9 <=? n) && (n <=? 13) || (28 <=? n) && (n <=? 32)
   || (n =? 133) || (n =? 160))%nat.

Fixpoint lstrip (s : string) : string :=
  match s with
  | EmptyString => EmptyString
  | String c s' => if is_space c then lstrip s' else s
  end.

Fixpoint rstrip (s : string) : string :=
  match s with
  | EmptyString => EmptyString
  | String c s' =>
      match rstrip s' with
      | EmptyString => if is_space c then EmptyString else String c EmptyString
      | r => String c r
      end
  end.

(** [s.strip()] *)
Definition strip (s : string) : string := rstrip (lstrip s).

(** [not s] for a string. *)
Definition is_empty (s : string) : bool :=
  match s with
  | EmptyString => true
  | String _ _ => false
  end.

(** Index normalisation of a slice bound: negative bounds count from the end,
    every bound is clamped to [0, len]. *)
Definition clamp_index (len i : Z) : Z :=
  if (i <? 0)%Z then Z.max 0 (i + len) else Z.min i len.

(** [l[start:stop]] *)
Definition slice {A} (l : list A) (start stop : Z) : list A :=
  let n := Z.of_nat (List.length l) in
  let a := clamp_index n start in
  let b := clamp_index n stop in
  firstn (Z.to_nat (b - a)) (skipn (Z.to_nat a) l).

(** [range(n)] *)
Definition range (n : Z) : list Z := map Z.of_nat (seq 0 (Z.to_nat n)).

(** [str(n)] for an integer. *)
Definition str_of_int (n : Z) : string := NilZero.string_of_int (Z.to_int n).

(** [enumerate(l)] *)
Definition enumerate {A} (l : list A) : list (Z * A) :=
  combine (range (Z.of_nat (List.length l))) l.

End Py.

Notation "x <- c ;; k" := (Py.bind c (fun x => k))
  (at level 61, c at next level, right associativity).

(** ** JSON values as Python sees them *)
Module Json.
Import Py.

(** A value returned by [json.loads]. Python's [None] is [JNull]; an object
    keeps its members in textual order, the last binding of a key being the
    one a [dict] retains. *)
Inductive json : Type :=
| JNull
| JBool (b : bool)
| JInt (z : Z)
| JFloat (f : float)
| JStr (s : string)
| JArr (l : list json)
| JObj (kvs : list (string * json)).

(** The exceptions [json.loads] raises on a text besides
    [json.JSONDecodeError]: a [RecursionError] when arrays and objects are
    nested deeper than the interpreter's recursion limit allows, a
    [ValueError] when an integer has more digits than
    [sys.get_int_max_str_digits()]. *)
Inductive loads_error : Type :=
| NestingTooDeep
| IntegerTooLong.

Definition error_class (e : loads_error) : exn :=
  match e with
  | NestingTooDeep => RecursionError
  | IntegerTooLong => ValueError
  end.

(** What [json.loads] does with a text: it returns a value, raises
    [json.JSONDecodeError], or raises another exception, given with its
    [str(e)]. *)
Inductive loads_outcome : Type :=
| Loaded (v : json)
| DecodeError
| OtherError (e : loads_error) (msg : string).

(** The value [json.loads] returns, if it returns one. *)
Definition loaded_value (o : loads_outcome) : option json :=
  match o with
  | Loaded v => Some v
  | _ => None
  end.

(** [v is None] *)
Definition is_none (v : json) : bool :=
  match v with
  | JNull => true
  | _ => false
  end.

(** The last binding of [key], [JNull] when there is none. *)
Definition obj_get (key : string) (kvs : list (string * json)) : json :=
  match find (fun kv => String.eqb (fst kv) key) (rev kvs) with
  | Some (_, v) => v
  | None => JNull
  end.

(** [data.get(key)]: only a [dict] has the method. *)
Definition py_get (data : json) (key : string) : result json :=
  match data with
  | JObj kvs => Ok (obj_get key kvs)
  | _ => Raise AttributeError
  end.

(** The exact numeric value of a Python number: [m * 2^e], an infinity or
    NaN. Python compares [int], [bool] and [float] by exact value. *)
Inductive xnum : Type :=
| XNaN
| XInf (negative : bool)
| XFin (m e : Z).

(** The value of a [float]. *)
Definition xnum_of_float (f : float) : xnum :=
  match Prim2SF f with
  | S754_zero _ => XFin 0 0
  | S754_infinity s => XInf s
  | S754_nan => XNaN
  | S754_finite s m e => XFin (if s then Z.neg m else Z.pos m) e
  end.

(** The value of a number, a [bool] being an [int]; nothing else is one. *)
Definition py_number (v : json) : option xnum :=
  match v with
  | JBool b => Some (XFin (Z.b2z b) 0)
  | JInt z => Some (XFin z 0)
  | JFloat f => Some (xnum_of_float f)
  | _ => None
  end.

(** Comparison by exact value; NaN is unordered. *)
Definition xcompare (a b : xnum) : option comparison :=
  match a, b with
  | XNaN, _ | _, XNaN => None
  | XInf s1, XInf s2 =>
      Some (if Bool.eqb s1 s2 then Eq else if s1 then Lt else Gt)
  | XInf s, XFin _ _ => Some (if s then Lt else Gt)
  | XFin _ _, XInf s => Some (if s then Gt else Lt)
  | XFin m1 e1, XFin m2 e2 =>
      let e := Z.min e1 e2 in
      Some (m1 * 2 ^ (e1 - e) ?= m2 * 2 ^ (e2 - e))%Z
  end.

(** [a > b] where [b] is a number: a [TypeError] unless [a] is one too. *)
Definition py_gt (a b : json) : result bool :=
  match py_number a, py_number b with
  | Some x, Some y =>
      Ok (match xcompare x y with Some Gt => true | _ => false end)
  | _, _ => Raise TypeError
  end.

(** [a == b] when at least one side is [None], a number or a string (a list
    or a dict never equals one of those). *)
Definition py_eq (a b : json) : bool :=
  match py_number a, py_number b with
  | Some x, Some y => match xcompare x y with Some Eq => true | _ => false end
  | None, None =>
      match a, b with
      | JNull, JNull => true
      | JStr s, JStr t => String.eqb s t
      | _, _ => false
      end
  | _, _ => false
  end.

(** Lists and dicts have no hash. *)
Definition hashable (k : json) : bool :=
  match k with
  | JArr _ | JObj _ => false
  | _ => true
  end.

(** A Python [dict] keyed by JSON values, in insertion order. *)
Definition pydict (V : Type) : Type := list (json * V).

(** [d.get(k)] *)
Fixpoint dict_get {V} (k : json) (d : pydict V) : option V :=
  match d with
  | [] => None
  | (k', v) :: d' => if py_eq k' k then Some v else dict_get k d'
  end.

(** The entry of [k] becomes [f] of its old value; a key not yet present is
    appended. The key object just inserted is the one updated, also when it
    equals nothing (NaN). *)
Fixpoint dict_upsert {V} (k : json) (f : option V -> V) (d : pydict V)
  : pydict V :=
  match d with
  | [] => [(k, f None)]
  | (k', v) :: d' =>
      if py_eq k' k then (k', f (Some v)) :: d'
      else (k', v) :: dict_upsert k f d'
  end.

(** [d[k] = v] *)
Definition dict_set {V} (k : json) (v : V) (d : pydict V) : pydict V :=
  dict_upsert k (fun _ => v) d.

(** [s.add(k)] on a set kept as a list. *)
Definition set_add (k : json) (s : list json) : list json :=
  if existsb (fun k' => py_eq k' k) s then s else s ++ [k].

(** *** A decoder

    [json.loads] of CPython 3.11 with its default limits, on texts whose
    strings hold code points below 256 (an escape for a code point of
    256 or more is outside the model and refused). *)

(** The double quote and the line feed. *)
Definition dquote : ascii := ascii_of_nat 34.
Definition newline : string := String (ascii_of_nat 10) EmptyString.

(** [dq s] is [s] with every apostrophe turned into a double quote, so that
    JSON text can be written readably. *)
Fixpoint dq (s : string) : string :=
  match s with
  | EmptyString => EmptyString
  | String c s' => String (if Ascii.eqb c "'" then dquote else c) (dq s')
  end.

(** What reading a prefix of a text gives: a value and the rest of the
    text, a [JSONDecodeError], or another exception. *)
Inductive reading (A : Type) : Type :=
| Got (a : A) (rest : string)
| Malformed
| Refused (e : loads_error) (msg : string).
Arguments Got {A} a rest.
Arguments Malformed {A}.
Arguments Refused {A} e msg.

(** [sys.get_int_max_str_digits()] by default. *)
Definition max_str_digits : Z := 4300.

(** The nesting of arrays and objects the recursion limit (1000 by default)
    leaves to [json.loads] when it is called from the top level of a script;
    every frame further in use lowers it by one. Within a few levels of the
    limit CPython can raise [RecursionError] where this decoder still
    reports the text's own outcome. *)
Definition nesting_limit : nat := 995.

Definition too_many_digits (n : Z) : string :=
  "Exceeds the limit (4300 digits) for integer string conversion: value has "
  ++ str_of_int n
  ++ " digits; use sys.set_int_max_str_digits() to increase the limit".

Definition too_deep (what : string) : string :=
  "maximum recursion depth exceeded while decoding a JSON " ++ what
  ++ " from a unicode string".

(** The whitespace JSON allows between tokens. *)
Definition is_json_ws (c : ascii) : bool :=
  let n := nat_of_ascii c in
  ((n =? 32) || (n =? 9) || (n =? 10) || (n =? 13))%nat.

Fixpoint skip_ws (s : string) : string :=
  match s with
  | EmptyString => EmptyString
  | String c s' => if is_json_ws c then skip_ws s' else s
  end.

(** The value of a decimal digit. *)
Definition digit_of (c : ascii) : option Z :=
  let n := nat_of_ascii c in
  if ((48 <=? n) && (n <=? 57))%nat then Some (Z.of_nat (n - 48)) else None.

(** The value of a hexadecimal digit. *)
Definition hex_digit_of (c : ascii) : option Z :=
  let n := nat_of_ascii c in
  if ((48 <=? n) && (n <=? 57))%nat then Some (Z.of_nat (n - 48))
  else if ((65 <=? n) && (n <=? 70))%nat then Some (Z.of_nat (n - 55))
  else if ((97 <=? n) && (n <=? 102))%nat then Some (Z.of_nat (n - 87))
  else None.

(** The character of [\uXXXX], for a code point below 256. *)
Definition code_point (a b c d : ascii) : option ascii :=
  match hex_digit_of a, hex_digit_of b, hex_digit_of c, hex_digit_of d with
  | Some x, Some y, Some z, Some w =>
      let n := (((x * 16 + y) * 16 + z) * 16 + w)%Z in
      if (n <? 256)%Z then Some (ascii_of_nat (Z.to_nat n)) else None
  | _, _, _, _ => None
  end.

(** The leading digits of [s] appended to [acc], their number, the rest. *)
Fixpoint read_digits (s : string) (acc count : Z) : Z * Z * string :=
  match s with
  | EmptyString => (acc, count, s)
  | String c s' =>
      match digit_of c with
      | Some d => read_digits s' (10 * acc + d) (count + 1)
      | None => (acc, count, s)
      end
  end.

(** The binary64 value nearest to [m * 10^e10] (ties to even), [0 <= m]. *)
Definition dec_to_float (m e10 : Z) : float :=
  if (m =? 0)%Z then 0%float
  else if (0 <=? e10)%Z then
    SF2Prim (binary_normalize prec emax (m * 10 ^ e10) 0 false)
  else
    let den := (10 ^ (- e10))%Z in
    let s := (64 + Z.log2_up den)%Z in
    let q := ((m * 2 ^ s) / den)%Z in
    let sticky := if ((m * 2 ^ s) mod den =? 0)%Z then 0%Z else 1%Z in
    SF2Prim (binary_normalize prec emax (2 * q + sticky) (- s - 1) false).

(** A number: an [int] when it has neither fraction nor exponent, else a
    [float]. An [int] of more than [max_str_digits] digits is refused by the
    conversion from text. *)
Definition read_number (s : string) : reading json :=
  let '(neg, s1) :=
    match s with
    | String "-" r => (true, r)
    | _ => (false, s)
    end in
  let int_part :=
    match s1 with
    | String "0" r => Some (0%Z, 1%Z, r)
    | _ => let '(v, n, r) := read_digits s1 0 0 in
           if (n =? 0)%Z then None else Some (v, n, r)
    end in
  match int_part with
  | None => Malformed
  | Some (ip, ndigits, r1) =>
      let '(m, nfrac, r2) :=
        match r1 with
        | String "." r =>
            let '(v, n, r') := read_digits r ip 0 in
            if (n =? 0)%Z then (ip, 0%Z, r1) else (v, n, r')
        | _ => (ip, 0%Z, r1)
        end in
      let '(ex, has_exp, r3) :=
        match r2 with
        | String c r =>
            if Ascii.eqb c "e" || Ascii.eqb c "E" then
              let '(sgn, r') :=
                match r with
                | String "-" t => ((-1)%Z, t)
                | String "+" t => (1%Z, t)
                | _ => (1%Z, r)
                end in
              let '(v, n, r'') := read_digits r' 0 0 in
              if (n =? 0)%Z then (0%Z, false, r2) else ((sgn * v)%Z, true, r'')
            else (0%Z, false, r2)
        | EmptyString => (0%Z, false, r2)
        end in
      if (nfrac =? 0)%Z && negb has_exp then
        if (max_str_digits <? ndigits)%Z
        then Refused IntegerTooLong (too_many_digits ndigits)
        else Got (JInt (if neg then (- m)%Z else m)) r3
      else
        let f := dec_to_float m (ex - nfrac) in
        Got (JFloat (if neg then PrimFloat.opp f else f)) r3
  end.

(** The character a backslash escape stands for. *)
Definition unescape (c : ascii) : option ascii :=
  if Ascii.eqb c dquote then Some dquote
  else if Ascii.eqb c "\" then Some "\"%char
  else if Ascii.eqb c "/" then Some "/"%char
  else if Ascii.eqb c "b" then Some (ascii_of_nat 8)
  else if Ascii.eqb c "f" then Some (ascii_of_nat 12)
  else if Ascii.eqb c "n" then Some (ascii_of_nat 10)
  else if Ascii.eqb c "r" then Some (ascii_of_nat 13)
  else if Ascii.eqb c "t" then Some (ascii_of_nat 9)
  else None.

(** The characters up to the closing quote, and what follows it. *)
Fixpoint read_string (s : string) : option (string * string) :=
  match s with
  | EmptyString => None
  | String c s' =>
      if Ascii.eqb c dquote then Some (EmptyString, s')
      else if Ascii.eqb c "\" then
        match s' with
        | String e s'' =>
            if Ascii.eqb e "u" then
              match s'' with
              | String h1 (String h2 (String h3 (String h4 r))) =>
                  match code_point h1 h2 h3 h4, read_string r with
                  | Some ch, Some (t, r') => Some (String ch t, r')
                  | _, _ => None
                  end
              | _ => None
              end
            else
              match unescape e, read_string s'' with
              | Some ch, Some (t, r) => Some (String ch t, r)
              | _, _ => None
              end
        | EmptyString => None
        end
      else if (nat_of_ascii c <? 32)%nat then None
      else
        match read_string s' with
        | Some (t, r) => Some (String c t, r)
        | None => None
        end
  end.

(** One of the literals [null], [true], [false], [NaN], [Infinity],
    [-Infinity]. *)
Definition read_literal (lit : string) (v : json) (s : string)
  : reading json :=
  if String.prefix lit s
  then Got v (substring (String.length lit) (String.length s) s)
  else Malformed.

(** A value, the elements of an array after its bracket, the members of an
    object after its brace. [room] is the nesting still allowed: an array or
    an object met when none is left raises [RecursionError]. [fuel] bounds
    the nesting and the number of elements. *)
Fixpoint read_value (fuel room : nat) (s : string) {struct fuel}
  : reading json :=
  match fuel with
  | O => Malformed
  | S n =>
      match skip_ws s with
      | EmptyString => Malformed
      | String c r as s' =>
          if Ascii.eqb c "{" then
            match room with
            | O => Refused NestingTooDeep (too_deep "object")
            | S room' =>
                match skip_ws r with
                | String "}" r' => Got (JObj []) r'
                | _ => match read_members n room' r with
                       | Got kvs r' => Got (JObj kvs) r'
                       | Malformed => Malformed
                       | Refused e msg => Refused e msg
                       end
                end
            end
          else if Ascii.eqb c "[" then
            match room with
            | O => Refused NestingTooDeep (too_deep "array")
            | S room' =>
                match skip_ws r with
                | String "]" r' => Got (JArr []) r'
                | _ => match read_elements n room' r with
                       | Got vs r' => Got (JArr vs) r'
                       | Malformed => Malformed
                       | Refused e msg => Refused e msg
                       end
                end
            end
          else if Ascii.eqb c dquote then
            match read_string r with
            | Some (t, r') => Got (JStr t) r'
            | None => Malformed
            end
          else if Ascii.eqb c "n" then read_literal "null" JNull s'
          else if Ascii.eqb c "t" then read_literal "true" (JBool true) s'
          else if Ascii.eqb c "f" then read_literal "false" (JBool false) s'
          else if Ascii.eqb c "N" then read_literal "NaN" (JFloat nan) s'
          else if Ascii.eqb c "I"
          then read_literal "Infinity" (JFloat infinity) s'
          else if String.prefix "-I" s'
          then read_literal "-Infinity" (JFloat neg_infinity) s'
          else read_number s'
      end
  end
with read_elements (fuel room : nat) (s : string) {struct fuel}
  : reading (list json) :=
  match fuel with
  | O => Malformed
  | S n =>
      match read_value n room s with
      | Malformed => Malformed
      | Refused e msg => Refused e msg
      | Got v r =>
          match skip_ws r with
          | String "," r' =>
              match read_elements n room r' with
              | Got vs r'' => Got (v :: vs) r''
              | Malformed => Malformed
              | Refused e msg => Refused e msg
              end
          | String "]" r' => Got [v] r'
          | _ => Malformed
          end
      end
  end
with read_members (fuel room : nat) (s : string) {struct fuel}
  : reading (list (string * json)) :=
  match fuel with
  | O => Malformed
  | S n =>
      match skip_ws s with
      | String c r =>
          if Ascii.eqb c dquote then
            match read_string r with
            | None => Malformed
            | Some (k, r1) =>
                match skip_ws r1 with
                | String ":" r2 =>
                    match read_value n room r2 with
                    | Malformed => Malformed
                    | Refused e msg => Refused e msg
                    | Got v r3 =>
                        match skip_ws r3 with
                        | String "," r4 =>
                            match read_members n room r4 with
                            | Got kvs r5 => Got ((k, v) :: kvs) r5
                            | Malformed => Malformed
                            | Refused e msg => Refused e msg
                            end
                        | String "}" r4 => Got [(k, v)] r4
                        | _ => Malformed
                        end
                    end
                | _ => Malformed
                end
            end
          else Malformed
      | EmptyString => Malformed
      end
  end.

(** [json.loads s] *)
Definition decode (s : string) : loads_outcome :=
  match read_value (2 * String.length s + 2) nesting_limit s with
  | Got v r => if is_empty (skip_ws r) then Loaded v else DecodeError
  | Malformed => DecodeError
  | Refused e msg => OtherError e msg
  end.

End Json.

(** ** The fragment of [re] the client uses *)
Module Re.
Import Py.

(** A pattern is a sequence of literals and starred character classes; a
    star is greedy ([*]) or lazy ([*?]) and may be the capture group. *)
Inductive item : Type :=
| Lit (s : string)
| Star (greedy : bool) (cls : ascii -> bool) (capture : bool).

Definition pattern : Type := list item.

Definition any_char (c : ascii) : bool := true.

(** What is left of [s] after the prefix [p]. *)
Fixpoint strip_prefix (p s : string) : option string :=
  match p, s with
  | EmptyString, _ => Some s
  | String a p', String b s' =>
      if Ascii.eqb a b then strip_prefix p' s' else None
  | String _ _, EmptyString => None
  end.

(** The part of [s] consumed when [rest] is what remains of it. *)
Definition consumed (s rest : string) : string :=
  substring 0 (String.length s - String.length rest) s.

(** Backtracking over a starred class: the greedy star tries the longest
    run first, the lazy one the shortest; [k] matches what follows. *)
Fixpoint star_greedy {R} (cls : ascii -> bool) (k : string -> option R)
    (s : string) : option R :=
  match s with
  | EmptyString => k s
  | String c s' =>
      if cls c then
        match star_greedy cls k s' with
        | Some r => Some r
        | None => k s
        end
      else k s
  end.

Fixpoint star_lazy {R} (cls : ascii -> bool) (k : string -> option R)
    (s : string) : option R :=
  match k s with
  | Some r => Some r
  | None =>
      match s with
      | EmptyString => None
      | String c s' => if cls c then star_lazy cls k s' else None
      end
  end.

(** Match [p] at the start of [s]: group 1 and the text after the match. *)
Fixpoint match_here (p : pattern) (s : string) (g1 : string)
  : option (string * string) :=
  match p with
  | [] => Some (g1, s)
  | Lit l :: p' =>
      match strip_prefix l s with
      | Some s' => match_here p' s' g1
      | None => None
      end
  | Star greedy cls capture :: p' =>
      (if greedy then star_greedy else star_lazy) cls
        (fun rest =>
           match_here p' rest (if capture then consumed s rest else g1))
        s
  end.

Record re_match : Type := { group0 : string; group1 : string }.

(** [re.search(p, s)]: the match at the leftmost position that has one. *)
Fixpoint search (p : pattern) (s : string) : option re_match :=
  match match_here p s EmptyString with
  | Some (g1, rest) => Some {| group0 := consumed s rest; group1 := g1 |}
  | None =>
      match s with
      | EmptyString => None
      | String _ s' => search p s'
      end
  end.

(** [needle in s] *)
Fixpoint contains (needle s : string) : bool :=
  match strip_prefix needle s with
  | Some _ => true
  | None =>
      match s with
      | EmptyString => false
      | String _ s' => contains needle s'
      end
  end.

End Re.

(** ** [src/config.py]: the stance enumeration *)
Module Config.

(** [class Stance(str, Enum)] *)
Inductive Stance : Type :=
| PULL_LEVER | DO_NOT_PULL
| SACRIFICE_DRIVER | PROTECT_DRIVER
| HARVEST_ORGANS | DO_NOT_HARVEST
| SACRIFICE_ONE | ALL_EQUAL
| ALLOW_TORTURE | FORBID_TORTURE
| BLOW_WHISTLE | STAY_SILENT
| PRIORITIZE_PRIVACY | PRIORITIZE_SECURITY
| GRANT_AI_RIGHTS | DENY_AI_RIGHTS
| WORK_REMOTE | WORK_OFFICE
| AGI_IS_TOOL | AGI_IS_AGENT.

(** [stance.value] *)
Definition value (s : Stance) : string :=
  match s with
  | PULL_LEVER => "PULL_LEVER" | DO_NOT_PULL => "DO_NOT_PULL"
  | SACRIFICE_DRIVER => "SACRIFICE_DRIVER"
  | PROTECT_DRIVER => "PROTECT_DRIVER"
  | HARVEST_ORGANS => "HARVEST_ORGANS" | DO_NOT_HARVEST => "DO_NOT_HARVEST"
  | SACRIFICE_ONE => "SACRIFICE_ONE" | ALL_EQUAL => "ALL_EQUAL"
  | ALLOW_TORTURE => "ALLOW_TORTURE" | FORBID_TORTURE => "FORBID_TORTURE"
  | BLOW_WHISTLE => "BLOW_WHISTLE" | STAY_SILENT => "STAY_SILENT"
  | PRIORITIZE_PRIVACY => "PRIORITIZE_PRIVACY"
  | PRIORITIZE_SECURITY => "PRIORITIZE_SECURITY"
  | GRANT_AI_RIGHTS => "GRANT_AI_RIGHTS" | DENY_AI_RIGHTS => "DENY_AI_RIGHTS"
  | WORK_REMOTE => "WORK_REMOTE" | WORK_OFFICE => "WORK_OFFICE"
  | AGI_IS_TOOL => "AGI_IS_TOOL" | AGI_IS_AGENT => "AGI_IS_AGENT"
  end%string.

End Config.

(** ** [src/utils.py] *)
Module Utils.
Import Py Config.

(** Modelled from the spec: the agent class is not under src/; the utilities
    read four attributes of it. An agent has a stable string id, a fixed
    persona (a name and the description of an ethical framework), a current
    stance that is one of the stances or unset, and a current rationale. *)
Record Persona : Type := { persona_name : string; framework : string }.

Record Agent : Type := {
  id : string;
  persona : Persona;
  current_stance : option Stance;
  current_rationale : option string
}.

(** Truth value of [a.current_stance]: [None] is false, a member of a
    [str]-mixed enumeration is as true as its value is non-empty. *)
Definition stance_is_set (s : option Stance) : bool :=
  match s with
  | None => false
  | Some v => negb (is_empty (value v))
  end.

(** A [Dict[str, int]] in insertion order. *)
Definition distribution_t : Type := list (string * Z).

(** [d.values()] *)
Definition values (d : distribution_t) : list Z := map snd d.

(** [sum(l)] *)
Definition sum (l : list Z) : Z := fold_left Z.add l 0%Z.

(** [math.log2], over the reals. *)
Definition log2 (x : R) : R := (ln x / ln 2)%R.

(** The formula of [calculate_entropy(distribution)], in exact real
    arithmetic; [Binary64.calculate_entropy] is the computation in
    binary64. *)
Definition calculate_entropy (distribution : distribution_t) : R :=
  let total := sum (values distribution) in
  if (total =? 0)%Z then 0%R
  else
    fold_left
      (fun entropy count =>
         if (0 <? count)%Z then
           let p := (IZR count / IZR total)%R in
           (entropy - p * log2 p)%R
         else entropy)
      (values distribution) 0%R.

(** [calculate_time_to_collapse(entropy_history, threshold_absolute,
    consecutive_rounds)] *)
Definition calculate_time_to_collapse (entropy_history : list float)
    (threshold_absolute : float) (consecutive_rounds : Z) : option Z :=
  match entropy_history with
  | [] => None
  | _ :: _ =>
      find
        (fun i =>
           let window := slice entropy_history i (i + consecutive_rounds) in
           forallb (fun h => (h <=? threshold_absolute)%float) window)
        (range (Z.of_nat (List.length entropy_history)
                - consecutive_rounds + 1))
  end.

(** The default operating point. *)
Definition default_threshold : float := 0.469%float.
Definition default_consecutive_rounds : Z := 2%Z.

(** One more occurrence of [k] in a [Counter]. *)
Fixpoint counter_add (k : string) (d : distribution_t) : distribution_t :=
  match d with
  | [] => [(k, 1%Z)]
  | (k', n) :: d' =>
      if String.eqb k' k then (k', (n + 1)%Z) :: d'
      else (k', n) :: counter_add k d'
  end.

(** [dict(Counter(l))] *)
Definition Counter (l : list string) : distribution_t :=
  fold_left (fun d k => counter_add k d) l [].

(** [[a.current_stance.value for a in agents if a.current_stance]] *)
Definition current_stances (agents : list Agent) : list string :=
  flat_map
    (fun a =>
       if stance_is_set (current_stance a) then
         match current_stance a with
         | Some s => [value s]
         | None => []
         end
       else [])
    agents.

(** [get_stance_distribution(agents)] *)
Definition get_stance_distribution (agents : list Agent) : distribution_t :=
  let stances := current_stances agents in
  Counter stances.

(** One entry of the list [sample_peers] returns. *)
Record PeerState : Type := {
  peer_id : string;
  peer_persona : Persona;
  peer_stance : option string;
  peer_rationale : option string
}.

Definition peer_state (p : Agent) : PeerState :=
  {| peer_id := id p;
     peer_persona := persona p;
     peer_stance := if stance_is_set (current_stance p)
                    then option_map value (current_stance p) else None;
     peer_rationale := current_rationale p |}.

(** [l.sort(key=lambda x: x.id)]: a stable sort, an element goes in front of
    the first one whose id is not smaller. *)
Fixpoint insert_by_id (x : Agent) (l : list Agent) : list Agent :=
  match l with
  | [] => [x]
  | y :: l' =>
      if String.leb (id x) (id y) then x :: l else y :: insert_by_id x l'
  end.

Definition sort_by_id (l : list Agent) : list Agent :=
  fold_right insert_by_id [] l.

Section PeerSampler.

(** The generator of the [random] module: its state, [random.Random(seed)]
    and [rng.sample(population, k)], which raises when [k] is negative or
    exceeds the population. *)
Variable rng : Type.
Variable Random : Z -> rng.
Variable sample : forall A : Type, rng -> list A -> Z -> result (list A * rng).

(** [sample_peers(agents, current_agent_id, k, seed)]; [process_rng] is the
    state of the process-wide generator, used when no seed is given. *)
Definition sample_peers (process_rng : rng) (agents : list Agent)
    (current_agent_id : string) (k : Z) (seed : option Z)
  : result (list PeerState) * rng :=
  let peers :=
    filter (fun a => negb (String.eqb (id a) current_agent_id)) agents in
  let sample_size := Z.min k (Z.of_nat (List.length peers)) in
  let render sampled := map peer_state (sort_by_id sampled) in
  match seed with
  | Some s =>
      match sample Agent (Random s) peers sample_size with
      | Ok (sampled, _) => (Ok (render sampled), process_rng)
      | Raise e => (Raise e, process_rng)
      end
  | None =>
      match sample Agent process_rng peers sample_size with
      | Ok (sampled, g) => (Ok (render sampled), g)
      | Raise e => (Raise e, process_rng)
      end
  end.

End PeerSampler.

End Utils.

(** ** [src/resume_utils.py]

    The messages the two functions print are not part of the model. *)
Module ResumeUtils.
Import Py Json.

(** What the file system holds at [jsonl_path]: nothing, a file that cannot
    be opened or read as text, or the lines of a text file. *)
Inductive file_status : Type :=
| Missing
| Unreadable
| Readable (lines : list string).

(** The [{"stance": ..., "rationale": ...}] kept per agent. *)
Record agent_state : Type := { stance : json; rationale : json }.

(** The local variables of the replay loop. *)
Record scan_state : Type := {
  last_complete_round : json;
  last_round_end_line_idx : Z;
  round_responses : pydict (pydict agent_state);
  complete_rounds : list json
}.

Definition initial_state : scan_state :=
  {| last_complete_round := JInt (-1);
     last_round_end_line_idx := (-1)%Z;
     round_responses := [];
     complete_rounds := [] |}.

(** How a rewrite of the file can go: it completes, the file cannot be opened
    for writing, or writing fails once [n] lines have reached the file (which
    opening had emptied). *)
Inductive write_fault : Type :=
| WriteOk
| OpenFails
| FailsAfter (n : nat).

(** [with open(path, 'w') as f: f.writelines(lines)]: the file afterwards and
    whether the block completed without an exception. *)
Definition write_lines (w : write_fault) (old : file_status)
    (lines : list string) : file_status * bool :=
  match w with
  | WriteOk => (Readable lines, true)
  | OpenFails => (old, false)
  | FailsAfter n => (Readable (firstn n lines), false)
  end.

Section WithJsonLoads.

(** [json.loads] *)
Variable json_loads : string -> loads_outcome.

(** The body of the replay loop for line [i]: the inner handler catches
    [json.JSONDecodeError] only, any other exception leaves the loop. *)
Definition process_line (i : Z) (line : string) (st : scan_state)
  : result scan_state :=
  let line := strip line in
  if is_empty line then Ok st
  else
    match json_loads line with
    | DecodeError => Ok st
    | OtherError e _ => Raise (error_class e)
    | Loaded data =>
        event_type <- py_get data "type" ;;
        if py_eq event_type (JStr "agent_response") then
          r_num <- py_get data "round" ;;
          a_id <- py_get data "agent_id" ;;
          if negb (hashable r_num) then Raise TypeError
          else
            st_v <- py_get data "stance" ;;
            ra_v <- py_get data "rationale" ;;
            if negb (hashable a_id) then Raise TypeError
            else
              let entry := {| stance := st_v; rationale := ra_v |} in
              Ok {| last_complete_round := last_complete_round st;
                    last_round_end_line_idx := last_round_end_line_idx st;
                    round_responses :=
                      dict_upsert r_num
                        (fun old =>
                           dict_set a_id entry
                             (match old with Some d => d | None => [] end))
                        (round_responses st);
                    complete_rounds := complete_rounds st |}
        else if py_eq event_type (JStr "round_end") then
          r_num <- py_get data "round" ;;
          if negb (hashable r_num) then Raise TypeError
          else
            let completed := set_add r_num (complete_rounds st) in
            later <- py_gt r_num (last_complete_round st) ;;
            if later then
              Ok {| last_complete_round := r_num;
                    last_round_end_line_idx := i;
                    round_responses := round_responses st;
                    complete_rounds := completed |}
            else
              Ok {| last_complete_round := last_complete_round st;
                    last_round_end_line_idx := last_round_end_line_idx st;
                    round_responses := round_responses st;
                    complete_rounds := completed |}
        else Ok st
    end.

(** [for i, line in enumerate(lines): ...] *)
Fixpoint scan_lines (ls : list (Z * string)) (st : scan_state)
  : result scan_state :=
  match ls with
  | [] => Ok st
  | (i, line) :: rest =>
      st' <- process_line i line st ;; scan_lines rest st'
  end.

(** [find_last_complete_round(jsonl_path)]: every exception that leaves the
    loop is caught and yields [(None, {})]. *)
Definition find_last_complete_round (f : file_status)
  : option json * pydict agent_state :=
  match f with
  | Missing => (None, [])
  | Unreadable => (None, [])
  | Readable lines =>
      match scan_lines (enumerate lines) initial_state with
      | Raise _ => (None, [])
      | Ok st =>
          if py_eq (last_complete_round st) (JInt (-1)) then (None, [])
          else
            (Some (last_complete_round st),
             match dict_get (last_complete_round st) (round_responses st)
             with
             | Some agent_states => agent_states
             | None => []
             end)
      end
  end.

(** The test of the truncation loop on one line; the bare [except] turns
    every exception into "no". *)
Definition is_target_round_end (target_round : Z) (line : string) : bool :=
  match json_loads line with
  | DecodeError | OtherError _ _ => false
  | Loaded data =>
      match
        (t <- py_get data "type" ;;
         if py_eq t (JStr "round_end") then
           r <- py_get data "round" ;; Ok (py_eq r (JInt target_round))
         else Ok false)
      with
      | Ok b => b
      | Raise _ => false
      end
  end.

(** The loop of [truncate_log_to_round]: [valid_lines] and [found_target]. *)
Fixpoint keep_through_round_end (target_round : Z) (lines : list string)
  : list string * bool :=
  match lines with
  | [] => ([], false)
  | line :: rest =>
      if is_target_round_end target_round line then ([line], true)
      else
        let '(valid_lines, found_target) :=
          keep_through_round_end target_round rest in
        (line :: valid_lines, found_target)
  end.

(** [truncate_log_to_round(jsonl_path, target_round)]: the value returned
    and the file afterwards. *)
Definition truncate_log_to_round (w : write_fault) (f : file_status)
    (target_round : Z) : bool * file_status :=
  match f with
  | Missing => (false, f)
  | Unreadable => (false, f)
  | Readable lines =>
      let '(valid_lines, found_target) :=
        keep_through_round_end target_round lines in
      if negb found_target then (false, f)
      else
        let '(f', written) := write_lines w f valid_lines in
        (written, f')
  end.

End WithJsonLoads.

End ResumeUtils.

(** ** [src/llm_client.py]

    A client is the record of its attributes as the constructor leaves
    them; what [generate] prints, posts and sleeps is recorded as a list of
    events next to its result. *)
Module LlmClient.
Import Py Json.
Local Open Scope string_scope.

(** The attributes of an [OllamaClient]. *)
Record OllamaClient : Type := {
  base_url : string;
  model : string;
  timeout : Z;
  max_retries : Z;
  retry_delay : Q
}.

(** The request body. *)
Record options_t : Type := {
  temperature : float;
  num_predict : Z;
  seed_option : option Z
}.

Inductive format_t : Type :=
| FormatJson
| FormatSchema (schema : json).

Record payload_t : Type := {
  payload_model : string;
  payload_prompt : string;
  payload_stream : bool;
  payload_options : options_t;
  payload_format : format_t;
  payload_system : option string
}.

(** The exceptions the [try] block of [generate] distinguishes, each with
    [str(e)] where the message uses it. *)
Inductive failure : Type :=
| Timeout
| ConnectionError (e : string)
| RequestException (e : string)
| OtherException (e : string).

(** What one pass through the [try] block meets: the backend's text, an
    exception derived from [Exception], or one that is not (an interrupt). *)
Inductive transport_outcome : Type :=
| Responded (raw_response : string)
| Failed (why : failure)
| Interrupted.

(** What [_parse_json_response] does: it returns a value ([None] is
    [JNull]), or an exception that [json.loads] raises and the function does
    not catch leaves it, given with its [str(e)]. *)
Inductive parse_outcome : Type :=
| Parsed (v : json)
| ParseRaised (e : loads_error) (msg : string).

(** What the caller can observe besides the returned value. *)
Inductive event : Type :=
| Post (attempt : Z)
| Print (msg : string)
| Sleep (seconds : Q).

(** The dictionary [generate] returns; [error] is [None] when the key is
    absent and [Some last_error] when it is present. *)
Record gen_result : Type := {
  response : option string;
  parsed : json;
  success : bool;
  error : option (option string);
  result_model : string;
  attempt_count : Z
}.

Definition pattern_json : string * Re.pattern :=
  ("```json\s*([\s\S]*?)\s*```",
   [Re.Lit "```json"; Re.Star true is_space false;
    Re.Star false Re.any_char true; Re.Star true is_space false;
    Re.Lit "```"]).

Definition pattern_fence : string * Re.pattern :=
  ("```\s*([\s\S]*?)\s*```",
   [Re.Lit "```"; Re.Star true is_space false;
    Re.Star false Re.any_char true; Re.Star true is_space false;
    Re.Lit "```"]).

Definition pattern_object : string * Re.pattern :=
  ("\{[\s\S]*\}",
   [Re.Lit "{"; Re.Star true Re.any_char false; Re.Lit "}"]).

(** The three patterns, each with its source text. *)
Definition patterns : list (string * Re.pattern) :=
  [pattern_json; pattern_fence; pattern_object].

(** [f"{...}"] of the four handlers. *)
Definition describe (c : OllamaClient) (why : failure) : string :=
  match why with
  | Timeout => "Timeout after " ++ str_of_int (timeout c) ++ "s"
  | ConnectionError e => "Connection error: " ++ e
  | RequestException e => "Request error: " ++ e
  | OtherException e => "Unexpected error: " ++ e
  end.

Section WithBackend.

Variable json_loads : string -> loads_outcome.

(** [requests.post(url, json=payload, timeout=...)] followed by the rest of
    the [try] block up to the raw text, at a given attempt. *)
Variable requests_post : string -> payload_t -> Z -> Z -> transport_outcome.

(** The loop over the patterns of [_parse_json_response]. *)
Fixpoint try_patterns (ps : list (string * Re.pattern)) (text : string)
  : parse_outcome :=
  match ps with
  | [] => Parsed JNull
  | (source, p) :: rest =>
      match Re.search p text with
      | Some m =>
          let json_str :=
            if Re.contains "```" source then Re.group1 m else Re.group0 m in
          match json_loads (strip json_str) with
          | Loaded v => Parsed v
          | DecodeError => try_patterns rest text
          | OtherError e msg => ParseRaised e msg
          end
      | None => try_patterns rest text
      end
  end.

(** [_parse_json_response(text)]: both handlers catch
    [json.JSONDecodeError], no other exception of [json.loads]. *)
Definition _parse_json_response (text : string) : parse_outcome :=
  if is_empty text then Parsed JNull
  else
    match json_loads (strip text) with
    | Loaded v => Parsed v
    | DecodeError => try_patterns patterns text
    | OtherError e msg => ParseRaised e msg
    end.

Section Generate.

Variable self : OllamaClient.
Variable url : string.
Variable payload : payload_t.

(** How one pass through the [try] block ends: with the [return], in one
    of the four handlers, or with an exception none of them catches. *)
Inductive try_outcome : Type :=
| Returned (r : gen_result)
| Caught (why : failure)
| Uncaught.

(** The [try] block at a given attempt. An exception that leaves
    [_parse_json_response] is handled like any other: by the last
    handler. *)
Definition try_block (attempt : Z) : try_outcome :=
  match requests_post url payload (timeout self) attempt with
  | Responded raw_response =>
      match _parse_json_response raw_response with
      | Parsed parsed =>
          Returned {| response := Some raw_response;
                      parsed := parsed;
                      success := negb (is_none parsed);
                      error := None;
                      result_model := model self;
                      attempt_count := (attempt + 1)%Z |}
      | ParseRaised _ msg => Caught (OtherException msg)
      end
  | Failed why => Caught why
  | Interrupted => Uncaught
  end.

(** [for attempt in range(self.max_retries): ...] and the final
    [return]. *)
Fixpoint attempt_loop (attempts : list Z) (last_error : option string)
  : list event * result gen_result :=
  match attempts with
  | [] =>
      ([], Ok {| response := None;
                 parsed := JNull;
                 success := false;
                 error := Some last_error;
                 result_model := model self;
                 attempt_count := max_retries self |})
  | attempt :: rest =>
      match try_block attempt with
      | Returned r => ([Post attempt], Ok r)
      | Uncaught => ([Post attempt], Raise KeyboardInterrupt)
      | Caught why =>
          let last_error := describe self why in
          let log :=
            [Post attempt;
             Print ("[Attempt " ++ str_of_int (attempt + 1) ++ "] "
                    ++ last_error)] in
          if (attempt <? max_retries self - 1)%Z then
            let delay := (retry_delay self * inject_Z (attempt + 1))%Q in
            if Qle_bool 0 delay then
              let '(evs, r) := attempt_loop rest (Some last_error) in
              ((log ++ Sleep delay :: evs)%list, r)
            else (log, Raise ValueError)
          else
            let '(evs, r) := attempt_loop rest (Some last_error) in
            ((log ++ evs)%list, r)
      end
  end.

End Generate.

(** [not x] for an optional string. *)
Definition str_is_set (x : option string) : bool :=
  match x with
  | Some s => negb (is_empty s)
  | None => false
  end.

(** [not x] for an optional schema. *)
Definition schema_is_set (x : option json) : bool :=
  match x with
  | Some (JObj []) | Some JNull | None => false
  | Some _ => true
  end.

(** [generate(prompt, system_prompt, temperature, max_tokens, seed,
    json_schema)]: what it does and what it returns or raises. *)
Definition generate (self : OllamaClient) (prompt : string)
    (system_prompt : option string) (temperature : float) (max_tokens : Z)
    (seed : option Z) (json_schema : option json)
  : list event * result gen_result :=
  let url := base_url self ++ "/api/generate" in
  let payload :=
    {| payload_model := model self;
       payload_prompt := prompt;
       payload_stream := false;
       payload_options := {| temperature := temperature;
                             num_predict := max_tokens;
                             seed_option := seed |};
       payload_format :=
         match json_schema with
         | Some schema =>
             if schema_is_set json_schema then FormatSchema schema
             else FormatJson
         | None => FormatJson
         end;
       payload_system :=
         if str_is_set system_prompt then system_prompt else None |} in
  attempt_loop self url payload (range (max_retries self)) None.

End WithBackend.

End LlmClient.

(** ** The notions the properties are stated with

    What the specification describes in its own words, the auxiliary
    notions of the proofs, and the inputs of the examples. *)
Module Spec.
Import Py Json Config Utils LlmClient ResumeUtils.
Local Open Scope string_scope.

(** *** Collapse detection *)

(** Entropy is at or below the threshold in each of the [w] rounds
    [i, ..., i + w - 1], all of which are in the history. *)
Definition collapsed_from (history : list float) (thr : float) (w i : Z)
  : Prop :=
  (0 <= i)%Z /\
  forall j, (i <= j < i + w)%Z ->
    exists h, nth_error history (Z.to_nat j) = Some h
              /\ (h <=? thr)%float = true.

(** Every value of the slice [history[i : i+w]] is at most the threshold. *)
Definition slice_below (history : list float) (thr : float) (w i : Z) : bool :=
  forallb (fun h => (h <=? thr)%float) (slice history i (i + w)).

(** The window of [w] rounds from [i] fits in the history and every value of
    the slice [history[i : i+w]] is at most the threshold. *)
Definition full_window_below (history : list float) (thr : float) (w i : Z)
  : Prop :=
  (0 <= i)%Z /\ (i + w <= Z.of_nat (List.length history))%Z
  /\ slice_below history thr w i = true.

(** [r] is the smallest round index whose slice is below the threshold, or
    none when no round index has such a slice. *)
Definition smallest_slice_start (history : list float) (thr : float) (w : Z)
    (r : option Z) : Prop :=
  match r with
  | Some i =>
      (0 <= i < Z.of_nat (List.length history))%Z
      /\ slice_below history thr w i = true
      /\ forall j, (0 <= j < i)%Z -> slice_below history thr w j = false
  | None =>
      forall i, (0 <= i < Z.of_nat (List.length history))%Z ->
        slice_below history thr w i = false
  end.

(** *** Stance distribution *)

(** [d.get(k, 0)] *)
Fixpoint count_of (k : string) (d : distribution_t) : Z :=
  match d with
  | [] => 0%Z
  | (k', n) :: d' => if String.eqb k' k then n else count_of k d'
  end.

(** The agent currently holds a stance. *)
Definition has_stance (a : Agent) : bool :=
  match current_stance a with
  | Some _ => true
  | None => false
  end.

(** The agent currently holds the stance [s]. *)
Definition holds (s : Stance) (a : Agent) : bool :=
  match current_stance a with
  | Some s' => String.eqb (value s') (value s)
  | None => false
  end.

(** A population of three for the examples: two agents decided, one not
    yet. *)
Definition utilitarian : Persona :=
  {| persona_name := "Utilitarian"; framework := "Maximise total welfare" |}.
Definition deontologist : Persona :=
  {| persona_name := "Deontologist"; framework := "Follow moral duties" |}.
Definition agent_decided : Agent :=
  {| id := "agent_0"; persona := utilitarian;
     current_stance := Some PULL_LEVER;
     current_rationale := Some "Five lives outweigh one" |}.
Definition agent_undecided : Agent :=
  {| id := "agent_1"; persona := deontologist;
     current_stance := None; current_rationale := None |}.
Definition agent_third : Agent :=
  {| id := "agent_2"; persona := utilitarian;
     current_stance := Some DO_NOT_PULL;
     current_rationale := Some "Killing is worse than letting die" |}.
Definition population : list Agent :=
  [agent_decided; agent_undecided; agent_third].

(** *** Entropy *)

(** The summand of one stance: [- p * log2 p] for a positive count. *)
Definition entropy_term (total count : Z) : R :=
  if (0 <? count)%Z then
    let p := (IZR count / IZR total)%R in (- (p * log2 p))%R
  else 0%R.

(** The sum the loop of [calculate_entropy] accumulates. *)
Definition entropy_terms (total : Z) (vs : list Z) : R :=
  fold_right (fun c r => (entropy_term total c + r)%R) 0%R vs.

(** How many counts are positive. *)
Definition positive_counts (vs : list Z) : nat :=
  List.length (filter (fun c => (0 <? c)%Z) vs).

(** How many stances have a nonzero count. *)
Definition nonzero_stances (d : distribution_t) : nat :=
  List.length (filter (fun kv => negb (snd kv =? 0)%Z) d).

(** Counts are never negative. *)
Definition counts_nonnegative (d : distribution_t) : Prop :=
  Forall (fun kv => (0 <= snd kv)%Z) d.

(** A five-agent population split three to two. *)
Definition three_to_two : distribution_t :=
  [("PULL_LEVER", 3%Z); ("DO_NOT_PULL", 2%Z)].

(** *** Peer sampling *)

(** The documented behaviour of [random.sample]: [k] elements chosen without
    replacement when [0 <= k <= len(population)], a [ValueError] otherwise. *)
Definition sample_contract (rng : Type)
    (sample : forall A : Type, rng -> list A -> Z -> result (list A * rng))
  : Prop :=
  forall (A : Type) (g : rng) (population : list A) (k : Z),
    if ((0 <=? k) && (k <=? Z.of_nat (List.length population)))%Z then
      exists l g', sample A g population k = Ok (l, g')
                   /\ Z.of_nat (List.length l) = k
                   /\ exists rest, Permutation (l ++ rest) population
    else sample A g population k = Raise ValueError.

(** A generator for the examples: its state is a counter, a sample is the
    first [k] elements of the population rotated by the counter. *)
Definition demo_rng : Type := Z.
Definition demo_Random (seed : Z) : demo_rng := seed.
Definition rotate {A} (n : nat) (l : list A) : list A :=
  skipn (n mod (List.length l)) l ++ firstn (n mod (List.length l)) l.
Definition demo_sample (A : Type) (g : demo_rng) (population : list A) (k : Z)
  : result (list A * demo_rng) :=
  if ((0 <=? k) && (k <=? Z.of_nat (List.length population)))%Z then
    Ok (firstn (Z.to_nat k) (rotate (Z.abs_nat g) population), (g + 1)%Z)
  else Raise ValueError.

(** Order of agent ids, as Python compares strings. *)
Definition id_le (a b : Agent) : Prop := String.leb (id a) (id b) = true.
Definition peer_id_le (p q : PeerState) : Prop :=
  String.leb (peer_id p) (peer_id q) = true.
(** The agents other than the invoking one. *)
Definition others (cur : string) (agents : list Agent) : list Agent :=
  filter (fun a => negb (String.eqb (id a) cur)) agents.

(** *** The model client *)

(** The requests and pauses of a run in which every attempt fails: attempt
    [a] is followed by a pause of [retry_delay * (a + 1)] unless it is the
    last one. *)
Definition attempt_events (c : OllamaClient) (a : Z) : list event :=
  Post a ::
  (if (a <? max_retries c - 1)%Z
   then [Sleep (retry_delay c * inject_Z (a + 1))%Q] else []).

Definition schedule (c : OllamaClient) : list event :=
  flat_map (attempt_events c) (range (max_retries c)).

(** The observable events other than console output. *)
Definition is_print (e : event) : bool :=
  match e with
  | Print _ => true
  | _ => false
  end.

Definition without_prints (evs : list event) : list event :=
  filter (fun e => negb (is_print e)) evs.

(** The attempts made, in order. *)
Definition posts (evs : list event) : list Z :=
  flat_map (fun e => match e with Post a => [a] | _ => [] end) evs.

(** The pauses taken, in order. *)
Definition sleeps (evs : list event) : list Q :=
  flat_map (fun e => match e with Sleep d => [d] | _ => [] end) evs.

(** The result of a call whose attempts are exhausted. *)
Definition terminal_failure (c : OllamaClient) (last_error : option string)
  : gen_result :=
  {| response := None;
     parsed := JNull;
     success := false;
     error := Some last_error;
     result_model := model c;
     attempt_count := max_retries c |}.

(** A client with the default settings and a backend that never answers. *)
Definition demo_client : OllamaClient :=
  {| base_url := "http://localhost:11434"; model := "llama3";
     timeout := 120%Z; max_retries := 3%Z; retry_delay := 2%Q |}.

Definition always_times_out (url : string) (payload : payload_t) (t a : Z)
  : transport_outcome := Failed Timeout.

(** *** Resuming from the log *)

(** The line decodes to an object whose type is [round_end] and whose round
    equals [target]. *)
Definition round_end_line (json_loads : string -> loads_outcome)
    (target : Z) (line : string) : bool :=
  match json_loads line with
  | Loaded (JObj kvs) =>
      py_eq (obj_get "type" kvs) (JStr "round_end")
      && py_eq (obj_get "round" kvs) (JInt target)
  | _ => false
  end.

(** A log of two rounds, the second one cut short. *)
Definition line_round_end_0 : string :=
  dq "{'type': 'round_end', 'round': 0, 'stats': {'PULL_LEVER': 2}, 'entropy': 0.0}"
  ++ newline.
Definition line_round_start_1 : string :=
  dq "{'type': 'round_start', 'round': 1, 'stats': {'PULL_LEVER': 2}}"
  ++ newline.
Definition line_response_1 : string :=
  dq "{'type': 'agent_response', 'round': 1, 'agent_id': 'agent_0', 'stance': 'PULL_LEVER', 'rationale': 'Five lives outweigh one'}"
  ++ newline.
Definition line_partial : string := dq "{'type': 'agent_respo".
Definition interrupted_log : list string :=
  [line_round_end_0; line_round_start_1; line_response_1; line_partial].

(** A garbled line: two thousand opening brackets. *)
Fixpoint brackets (n : nat) : string :=
  match n with
  | O => EmptyString
  | S n' => String "[" (brackets n')
  end.
Definition line_garbled : string := brackets 2000 ++ newline.
Definition garbled_log : list string := [line_round_end_0; line_garbled].

(** The stripped line is text that [json.loads] accepts. *)
Definition valid_json_line (json_loads : string -> loads_outcome)
    (line : string) : bool :=
  match json_loads (strip line) with
  | Loaded _ => true
  | _ => false
  end.

(** The line is not blank and [json.loads] raises on its stripped text an
    exception other than [JSONDecodeError]. *)
Definition fails_to_load (json_loads : string -> loads_outcome)
    (line : string) : bool :=
  let l := strip line in
  if is_empty l then false
  else
    match json_loads l with
    | OtherError _ _ => true
    | _ => false
    end.

(** Two states of the replay that differ at most in the index of the line
    of the last [round_end]. *)
Definition same_replay (st st' : scan_state) : Prop :=
  last_complete_round st = last_complete_round st'
  /\ round_responses st = round_responses st'
  /\ complete_rounds st = complete_rounds st'.

Inductive same_outcome : result scan_state -> result scan_state -> Prop :=
| same_ok st st' : same_replay st st' -> same_outcome (Ok st) (Ok st')
| same_raise e : same_outcome (Raise e) (Raise e).

(** The event a line records, if it records one: blank lines and lines on
    which [json.loads] raises record none. *)
Definition event_of (json_loads : string -> loads_outcome) (line : string)
  : option json :=
  let l := strip line in
  if is_empty l then None else loaded_value (json_loads l).

(** The events of a log, in log order. *)
Definition events (json_loads : string -> loads_outcome)
    (lines : list string)
  : list json :=
  flat_map
    (fun line => match event_of json_loads line with
                 | Some e => [e]
                 | None => []
                 end)
    lines.

(** The round a [round_end] event closes. *)
Definition round_end_of (e : json) : option Z :=
  match e with
  | JObj kvs =>
      match obj_get "type" kvs, obj_get "round" kvs with
      | JStr t, JInt r => if String.eqb t "round_end" then Some r else None
      | _, _ => None
      end
  | _ => None
  end.

(** The round, the agent and the recorded pair of an [agent_response]. *)
Definition response_of (e : json) : option (Z * string * agent_state) :=
  match e with
  | JObj kvs =>
      match obj_get "type" kvs, obj_get "round" kvs, obj_get "agent_id" kvs
      with
      | JStr t, JInt r, JStr a =>
          if String.eqb t "agent_response" then
            Some (r, a, {| stance := obj_get "stance" kvs;
                           rationale := obj_get "rationale" kvs |})
          else None
      | _, _, _ => None
      end
  | _ => None
  end.

(** The log line schema: an event is an object; a [round_end] carries a
    round number that is a non-negative integer, an [agent_response] an
    integer round and a string agent id. *)
Definition well_formed_event (e : json) : bool :=
  match e with
  | JObj kvs =>
      match obj_get "type" kvs with
      | JStr t =>
          if String.eqb t "round_end" then
            match obj_get "round" kvs with
            | JInt r => (0 <=? r)%Z
            | _ => false
            end
          else if String.eqb t "agent_response" then
            match obj_get "round" kvs, obj_get "agent_id" kvs with
            | JInt _, JStr _ => true
            | _, _ => false
            end
          else true
      | _ => true
      end
  | _ => false
  end.

(** The rounds for which the log holds a [round_end] event. *)
Definition completed_rounds (es : list json) : list Z :=
  flat_map (fun e => match round_end_of e with
                     | Some r => [r]
                     | None => []
                     end) es.

(** The pair of the last [agent_response] event for round [r] and agent [a]
    in log order. *)
Fixpoint last_response (es : list json) (r : Z) (a : string)
  : option agent_state :=
  match es with
  | [] => None
  | e :: es' =>
      match last_response es' r a with
      | Some s => Some s
      | None =>
          match response_of e with
          | Some (r', a', s) =>
              if (r' =? r)%Z && String.eqb a' a then Some s else None
          | None => None
          end
      end
  end.

(** The pair kept for round [r] and agent [a] in the replay's table. *)
Definition recorded (rr : pydict (pydict agent_state)) (r : Z) (a : string)
  : option agent_state :=
  match dict_get (JInt r) rr with
  | Some d => dict_get (JStr a) d
  | None => None
  end.

(** Dictionaries all of whose keys are integers, or strings. *)
Definition int_keyed {V} (d : pydict V) : Prop :=
  Forall (fun kv => exists z, fst kv = JInt z) d.
Definition str_keyed {V} (d : pydict V) : Prop :=
  Forall (fun kv => exists s, fst kv = JStr s) d.

(** The tables the replay builds from well-formed events: rounds are
    integers, agents are strings. *)
Definition well_keyed (rr : pydict (pydict agent_state)) : Prop :=
  int_keyed rr /\ Forall (fun kv => str_keyed (snd kv)) rr.

(** A log with a retried response in round 0 and an unfinished round 1. *)
Definition line_experiment_start : string :=
  dq "{'type': 'experiment_start', 'experiment_id': 'demo'}" ++ newline.
Definition line_first_try : string :=
  dq "{'type': 'agent_response', 'round': 0, 'agent_id': 'agent_0', 'stance': 'PULL_LEVER', 'rationale': 'first answer'}"
  ++ newline.
Definition line_retried : string :=
  dq "{'type': 'agent_response', 'round': 0, 'agent_id': 'agent_0', 'stance': 'DO_NOT_PULL', 'rationale': 'retried answer'}"
  ++ newline.
Definition line_other_agent : string :=
  dq "{'type': 'agent_response', 'round': 0, 'agent_id': 'agent_1', 'stance': 'PULL_LEVER', 'rationale': 'duty to save'}"
  ++ newline.
Definition retried_log : list string :=
  [line_experiment_start; line_first_try; line_retried; line_other_agent;
   line_round_end_0; line_round_start_1; line_response_1; line_partial].

(** *** Extracting JSON from a response *)

(** The fence of a code block. *)
Definition fence : string := "```".

(** The text before the first occurrence of [needle] in [s]. *)
Fixpoint before_first (needle s : string) : option string :=
  match Re.strip_prefix needle s with
  | Some _ => Some EmptyString
  | None =>
      match s with
      | EmptyString => None
      | String c s' => option_map (String c) (before_first needle s')
      end
  end.

(** The interior of the first fenced block of [text] that opens with
    [opener]: what lies between the opener and the next fence. *)
Fixpoint fenced_block (opener text : string) : option string :=
  match
    match Re.strip_prefix opener text with
    | Some rest => before_first fence rest
    | None => None
    end
  with
  | Some interior => Some interior
  | None =>
      match text with
      | EmptyString => None
      | String _ text' => fenced_block opener text'
      end
  end.

(** The text up to and including the last occurrence of [c] in [s]. *)
Fixpoint through_last (c : ascii) (s : string) : option string :=
  match s with
  | EmptyString => None
  | String a s' =>
      match through_last c s' with
      | Some p => Some (String a p)
      | None => if Ascii.eqb a c then Some (String a EmptyString) else None
      end
  end.

(** What is left of [s] from its first occurrence of [c]. *)
Fixpoint from_first (c : ascii) (s : string) : option string :=
  match s with
  | EmptyString => None
  | String a s' => if Ascii.eqb a c then Some s else from_first c s'
  end.

(** The text from the first opening brace to the last closing brace. *)
Definition brace_span (text : string) : option string :=
  match from_first "{" text with
  | Some (String a body) => option_map (String a) (through_last "}" body)
  | _ => None
  end.

(** Inside [depth] open braces: the text through the brace that closes the
    outermost of them. *)
Fixpoint balanced_rest (depth : nat) (s : string) : option string :=
  match s with
  | EmptyString => None
  | String c s' =>
      if Ascii.eqb c "{" then
        option_map (String c) (balanced_rest (S depth) s')
      else if Ascii.eqb c "}" then
        match depth with
        | O => None
        | S O => Some (String c EmptyString)
        | S d => option_map (String c) (balanced_rest d s')
        end
      else option_map (String c) (balanced_rest depth s')
  end.

(** The first balanced brace-delimited object of the text. *)
Definition first_balanced_object (text : string) : option string :=
  match from_first "{" text with
  | Some (String a body) => option_map (String a) (balanced_rest 1 body)
  | _ => None
  end.

(** The candidates are tried in order, each stripped: the value of the
    first that parses, [None] when each raises [JSONDecodeError]; another
    exception ends the trial. *)
Fixpoint first_parsed (json_loads : string -> loads_outcome)
    (candidates : list (option string)) : parse_outcome :=
  match candidates with
  | [] => Parsed JNull
  | None :: rest => first_parsed json_loads rest
  | Some c :: rest =>
      match json_loads (strip c) with
      | Loaded v => Parsed v
      | DecodeError => first_parsed json_loads rest
      | OtherError e msg => ParseRaised e msg
      end
  end.

(** Extraction as the code does it. *)
Definition extraction_order (text : string) : list (option string) :=
  [Some text; fenced_block "```json" text; fenced_block fence text;
   brace_span text].

(** Extraction with the first balanced object as last resort. *)
Definition extraction_order_balanced (text : string) : list (option string) :=
  [Some text; fenced_block "```json" text; fenced_block fence text;
   first_balanced_object text].

(** The text after the last occurrence of [c] in [s]. *)
Fixpoint after_last (c : ascii) (s : string) : option string :=
  match s with
  | EmptyString => None
  | String a s' =>
      match after_last c s' with
      | Some r => Some r
      | None => if Ascii.eqb a c then Some s' else None
      end
  end.

(** Where the lazy group of a fenced pattern can end: what follows is
    whitespace and then a fence. *)
Definition close_at (u : string) : option string :=
  Re.strip_prefix fence (lstrip u).

(** The first suffix at which the group can end. *)
Fixpoint group_end (u : string) : option string :=
  match close_at u with
  | Some _ => Some u
  | None =>
      match u with
      | EmptyString => None
      | String _ u' => group_end u'
      end
  end.

(** The two fenced patterns, by their opener. *)
Definition fenced_pattern (opener : string) : Re.pattern :=
  [Re.Lit opener; Re.Star true is_space false;
   Re.Star false Re.any_char true; Re.Star true is_space false;
   Re.Lit fence].

(** The object pattern. *)
Definition object_pattern : Re.pattern := snd pattern_object.

(** A text holding two objects, and a backend that answers with a given
    text. *)
Definition two_objects : string := dq "{'a': 1} {'b': 2}".
Definition answers (raw : string) (url : string) (payload : payload_t)
    (t a : Z) : transport_outcome := Responded raw.

(** The backend [requests_post], except that attempt [a] fails with
    [why]. *)
Definition failing_at (a : Z) (why : failure)
    (requests_post : string -> payload_t -> Z -> Z -> transport_outcome)
    (url : string) (payload : payload_t) (t a' : Z) : transport_outcome :=
  if (a' =? a)%Z then Failed why else requests_post url payload t a'.

End Spec.

(** ** More of Python's built-ins *)
Module PyMore.
Import Py Json.

(** [s.rstrip(c)] for a single character [c]. *)
Fixpoint rstrip_char (c : ascii) (s : string) : string :=
  match s with
  | EmptyString => EmptyString
  | String a s' =>
      match rstrip_char c s' with
      | EmptyString =>
          if Ascii.eqb a c then EmptyString else String a EmptyString
      | r => String a r
      end
  end.

(** [s.split(c)[0]] for a single character [c]: the text before the first
    [c], all of [s] when it has none. *)
Fixpoint split_head (c : ascii) (s : string) : string :=
  match s with
  | EmptyString => EmptyString
  | String a s' =>
      if Ascii.eqb a c then EmptyString else String a (split_head c s')
  end.

(** [d.get(key, default)] *)
Definition obj_get_default (key : string) (default : json)
    (kvs : list (string * json)) : json :=
  match find (fun kv => String.eqb (fst kv) key) (rev kvs) with
  | Some (_, v) => v
  | None => default
  end.

(** The keys of a [dict] read from JSON text: each once, in the order of
    their first occurrence. *)
Fixpoint keys (kvs : list (string * json)) : list string :=
  match kvs with
  | [] => []
  | (k, _) :: rest =>
      k :: filter (fun k' => negb (String.eqb k' k)) (keys rest)
  end.

(** The characters of a string, each as a string. *)
Fixpoint chars (s : string) : list string :=
  match s with
  | EmptyString => []
  | String c s' => String c EmptyString :: chars s'
  end.

(** [for m in v]: a list yields its elements, a [dict] its keys, a string
    its characters; nothing else can be iterated ([None] is the
    [TypeError]). *)
Definition iterate (v : json) : option (list json) :=
  match v with
  | JArr l => Some l
  | JObj kvs => Some (map JStr (keys kvs))
  | JStr s => Some (map JStr (chars s))
  | _ => None
  end.

(** [d[key]]; [None] is the [KeyError]. *)
Definition obj_lookup (key : string) (kvs : list (string * json))
  : option json :=
  match find (fun kv => String.eqb (fst kv) key) (rev kvs) with
  | Some (_, v) => Some v
  | None => None
  end.

(** [d.items()] for a [dict] read from JSON text: every key once, with its
    last binding. *)
Definition items (kvs : list (string * json)) : list (string * json) :=
  map (fun k => (k, obj_get k kvs)) (keys kvs).

(** [d[k] = v] on a [dict] with string keys: the key keeps its place when
    it is there already. *)
Fixpoint set_item (k : string) (v : json) (d : list (string * json))
  : list (string * json) :=
  match d with
  | [] => [(k, v)]
  | (k', v') :: d' =>
      if String.eqb k' k then (k', v) :: d' else (k', v') :: set_item k v d'
  end.

(** The [dict] a display [{k1: v1, ..., **d}] builds: the bindings are
    made from left to right. *)
Definition display (bindings : list (string * json))
  : list (string * json) :=
  fold_left (fun d kv => set_item (fst kv) (snd kv) d) bindings [].

(** The truth value of a JSON value. *)
Definition truth (v : json) : bool :=
  match v with
  | JNull => false
  | JBool b => b
  | JInt z => negb (z =? 0)%Z
  | JFloat f => negb (f =? 0)%float
  | JStr s => negb (is_empty s)
  | JArr l => match l with [] => false | _ => true end
  | JObj kvs => match kvs with [] => false | _ => true end
  end.

(** [a / b] for integers [0 <= a] and [0 < b]: the binary64 value nearest
    to the quotient. *)
Definition true_div (a b : Z) : float :=
  if (a =? 0)%Z then 0%float
  else
    let s := (64 + Z.log2_up b)%Z in
    let q := ((a * 2 ^ s) / b)%Z in
    let sticky := if ((a * 2 ^ s) mod b =? 0)%Z then 0%Z else 1%Z in
    SF2Prim (binary_normalize prec emax (2 * q + sticky) (- s - 1) false).

(** [a / b] for integers: [ZeroDivisionError] for a zero divisor;
    otherwise the binary64 value nearest to the quotient (ties to even),
    with the sign of the quotient also when it is zero, and [OverflowError]
    when that value is not finite. *)
Definition int_true_div (a b : Z) : result float :=
  if (b =? 0)%Z then Raise ZeroDivisionError
  else
    let q := true_div (Z.abs a) (Z.abs b) in
    let q := if Bool.eqb (a <? 0)%Z (b <? 0)%Z then q else (- q)%float in
    if (PrimFloat.abs q =? infinity)%float then Raise OverflowError
    else Ok q.

(** [math.log2(x)]: NaN and positive infinity are returned as they are, a
    positive finite [x] is passed to the C library's [log2], and anything
    else (zero, a negative number) is a [ValueError]. *)
Definition math_log2 (libm_log2 : float -> float) (x : float)
  : result float :=
  if negb (x =? x)%float then Ok x
  else if (x =? infinity)%float then Ok x
  else if (0 <? x)%float then Ok (libm_log2 x)
  else Raise ValueError.

(** [f.readlines()] on the text of a file: the text is cut after each line
    feed. *)
Fixpoint readlines (text : string) : list string :=
  match text with
  | EmptyString => []
  | String c rest =>
      if Ascii.eqb c (ascii_of_nat 10) then
        String c EmptyString :: readlines rest
      else
        match readlines rest with
        | [] => [String c EmptyString]
        | line :: lines => String c line :: lines
        end
  end.

End PyMore.

(** ** [src/utils.py]: the entropy as the interpreter computes it

    [calculate_entropy] in binary64. The C library's [log2], which
    [math.log2] calls on a positive finite argument, is a parameter. *)
Module Binary64.
Import Py PyMore Utils.

Section WithLibm.

Variable libm_log2 : float -> float.

(** [for count in distribution.values(): ...] *)
Fixpoint entropy_loop (total : Z) (counts : list Z) (entropy : float)
  : result float :=
  match counts with
  | [] => Ok entropy
  | count :: rest =>
      if (0 <? count)%Z then
        p <- int_true_div count total ;;
        l <- math_log2 libm_log2 p ;;
        entropy_loop total rest (entropy - p * l)%float
      else entropy_loop total rest entropy
  end.

(** [calculate_entropy(distribution)] *)
Definition calculate_entropy (distribution : distribution_t)
  : result float :=
  let total := sum (values distribution) in
  if (total =? 0)%Z then Ok 0%float
  else entropy_loop total (values distribution) 0%float.

End WithLibm.

End Binary64.

(** ** [src/llm_client.py]: the constructor and the health check

    What [health_check] prints is not part of the model. *)
Module ClientSetup.
Import Py Json PyMore LlmClient.
Local Open Scope string_scope.

(** [OLLAMA_BASE_URL] and [MODEL_NAME] of [src/config.py], given what
    [os.environ.get] finds under those names. *)
Definition OLLAMA_BASE_URL (environ : option string) : string :=
  match environ with
  | Some v => v
  | None => "http://localhost:11434"
  end.

Definition MODEL_NAME (environ : option string) : string :=
  match environ with
  | Some v => v
  | None => "mistral"
  end.

(** [OllamaClient.__init__(base_url, model, timeout, max_retries,
    retry_delay)] *)
Definition __init__ (base_url model : string) (timeout max_retries : Z)
    (retry_delay : Q) : OllamaClient :=
  {| LlmClient.base_url := rstrip_char "/" base_url;
     LlmClient.model := model;
     LlmClient.timeout := timeout;
     LlmClient.max_retries := max_retries;
     LlmClient.retry_delay := retry_delay |}.

(** The defaults of the last three parameters. *)
Definition default_timeout : Z := 120.
Definition default_max_retries : Z := 3.
Definition default_retry_delay : Q := 2.

(** [[m.get("name", "").split(":")[0] for m in models]]; [None] when an
    element has no [get] or a name has no [split] (an [AttributeError]). *)
Fixpoint model_names (models : list json) : option (list string) :=
  match models with
  | [] => Some []
  | JObj kvs :: rest =>
      match obj_get_default "name" (JStr "") kvs with
      | JStr name =>
          match model_names rest with
          | Some names => Some (split_head ":" name :: names)
          | None => None
          end
      | _ => None
      end
  | _ :: _ => None
  end.

(** What [requests.get] followed by [raise_for_status] and [response.json]
    comes to: the decoded body, an exception derived from [Exception], or
    one that is not (an interrupt). *)
Inductive get_outcome : Type :=
| Body (v : json)
| GetFailed
| GetInterrupted.

Section WithServer.

(** [requests.get(url, timeout=...)] and the decoding of its answer. *)
Variable requests_get : string -> Z -> get_outcome.

(** [health_check()] *)
Definition health_check (self : OllamaClient) : result bool :=
  match requests_get (base_url self ++ "/api/tags") 5 with
  | GetInterrupted => Raise KeyboardInterrupt
  | GetFailed => Ok false
  | Body (JObj kvs) =>
      match iterate (obj_get_default "models" (JArr []) kvs) with
      | Some models =>
          match model_names models with
          | Some names =>
              Ok (existsb (String.eqb (split_head ":" (model self))) names)
          | None => Ok false
          end
      | None => Ok false
      end
  | Body _ => Ok false
  end.

End WithServer.

End ClientSetup.

(** ** [src/utils.py]: the display of statistics *)
Module Display.
Import Py Utils LlmClient.
Local Open Scope string_scope.

(** Comparison of two [(key, count)] tuples as Python compares tuples: by
    the keys, then by the counts. *)
Definition item_compare (a b : string * Z) : comparison :=
  match String.compare (fst a) (fst b) with
  | Eq => Z.compare (snd a) (snd b)
  | c => c
  end.

(** [a <= b], that is [not (b < a)]. *)
Definition item_leb (a b : string * Z) : bool :=
  match item_compare a b with
  | Gt => false
  | _ => true
  end.

(** [sorted(l)]: a stable sort, an item goes in front of the first one that
    is not smaller. *)
Fixpoint insert_item (x : string * Z) (l : list (string * Z))
  : list (string * Z) :=
  match l with
  | [] => [x]
  | y :: l' => if item_leb x y then x :: l else y :: insert_item x l'
  end.

Definition sorted (l : list (string * Z)) : list (string * Z) :=
  fold_right insert_item [] l.

(** [sep.join(parts)] *)
Fixpoint join (sep : string) (parts : list string) : string :=
  match parts with
  | [] => EmptyString
  | [p] => p
  | p :: rest => p ++ sep ++ join sep rest
  end.

(** [format_stats_for_display(stats)] *)
Definition format_stats_for_display (stats : distribution_t) : string :=
  let parts :=
    map (fun kv => fst kv ++ ": " ++ str_of_int (snd kv)) (sorted stats) in
  join " | " parts.

End Display.

(** ** [analyze.py]: reading and analysing one experiment

    The analysis is modelled up to the dictionary it returns; the two
    ratios and the rate are the floats Python's division gives. *)
Module Analyze.
Import Py Json PyMore ResumeUtils.
Local Open Scope string_scope.

(** The exceptions the analysis can meet. *)
Inductive exc : Type :=
| Builtin (e : exn)
| KeyError (key : string)
| JSONDecodeError
| FileNotFoundError
| ReadError.

Inductive outcome (A : Type) : Type :=
| Returns (a : A)
| Raises (e : exc).
Arguments Returns {A} a.
Arguments Raises {A} e.

Definition and_then {A B} (c : outcome A) (k : A -> outcome B) : outcome B :=
  match c with
  | Returns a => k a
  | Raises e => Raises e
  end.

(** [event[key]] *)
Definition subscript (kvs : list (string * json)) (key : string)
  : outcome json :=
  match obj_lookup key kvs with
  | Some v => Returns v
  | None => Raises (KeyError key)
  end.

Section WithJsonLoads.

Variable json_loads : string -> loads_outcome.

(** The loop of [load_experiment_log] over the lines of the file: whatever
    [json.loads] raises leaves the function. *)
Fixpoint load_lines (lines : list string) : outcome (list json) :=
  match lines with
  | [] => Returns []
  | line :: rest =>
      if is_empty (strip line) then load_lines rest
      else
        match json_loads line with
        | DecodeError => Raises JSONDecodeError
        | OtherError e _ => Raises (Builtin (error_class e))
        | Loaded event =>
            and_then (load_lines rest) (fun events => Returns (event :: events))
        end
  end.

(** [load_experiment_log(filepath)] *)
Definition load_experiment_log (f : file_status) : outcome (list json) :=
  match f with
  | Missing => Raises FileNotFoundError
  | Unreadable => Raises ReadError
  | Readable lines => load_lines lines
  end.

End WithJsonLoads.

(** A round while it is open, and once its [round_end] has been seen. *)
Record open_round : Type := {
  round : json;
  start_stats : json;
  responses : list json
}.

Record round_data : Type := {
  opened : open_round;
  end_stats : json;
  entropy : json
}.

(** The local variables of the loop of [analyze_single_experiment]. *)
Record loop_state : Type := {
  config : list (string * json);
  rounds_data : list round_data;
  current_round : option open_round;
  agent_responses : list json
}.

Definition initial : loop_state :=
  {| config := []; rounds_data := []; current_round := None;
     agent_responses := [] |}.

(** The body of the loop for one event. *)
Definition step (st : loop_state) (event : json) : outcome loop_state :=
  match event with
  | JObj kvs =>
      let event_type := obj_get "type" kvs in
      if py_eq event_type (JStr "config") then
        Returns
          {| config :=
               filter (fun kv => negb (String.eqb (fst kv) "type")
                                 && negb (String.eqb (fst kv) "timestamp"))
                 (items kvs);
             rounds_data := rounds_data st;
             current_round := current_round st;
             agent_responses := agent_responses st |}
      else if py_eq event_type (JStr "round_start") then
        and_then (subscript kvs "round") (fun r =>
        and_then (subscript kvs "stats") (fun s =>
        Returns
          {| config := config st;
             rounds_data := rounds_data st;
             current_round :=
               Some {| round := r; start_stats := s; responses := [] |};
             agent_responses := agent_responses st |}))
      else if py_eq event_type (JStr "agent_response") then
        Returns
          {| config := config st;
             rounds_data := rounds_data st;
             current_round :=
               match current_round st with
               | Some cr =>
                   Some {| round := round cr;
                           start_stats := start_stats cr;
                           responses := responses cr ++ [event] |}
               | None => None
               end;
             agent_responses := agent_responses st ++ [event] |}
      else if py_eq event_type (JStr "round_end") then
        match current_round st with
        | Some cr =>
            and_then (subscript kvs "stats") (fun s =>
            and_then (subscript kvs "entropy") (fun h =>
            Returns
              {| config := config st;
                 rounds_data :=
                   rounds_data st
                   ++ [{| opened := cr; end_stats := s; entropy := h |}];
                 current_round := None;
                 agent_responses := agent_responses st |}))
        | None =>
            Returns
              {| config := config st;
                 rounds_data := rounds_data st;
                 current_round := None;
                 agent_responses := agent_responses st |}
        end
      else Returns st
  | _ => Raises (Builtin AttributeError)
  end.

(** [for event in events: ...] *)
Fixpoint loop (events : list json) (st : loop_state) : outcome loop_state :=
  match events with
  | [] => Returns st
  | event :: rest => and_then (step st event) (loop rest)
  end.

(** [sum(1 for r in l if test(r))] *)
Definition count_if (test : json -> bool) (l : list json) : Z :=
  Z.of_nat (List.length (filter test l)).

(** [r.get(key, default)] on a response, which is a [dict]. *)
Definition field (key : string) (default : json) (r : json) : json :=
  match r with
  | JObj kvs => obj_get_default key default kvs
  | _ => default
  end.

Definition has_reason (reason : string) (r : json) : bool :=
  py_eq (field "change_reason" JNull r) (JStr reason).

(** The dictionaries returned. *)
Record change_analysis_t : Type := {
  total_changes : Z;
  informational : Z;
  normative : Z;
  uncertainty : Z;
  informational_ratio : float;
  normative_ratio : float
}.

Record analysis_t : Type := {
  analysis_config : list (string * json);
  num_rounds : Z;
  entropy_history : list json;
  change_analysis : change_analysis_t;
  parse_success_rate : float
}.

(** [analyze_single_experiment(events)] *)
Definition analyze_single_experiment (events : list json)
  : outcome analysis_t :=
  and_then (loop events initial) (fun st =>
    let total_changes :=
      count_if (fun r => truth (field "changed" (JBool false) r))
        (agent_responses st) in
    let informational_changes :=
      count_if (has_reason "INFORMATIONAL") (agent_responses st) in
    let normative_changes :=
      count_if (has_reason "NORMATIVE") (agent_responses st) in
    let uncertainty_changes :=
      count_if (has_reason "UNCERTAINTY") (agent_responses st) in
    let total_responses := Z.of_nat (List.length (agent_responses st)) in
    let parse_success :=
      count_if (fun r => truth (field "parse_success" (JBool false) r))
        (agent_responses st) in
    Returns
      {| analysis_config := config st;
         num_rounds := Z.of_nat (List.length (rounds_data st));
         entropy_history := map entropy (rounds_data st);
         change_analysis :=
           {| total_changes := total_changes;
              informational := informational_changes;
              normative := normative_changes;
              uncertainty := uncertainty_changes;
              informational_ratio :=
                true_div informational_changes (Z.max total_changes 1);
              normative_ratio :=
                true_div normative_changes (Z.max total_changes 1) |};
         parse_success_rate :=
           true_div parse_success (Z.max total_responses 1) |}).

End Analyze.

(** ** [src/utils.py]: the experiment logger

    The logger is modelled by what it does to its two files, the log and
    the summary; each is absent or has a text. The directories it creates,
    the paths of the files and errors of the file system are not part of
    the model. [get_timestamp()] reads the clock: its result is the
    parameter [now] of every method that calls it. *)
Module Logging.
Import Py Json PyMore Utils LlmClient ResumeUtils.
Local Open Scope string_scope.

Record files : Type := {
  log_file : option string;
  summary_file : option string
}.

(** The directory under [log_dir] that holds the files of the logger. *)
Definition log_subdirectory (batch_id : option string) : string :=
  match batch_id with
  | Some b => if str_is_set batch_id then "batch_" ++ b else "single_runs"
  | None => "single_runs"
  end.

(** The names of the two files. *)
Definition log_name (experiment_id : string) : string :=
  experiment_id ++ ".jsonl".
Definition summary_name (experiment_id : string) : string :=
  experiment_id ++ "_summary.json".

(** [with open(path, 'a') as f: f.write(text)] *)
Definition append_text (text : string) (file : option string)
  : option string :=
  Some (match file with
        | Some old => old
        | None => EmptyString
        end ++ text).

(** A [Dict[str, int]] as a JSON value. *)
Definition stats_json (stats : distribution_t) : json :=
  JObj (map (fun kv => (fst kv, JInt (snd kv))) stats).

(** The dictionaries the methods build. *)
Definition experiment_start_event (now experiment_id : string)
  : list (string * json) :=
  display [("type", JStr "experiment_start");
           ("experiment_id", JStr experiment_id);
           ("timestamp", JStr now)].

Definition config_event (now : string) (config : list (string * json))
  : list (string * json) :=
  display ([("type", JStr "config"); ("timestamp", JStr now)] ++ config).

Definition round_start_event (now : string) (round_number : Z)
    (stats : distribution_t) : list (string * json) :=
  display [("type", JStr "round_start");
           ("round", JInt round_number);
           ("stats", stats_json stats);
           ("timestamp", JStr now)].

Definition agent_response_event (now : string) (round_number : Z)
    (agent_id : string) (response : list (string * json))
  : list (string * json) :=
  display ([("type", JStr "agent_response");
            ("round", JInt round_number);
            ("agent_id", JStr agent_id);
            ("timestamp", JStr now)] ++ response).

Definition round_end_event (now : string) (round_number : Z)
    (stats : distribution_t) (entropy : float) : list (string * json) :=
  display [("type", JStr "round_end");
           ("round", JInt round_number);
           ("stats", stats_json stats);
           ("entropy", JFloat entropy);
           ("timestamp", JStr now)].

Definition experiment_end_event (now : string)
    (summary : list (string * json)) : list (string * json) :=
  display ([("type", JStr "experiment_end"); ("timestamp", JStr now)]
           ++ summary).

Section WithJsonDumps.

(** [json.dumps(v, ensure_ascii=False)] and
    [json.dumps(v, ensure_ascii=False, indent=2)]. *)
Variable json_dumps : json -> string.
Variable json_dumps_indented : json -> string.

(** [_write_event(event)] *)
Definition _write_event (event : list (string * json)) (fs : files) : files :=
  {| log_file := append_text (json_dumps (JObj event) ++ newline) (log_file fs);
     summary_file := summary_file fs |}.

(** [ExperimentLogger(experiment_id, batch_id, log_dir, resume)]: what the
    constructor does to the files. *)
Definition __init__ (now experiment_id : string) (resume : bool) (fs : files)
  : files :=
  if negb resume then
    _write_event (experiment_start_event now experiment_id) fs
  else fs.

(** [log_config(config)] *)
Definition log_config (now : string) (config : list (string * json))
    (fs : files) : files :=
  _write_event (config_event now config) fs.

(** [log_round_start(round_number, stats)] *)
Definition log_round_start (now : string) (round_number : Z)
    (stats : distribution_t) (fs : files) : files :=
  _write_event (round_start_event now round_number stats) fs.

(** [log_agent_response(round_number, agent_id, response)] *)
Definition log_agent_response (now : string) (round_number : Z)
    (agent_id : string) (response : list (string * json)) (fs : files)
  : files :=
  _write_event (agent_response_event now round_number agent_id response) fs.

(** [log_round_end(round_number, stats, entropy)] *)
Definition log_round_end (now : string) (round_number : Z)
    (stats : distribution_t) (entropy : float) (fs : files) : files :=
  _write_event (round_end_event now round_number stats entropy) fs.

(** [log_experiment_end(summary)] *)
Definition log_experiment_end (now : string)
    (summary : list (string * json)) (fs : files) : files :=
  let fs' := _write_event (experiment_end_event now summary) fs in
  {| log_file := log_file fs';
     summary_file := Some (json_dumps_indented (JObj (display summary))) |}.

End WithJsonDumps.

(** What a reader finds at the path of the log. *)
Definition as_file (file : option string) : file_status :=
  match file with
  | Some text => Readable (readlines text)
  | None => Missing
  end.

End Logging.

(** ** [hashlib.sha256] and the seed derived from it

    SHA-256 as FIPS 180-4 defines it, on 32-bit words kept as integers. *)
Module Sha256.
Local Open Scope Z_scope.

Definition word (z : Z) : Z := z mod 2 ^ 32.
Definition add (a b : Z) : Z := word (a + b).
Definition rotr (n x : Z) : Z :=
  word (Z.lor (Z.shiftr x n) (Z.shiftl x (32 - n))).
Definition shr (n x : Z) : Z := Z.shiftr x n.
Definition complement (x : Z) : Z := Z.lxor x (2 ^ 32 - 1).

Definition ch (x y z : Z) : Z :=
  Z.lxor (Z.land x y) (Z.land (complement x) z).
Definition maj (x y z : Z) : Z :=
  Z.lxor (Z.lxor (Z.land x y) (Z.land x z)) (Z.land y z).
Definition big_sigma0 (x : Z) : Z :=
  Z.lxor (Z.lxor (rotr 2 x) (rotr 13 x)) (rotr 22 x).
Definition big_sigma1 (x : Z) : Z :=
  Z.lxor (Z.lxor (rotr 6 x) (rotr 11 x)) (rotr 25 x).
Definition small_sigma0 (x : Z) : Z :=
  Z.lxor (Z.lxor (rotr 7 x) (rotr 18 x)) (shr 3 x).
Definition small_sigma1 (x : Z) : Z :=
  Z.lxor (Z.lxor (rotr 17 x) (rotr 19 x)) (shr 10 x).

(** The round constants and the initial hash value. *)
Definition K : list Z :=
  [
   1116352408; 1899447441; 3049323471; 3921009573; 961987163; 1508970993;
   2453635748; 2870763221; 3624381080; 310598401; 607225278; 1426881987;
   1925078388; 2162078206; 2614888103; 3248222580; 3835390401; 4022224774;
   264347078; 604807628; 770255983; 1249150122; 1555081692; 1996064986;
   2554220882; 2821834349; 2952996808; 3210313671; 3336571891; 3584528711;
   113926993; 338241895; 666307205; 773529912; 1294757372; 1396182291;
   1695183700; 1986661051; 2177026350; 2456956037; 2730485921; 2820302411;
   3259730800; 3345764771; 3516065817; 3600352804; 4094571909; 275423344;
   430227734; 506948616; 659060556; 883997877; 958139571; 1322822218;
   1537002063; 1747873779; 1955562222; 2024104815; 2227730452; 2361852424;
   2428436474; 2756734187; 3204031479; 3329325298].

Record state : Type := {
  h0 : Z; h1 : Z; h2 : Z; h3 : Z; h4 : Z; h5 : Z; h6 : Z; h7 : Z
}.

Definition initial_hash : state :=
  {| h0 := 1779033703; h1 := 3144134277; h2 := 1013904242;
     h3 := 2773480762; h4 := 1359893119; h5 := 2600822924;
     h6 := 528734635; h7 := 1541459225 |}.

(** The message followed by the bit 1, zeros, and its length in bits on
    eight bytes, a multiple of 64 bytes in all. *)
Definition length_bytes (bits : Z) : list Z :=
  map (fun i => (bits / 2 ^ (8 * (7 - Z.of_nat i))) mod 256) (seq 0 8).

Definition pad (message : list Z) : list Z :=
  let n := Z.of_nat (List.length message) in
  let zeros := Z.to_nat ((55 - n) mod 64) in
  message ++ [128] ++ repeat 0 zeros ++ length_bytes (8 * n).

(** Four bytes as a word, most significant byte first, and back. *)
Definition word_of_bytes (b : list Z) : Z :=
  fold_left (fun acc x => acc * 256 + x) b 0.
Definition bytes_of_word (w : Z) : list Z :=
  [(w / 2 ^ 24) mod 256; (w / 2 ^ 16) mod 256; (w / 2 ^ 8) mod 256;
   w mod 256].

(** The words of the padded message. *)
Fixpoint words (n : nat) (bytes : list Z) : list Z :=
  match n with
  | O => []
  | S n' => word_of_bytes (firstn 4 bytes) :: words n' (skipn 4 bytes)
  end.

(** The message schedule of a block, last word first: [more] words are
    added to the words already there. *)
Fixpoint schedule (more : nat) (w : list Z) : list Z :=
  match more with
  | O => w
  | S more' =>
      let next :=
        add (add (small_sigma1 (nth 1 w 0)) (nth 6 w 0))
            (add (small_sigma0 (nth 14 w 0)) (nth 15 w 0)) in
      schedule more' (next :: w)
  end.

(** One round, with its constant and its word of the schedule. *)
Definition round (s : state) (kw : Z * Z) : state :=
  let t1 :=
    add (add (add (h7 s) (big_sigma1 (h4 s)))
             (add (ch (h4 s) (h5 s) (h6 s)) (fst kw))) (snd kw) in
  let t2 := add (big_sigma0 (h0 s)) (maj (h0 s) (h1 s) (h2 s)) in
  {| h0 := add t1 t2; h1 := h0 s; h2 := h1 s; h3 := h2 s;
     h4 := add (h3 s) t1; h5 := h4 s; h6 := h5 s; h7 := h6 s |}.

(** The hash value after one more block of sixteen words. *)
Definition compress (s : state) (block : list Z) : state :=
  let w := rev (schedule 48 (rev block)) in
  let r := fold_left round (combine K w) s in
  {| h0 := add (h0 s) (h0 r); h1 := add (h1 s) (h1 r);
     h2 := add (h2 s) (h2 r); h3 := add (h3 s) (h3 r);
     h4 := add (h4 s) (h4 r); h5 := add (h5 s) (h5 r);
     h6 := add (h6 s) (h6 r); h7 := add (h7 s) (h7 r) |}.

Fixpoint blocks (n : nat) (ws : list Z) (s : state) : state :=
  match n with
  | O => s
  | S n' => blocks n' (skipn 16 ws) (compress s (firstn 16 ws))
  end.

(** [hashlib.sha256(message).digest()] *)
Definition digest (message : list Z) : list Z :=
  let padded := pad message in
  let nblocks := (List.length padded / 64)%nat in
  let s := blocks nblocks (words (16 * nblocks) padded) initial_hash in
  bytes_of_word (h0 s) ++ bytes_of_word (h1 s) ++ bytes_of_word (h2 s)
  ++ bytes_of_word (h3 s) ++ bytes_of_word (h4 s) ++ bytes_of_word (h5 s)
  ++ bytes_of_word (h6 s) ++ bytes_of_word (h7 s).

End Sha256.

(** ** [src/utils.py]: the stable seed *)
Module Seed.
Import Sha256.
Local Open Scope Z_scope.

(** [s.encode()]: UTF-8, for code points below 256. *)
Fixpoint encode (s : string) : list Z :=
  match s with
  | EmptyString => []
  | String c s' =>
      let n := Z.of_nat (nat_of_ascii c) in
      (if n <? 128 then [n] else [192 + n / 64; 128 + n mod 64]) ++ encode s'
  end.

(** [int.from_bytes(b, 'big')] *)
Definition from_bytes_big (b : list Z) : Z :=
  fold_left (fun acc x => acc * 256 + x) b 0.

(** [get_stable_seed(base_str)] *)
Definition get_stable_seed (base_str : string) : Z :=
  from_bytes_big (firstn 4 (digest (encode base_str))).

End Seed.

(** ** [run_phase1.py]: the condition named on the command line *)
Module RunPhase1.
Import Analyze.
Local Open Scope string_scope.

(** [class Condition(str, Enum)] of [src/config.py]. *)
Inductive Condition : Type :=
| C0_INDEPENDENT
| C1_FULL
| C2_STANCE_ONLY
| C3_ANON_BANDWAGON
| C4_PURE_INFO.

(** [condition.value] *)
Definition condition_value (c : Condition) : string :=
  match c with
  | C0_INDEPENDENT => "C0_INDEPENDENT"
  | C1_FULL => "C1_FULL"
  | C2_STANCE_ONLY => "C2_STANCE_ONLY"
  | C3_ANON_BANDWAGON => "C3_ANON_BANDWAGON"
  | C4_PURE_INFO => "C4_PURE_INFO"
  end.

(** The [choices] of the [--condition] argument and its default. *)
Definition condition_choices : list string := ["C0"; "C1"; "C2"; "C3"; "C4"].
Definition condition_default : string := "C1".

(** The [mapping] of [get_condition]. *)
Definition mapping : list (string * Condition) :=
  [("C0", C0_INDEPENDENT); ("C1", C1_FULL); ("C2", C2_STANCE_ONLY);
   ("C3", C3_ANON_BANDWAGON); ("C4", C4_PURE_INFO)].

(** [get_condition(condition_str)]: a string that is not a key of the
    mapping raises [KeyError]. *)
Definition get_condition (condition_str : string) : outcome Condition :=
  match find (fun kv => String.eqb (fst kv) condition_str) mapping with
  | Some (_, c) => Returns c
  | None => Raises (KeyError condition_str)
  end.

End RunPhase1.

(** ** The notions the further properties are stated with *)
Module Notions.
Import Py Json PyMore Config Utils LlmClient ResumeUtils ClientSetup Display
  Analyze Logging Spec.
Local Open Scope string_scope.

(** *** Setting up the client *)

(** [n] times the character [c]. *)
Fixpoint run_of (c : ascii) (n : nat) : string :=
  match n with
  | O => EmptyString
  | S n' => String c (run_of c n')
  end.

(** The name under which a server lists a model: the entry is an object
    whose name, the empty string when it has none, is a string. *)
Definition listed_name (m : json) : option string :=
  match m with
  | JObj kvs =>
      match obj_get_default "name" (JStr "") kvs with
      | JStr name => Some name
      | _ => None
      end
  | _ => None
  end.

(** A model name without its tag. *)
Definition base_name (name : string) : string := split_head ":" name.

(** A server that lists two models, one entry of the list being a bare
    string in the second answer. *)
Definition tags_answer : json :=
  JObj [("models", JArr [JObj [("name", JStr "llama3:8b")];
                         JObj [("name", JStr "mistral:latest")]])].
Definition tags_answer_malformed : json :=
  JObj [("models", JArr [JObj [("name", JStr "mistral:latest")];
                         JStr "llama3:8b"])].
Definition serves (answer : json) (url : string) (t : Z) : get_outcome :=
  Body answer.

(** *** Calls of the model *)

(** What a failed attempt that is not the last one leaves behind, prints
    apart: the request and the pause after it. *)
Definition failed_attempt (c : OllamaClient) (a : Z) : list event :=
  [Post a; Sleep (retry_delay c * inject_Z (a + 1))%Q].

(** The sum of a list of durations. *)
Definition total (l : list Q) : Q := fold_right Qplus 0%Q l.

(** A backend that fails [k] times with a connection error and then
    answers with [raw]. *)
Definition answers_after (k : Z) (raw : string) (url : string)
    (payload : payload_t) (t a : Z) : transport_outcome :=
  if (a <? k)%Z then Failed (ConnectionError "refused") else Responded raw.

(** A backend that fails [k] times and is then interrupted. *)
Definition interrupted_after (k : Z) (url : string) (payload : payload_t)
    (t a : Z) : transport_outcome :=
  if (a <? k)%Z then Failed Timeout else Interrupted.

(** *** Recovering JSON from a reply *)

(** The character [c] does not occur in [s]. *)
Fixpoint no_char (c : ascii) (s : string) : bool :=
  match s with
  | EmptyString => true
  | String a s' => negb (Ascii.eqb a c) && no_char c s'
  end.

(** [s] is a contiguous part of [text]. *)
Definition part_of (s text : string) : Prop :=
  exists before after, text = before ++ s ++ after.

(** The backtick. *)
Definition backtick : ascii := "`".

(** A reply that wraps its answer in prose and a labelled fence. *)
Definition fenced_reply : string :=
  "Here is my answer:" ++ newline
  ++ "```json" ++ newline ++ dq "{'stance': 'PULL_LEVER'}" ++ newline
  ++ "```" ++ newline ++ "I hope this helps.".

(** A reply that states its answer within a sentence. *)
Definition prose_reply : string :=
  "My answer is " ++ dq "{'stance': 'DO_NOT_PULL'}" ++ " as requested.".

(** *** The entropy of a population *)


Definition lopsided : distribution_t :=
  [("PULL_LEVER", 1%Z); ("DO_NOT_PULL", (2 ^ 1080)%Z)].

(** Eleven stances with one agent each. *)
Definition eleven_equal : distribution_t :=
  map (fun k => (String (ascii_of_nat (65 + k)) EmptyString, 1%Z))
    (seq 0 11).

(** The members of the stance enumeration. *)
Definition all_stances : list Stance :=
  [PULL_LEVER; DO_NOT_PULL; SACRIFICE_DRIVER; PROTECT_DRIVER;
   HARVEST_ORGANS; DO_NOT_HARVEST; SACRIFICE_ONE; ALL_EQUAL;
   ALLOW_TORTURE; FORBID_TORTURE; BLOW_WHISTLE; STAY_SILENT;
   PRIORITIZE_PRIVACY; PRIORITIZE_SECURITY; GRANT_AI_RIGHTS; DENY_AI_RIGHTS;
   WORK_REMOTE; WORK_OFFICE; AGI_IS_TOOL; AGI_IS_AGENT].

(** How many agents hold the stance [s], and how many hold a stance. *)
Definition holders (s : Stance) (agents : list Agent) : Z :=
  Z.of_nat (List.length (filter (holds s) agents)).
Definition decided (agents : list Agent) : Z :=
  Z.of_nat (List.length (filter has_stance agents)).

(** The Shannon entropy, in bits, of the shares of the stances among the
    agents that hold one: the sum over the stances of [- p * log2 p], where
    [p] is the share of the stance. *)
Definition shannon_entropy (agents : list Agent) : R :=
  fold_right
    (fun s r => (entropy_term (decided agents) (holders s agents) + r)%R)
    0%R all_stances.

(** An agent with a given id and stance. *)
Definition agent_holding (name : string) (s : Stance) : Agent :=
  {| id := name; persona := utilitarian; current_stance := Some s;
     current_rationale := None |}.

(** *** The analysis of one experiment *)

(** The event is an object whose type is [t]. *)
Definition is_type (t : string) (e : json) : bool :=
  match e with
  | JObj kvs => py_eq (obj_get "type" kvs) (JStr t)
  | _ => false
  end.

(** The event is an object of a type the analysis does not look at. *)
Definition ignored (e : json) : bool :=
  match e with
  | JObj _ =>
      negb (is_type "config" e || is_type "round_start" e
            || is_type "agent_response" e || is_type "round_end" e)
  | _ => false
  end.

(** The object has the key. *)
Definition has_key (key : string) (e : json) : bool :=
  match e with
  | JObj kvs => match obj_lookup key kvs with Some _ => true | None => false end
  | _ => false
  end.

(** An event the analysis can process: an object, with a round and
    statistics if it starts a round, with statistics and an entropy if it
    ends one. *)
Definition usable (e : json) : bool :=
  match e with
  | JObj _ =>
      (if is_type "config" e then true
       else if is_type "round_start" e
       then has_key "round" e && has_key "stats" e
       else if is_type "agent_response" e then true
       else if is_type "round_end" e
       then has_key "stats" e && has_key "entropy" e
       else true)
  | _ => false
  end.

(** An event that neither starts nor ends a round. *)
Definition within_round (e : json) : bool :=
  usable e && negb (is_type "round_start" e) && negb (is_type "round_end" e).

(** A round as the experiment logs it: what precedes its start, its
    [round_start] event, what lies between, its [round_end] event. *)
Record logged_round : Type := {
  before_start : list json;
  start_event : json;
  between : list json;
  end_event : json
}.

Definition events_of_round (r : logged_round) : list json :=
  before_start r ++ [start_event r] ++ between r ++ [end_event r].

(** The round is complete: a usable [round_start], a usable [round_end],
    and around them only events that neither start nor end a round. *)
Definition complete_round (r : logged_round) : bool :=
  forallb within_round (before_start r)
  && (usable (start_event r) && is_type "round_start" (start_event r))
  && forallb within_round (between r)
  && (usable (end_event r) && is_type "round_end" (end_event r)).

(** What is left of a round that was interrupted: nothing, or events up to
    a [round_start] and events after it, none of which ends the round. *)
Definition interrupted_round (events : list json) : Prop :=
  forallb within_round events = true
  \/ exists before start after,
       events = (before ++ [start] ++ after)%list
       /\ forallb within_round before = true
       /\ usable start = true /\ is_type "round_start" start = true
       /\ forallb within_round after = true.

(** The entropy a [round_end] event carries. *)
Definition logged_entropy (r : logged_round) : json :=
  match end_event r with
  | JObj kvs => obj_get "entropy" kvs
  | _ => JNull
  end.

(** Whether a round is open. *)
Definition is_open (st : loop_state) : bool :=
  match current_round st with
  | Some _ => true
  | None => false
  end.

(** The lines that are not blank. *)
Definition not_blank (line : string) : bool := negb (is_empty (strip line)).

(** What [load_experiment_log] reads from the lines that are not blank. *)
Definition loaded (json_loads : string -> loads_outcome)
    (lines : list string) : list json :=
  flat_map
    (fun line =>
       if not_blank line then
         match json_loads line with
         | Loaded e => [e]
         | _ => []
         end
       else [])
    lines.

(** The line is blank or decodes. *)
Definition loadable (json_loads : string -> loads_outcome) (line : string)
  : bool :=
  negb (not_blank line)
  || match json_loads line with Loaded _ => true | _ => false end.

(** What [json.loads] raises on the first line that is neither blank nor
    decodes. *)
Fixpoint first_failure (json_loads : string -> loads_outcome)
    (lines : list string) : option exc :=
  match lines with
  | [] => None
  | line :: rest =>
      if not_blank line then
        match json_loads line with
        | Loaded _ => first_failure json_loads rest
        | DecodeError => Some JSONDecodeError
        | OtherError e _ => Some (Builtin (error_class e))
        end
      else first_failure json_loads rest
  end.

(** Events for the examples. *)
Definition ev_experiment_start : json :=
  JObj [("type", JStr "experiment_start"); ("experiment_id", JStr "demo")].
Definition ev_round_start (r : Z) : json :=
  JObj [("type", JStr "round_start"); ("round", JInt r);
        ("stats", JObj [("PULL_LEVER", JInt 1); ("DO_NOT_PULL", JInt 1)])].
Definition ev_response (r : Z) (agent stance reason : string)
    (changed : bool) : json :=
  JObj [("type", JStr "agent_response"); ("round", JInt r);
        ("agent_id", JStr agent); ("stance", JStr stance);
        ("rationale", JStr "because"); ("changed", JBool changed);
        ("change_reason", JStr reason); ("parse_success", JBool true)].
Definition ev_round_end (r : Z) (h : float) : json :=
  JObj [("type", JStr "round_end"); ("round", JInt r);
        ("stats", JObj [("PULL_LEVER", JInt 2)]); ("entropy", JFloat h)].
Definition round_zero : logged_round :=
  {| before_start := [ev_experiment_start];
     start_event := ev_round_start 0;
     between := [ev_response 0 "agent_0" "PULL_LEVER" "INITIAL" false;
                 ev_response 0 "agent_1" "PULL_LEVER" "INITIAL" false];
     end_event := ev_round_end 0 0%float |}.
Definition round_one_interrupted : list json :=
  [ev_round_start 1;
   ev_response 1 "agent_0" "DO_NOT_PULL" "INFORMATIONAL" true].

(** How many events of a log have the type [t]. *)
Definition count_type (t : string) (events : list json) : Z :=
  Z.of_nat (List.length (filter (is_type t) events)).

(** *** Logging *)

(** The line feed. *)
Definition line_feed : ascii := ascii_of_nat 10.

(** The text is empty or ends in a line feed: its last line is complete. *)
Fixpoint complete_text (text : string) : bool :=
  match text with
  | EmptyString => true
  | String c EmptyString => Ascii.eqb c line_feed
  | String _ rest => complete_text rest
  end.

Definition complete (file : option string) : bool :=
  match file with
  | Some text => complete_text text
  | None => true
  end.

(** The text and the lines of a file that may be absent. *)
Definition text_of (file : option string) : string :=
  match file with
  | Some text => text
  | None => EmptyString
  end.
Definition lines_of (file : option string) : list string :=
  readlines (text_of file).

(** A call of the logger. *)
Inductive call : Type :=
| Construct (experiment_id : string) (resume : bool)
| LogConfig (config : list (string * json))
| LogRoundStart (round_number : Z) (stats : distribution_t)
| LogAgentResponse (round_number : Z) (agent_id : string)
    (response : list (string * json))
| LogRoundEnd (round_number : Z) (stats : distribution_t) (entropy : float)
| LogExperimentEnd (summary : list (string * json)).

(** A call made at the time [now]. *)
Definition perform (json_dumps json_dumps_indented : json -> string)
    (now : string) (c : call) (fs : files) : files :=
  match c with
  | Construct experiment_id resume =>
      Logging.__init__ json_dumps now experiment_id resume fs
  | LogConfig config => log_config json_dumps now config fs
  | LogRoundStart r stats => log_round_start json_dumps now r stats fs
  | LogAgentResponse r a response =>
      log_agent_response json_dumps now r a response fs
  | LogRoundEnd r stats h => log_round_end json_dumps now r stats h fs
  | LogExperimentEnd summary =>
      log_experiment_end json_dumps json_dumps_indented now summary fs
  end.

(** Calls made one after the other, each at its time. *)
Definition run (json_dumps json_dumps_indented : json -> string)
    (calls : list (string * call)) (fs : files) : files :=
  fold_left
    (fun fs c => perform json_dumps json_dumps_indented (fst c) (snd c) fs)
    calls fs.

(** The event a call is meant to record, if any. *)
Definition recorded_event (now : string) (c : call) : option json :=
  match c with
  | Construct experiment_id resume =>
      if resume then None
      else Some (JObj (experiment_start_event now experiment_id))
  | LogConfig config => Some (JObj (config_event now config))
  | LogRoundStart r stats => Some (JObj (round_start_event now r stats))
  | LogAgentResponse r a response =>
      Some (JObj (agent_response_event now r a response))
  | LogRoundEnd r stats h => Some (JObj (round_end_event now r stats h))
  | LogExperimentEnd summary => Some (JObj (experiment_end_event now summary))
  end.

Definition recorded_events (calls : list (string * call)) : list json :=
  flat_map
    (fun c => match recorded_event (fst c) (snd c) with
              | Some e => [e]
              | None => []
              end)
    calls.

(** The text of an event is one line and reads back as the event. *)
Definition reads_back (json_loads : string -> loads_outcome)
    (json_dumps : json -> string) (e : json) : Prop :=
  no_char line_feed (json_dumps e) = true
  /\ event_of json_loads (json_dumps e ++ newline) = Some e.

(** The answers of a round: for each, the time it is logged at, the agent
    and the response. The calls that log a round. *)
Definition answer : Type := string * string * list (string * json).

Definition round_calls (r : Z) (t_start : string) (stats : distribution_t)
    (answers : list answer) (t_end : string) (end_stats : distribution_t)
    (h : float) : list (string * call) :=
  ((t_start, LogRoundStart r stats)
   :: map (fun a => (fst (fst a), LogAgentResponse r (snd (fst a)) (snd a)))
        answers
   ++ [(t_end, LogRoundEnd r end_stats h)])%list.

(** The last response of the agent [a] among the answers. *)
Fixpoint last_answer (a : string) (answers : list answer)
  : option (list (string * json)) :=
  match answers with
  | [] => None
  | (_, a', response) :: rest =>
      match last_answer a rest with
      | Some x => Some x
      | None => if String.eqb a' a then Some response else None
      end
  end.

(** A round as the experiment logs it. *)
Record round_log : Type := {
  number : Z;
  started : string;
  initial_stats : distribution_t;
  answers_given : list answer;
  ended : string;
  final_stats : distribution_t;
  final_entropy : float
}.

Definition calls_of_round (l : round_log) : list (string * call) :=
  round_calls (number l) (started l) (initial_stats l) (answers_given l)
    (ended l) (final_stats l) (final_entropy l).

(** The calls of a fresh experiment that logs the rounds one after the
    other. *)
Definition experiment_calls (now experiment_id : string)
    (rounds : list round_log) : list (string * call) :=
  (now, Construct experiment_id false) :: flat_map calls_of_round rounds.

(** The text of an event is one line that [json.loads] reads as the
    event. *)
Definition loads_back (json_loads : string -> loads_outcome)
    (json_dumps : json -> string) (e : json) : Prop :=
  no_char line_feed (json_dumps e) = true
  /\ not_blank (json_dumps e ++ newline) = true
  /\ json_loads (json_dumps e ++ newline) = Loaded e.

(** The response does not use a name the logger uses for its own fields. *)
Definition plain_response (response : list (string * json)) : bool :=
  forallb
    (fun kv => negb (String.eqb (fst kv) "type")
               && negb (String.eqb (fst kv) "round")
               && negb (String.eqb (fst kv) "agent_id"))
    response.

(** Compact JSON text for the examples: what [json.loads] reads back,
    without the escapes of control characters other than the line feed and
    with floats written out in full. *)
Fixpoint demo_string (s : string) : string :=
  match s with
  | EmptyString => EmptyString
  | String c s' =>
      (if Ascii.eqb c dquote then String "\" (String dquote EmptyString)
       else if Ascii.eqb c "\" then String "\" (String "\" EmptyString)
       else if Ascii.eqb c line_feed then String "\" (String "n" EmptyString)
       else String c EmptyString) ++ demo_string s'
  end.

Definition demo_float (f : float) : string :=
  match Prim2SF f with
  | S754_zero s => if s then "-0.0" else "0.0"
  | S754_finite s m e =>
      (if s then "-" else "")
      ++ (if (0 <=? e)%Z then str_of_int (Z.pos m * 2 ^ e) ++ ".0"
          else if (Z.pos m mod 2 ^ (- e) =? 0)%Z
          then str_of_int (Z.pos m / 2 ^ (- e)) ++ ".0"
          else str_of_int (Z.pos m * 5 ^ (- e)) ++ "e" ++ str_of_int e)
  | S754_infinity s => if s then "-Infinity" else "Infinity"
  | S754_nan => "NaN"
  end.

Fixpoint demo_dumps (v : json) : string :=
  match v with
  | JNull => "null"
  | JBool b => if b then "true" else "false"
  | JInt z => str_of_int z
  | JFloat f => demo_float f
  | JStr s => String dquote (demo_string s) ++ String dquote EmptyString
  | JArr l =>
      "[" ++ join ", " (map demo_dumps l) ++ "]"
  | JObj kvs =>
      "{"
      ++ join ", "
           (map (fun kv =>
                   String dquote (demo_string (fst kv))
                   ++ String dquote ": " ++ demo_dumps (snd kv)) kvs)
      ++ "}"
  end.

(** An empty pair of files, and two answers of a round. *)
Definition no_files : files := {| log_file := None; summary_file := None |}.
Definition demo_answers : list answer :=
  [("20260114_020545", "agent_0",
    [("stance", JStr "PULL_LEVER"); ("rationale", JStr "Five outweigh one");
     ("changed", JBool false)]);
   ("20260114_020546", "agent_1",
    [("stance", JStr "DO_NOT_PULL"); ("rationale", JStr "Do not kill")])].
Definition demo_round : list (string * call) :=
  round_calls 0 "20260114_020544" [("PULL_LEVER", 1%Z); ("DO_NOT_PULL", 1%Z)]
    demo_answers "20260114_020547"
    [("PULL_LEVER", 1%Z); ("DO_NOT_PULL", 1%Z)] 1%float.
Definition demo_round_log : round_log :=
  {| number := 0; started := "20260114_020544";
     initial_stats := [("PULL_LEVER", 1%Z); ("DO_NOT_PULL", 1%Z)];
     answers_given := demo_answers; ended := "20260114_020547";
     final_stats := [("PULL_LEVER", 1%Z); ("DO_NOT_PULL", 1%Z)];
     final_entropy := 1%float |}.

(** *** The display of statistics *)

(** The order of the displayed items. *)
Definition item_le (a b : string * Z) : Prop := item_leb a b = true.

End Notions.

(* ================================================================== *)
(** * Part II: properties                                              *)
(* ================================================================== *)

(** ** Facts about the built-ins *)
Module PyFacts.
Import Py.

Lemma range_unfold (n : Z) : range n = map Z.of_nat (seq 0 (Z.to_nat n)).
Proof. reflexivity. Qed.

Lemma range_nonpos (n : Z) : (n <= 0)%Z -> range n = [].
Proof.
  intros H. unfold range. replace (Z.to_nat n) with 0%nat by lia. reflexivity.
Qed.

(** [find] over consecutive integers returns the least one that passes. *)
Lemma find_seq_some (f : Z -> bool) (n a : nat) (i : Z) :
  find f (map Z.of_nat (seq a n)) = Some i ->
  (Z.of_nat a <= i < Z.of_nat (a + n))%Z /\ f i = true
  /\ forall j, (Z.of_nat a <= j < i)%Z -> f j = false.
Proof.
  revert a. induction n as [|n IH]; intros a; simpl.
  - discriminate.
  - destruct (f (Z.of_nat a)) eqn:Fa.
    + intros [= <-]. repeat split; try lia. exact Fa.
    + intros H. destruct (IH (S a) H) as (Hr & Hi & Hj).
      repeat split; try lia; [exact Hi|].
      intros j Hjr. destruct (Z.eq_dec j (Z.of_nat a)) as [->|Hne].
      * exact Fa.
      * apply Hj. lia.
Qed.

Lemma find_seq_none (f : Z -> bool) (n a : nat) :
  find f (map Z.of_nat (seq a n)) = None ->
  forall j, (Z.of_nat a <= j < Z.of_nat (a + n))%Z -> f j = false.
Proof.
  revert a. induction n as [|n IH]; intros a; simpl.
  - intros _ j Hj. lia.
  - destruct (f (Z.of_nat a)) eqn:Fa; [discriminate|].
    intros H j Hj. destruct (Z.eq_dec j (Z.of_nat a)) as [->|Hne].
    + exact Fa.
    + apply (IH (S a) H). lia.
Qed.

Lemma find_range_some (f : Z -> bool) (n i : Z) :
  find f (range n) = Some i ->
  (0 <= i < n)%Z /\ f i = true /\ forall j, (0 <= j < i)%Z -> f j = false.
Proof.
  unfold range. intros H. apply find_seq_some in H.
  destruct H as (Hr & Hi & Hj). repeat split; try lia; auto.
Qed.

Lemma find_range_none (f : Z -> bool) (n : Z) :
  find f (range n) = None -> forall j, (0 <= j < n)%Z -> f j = false.
Proof.
  unfold range. intros H j Hj. apply (find_seq_none f _ _ H). lia.
Qed.

(** A window of [m] elements from position [a] that fits in the list. *)
Lemma forallb_window {A} (f : A -> bool) (l : list A) (a m : nat) :
  (a + m <= List.length l)%nat ->
  forallb f (firstn m (skipn a l)) = true <->
  forall k, (a <= k < a + m)%nat ->
    exists x, nth_error l k = Some x /\ f x = true.
Proof.
  revert l m. induction a as [|a IH]; intros l m Hlen.
  - simpl skipn. revert l Hlen. induction m as [|m IHm]; intros l Hlen.
    + simpl. split; [intros _ k Hk; lia | reflexivity].
    + destruct l as [|x l]; [simpl in Hlen; lia|].
      simpl. rewrite andb_true_iff. simpl in Hlen.
      rewrite (IHm l) by lia. split.
      * intros [Hx Hall] [|k] Hk; simpl.
        -- exists x. auto.
        -- apply Hall. lia.
      * intros Hall. split.
        -- destruct (Hall 0%nat) as (y & Hy & Fy); [lia|].
           simpl in Hy. congruence.
        -- intros k Hk. apply (Hall (S k)). lia.
  - destruct l as [|x l]; [simpl in Hlen; lia|].
    simpl skipn. simpl in Hlen. rewrite (IH l m) by lia. split.
    + intros Hall [|k] Hk; [lia|]. simpl. apply Hall. lia.
    + intros Hall k Hk. apply (Hall (S k)). lia.
Qed.

(** The slice the collapse search looks at, for a start inside the list. *)
Lemma slice_window {A} (l : list A) (i w : Z) :
  (0 <= i)%Z -> (0 <= w)%Z -> (i + w <= Z.of_nat (List.length l))%Z ->
  slice l i (i + w) = firstn (Z.to_nat w) (skipn (Z.to_nat i) l).
Proof.
  intros Hi Hw Hfit. unfold slice, clamp_index.
  destruct (Z.ltb_spec i 0); [lia|].
  destruct (Z.ltb_spec (i + w) 0); [lia|].
  rewrite !Z.min_l by lia. f_equal. lia.
Qed.

End PyFacts.

(** ** Collapse detection *)
Module CollapseProps.
Import Py Utils Spec PyFacts.

(** On the range the search visits, the slice test is the full-window test. *)
Lemma slice_below_collapsed (history : list float) (thr : float) (w i : Z) :
  (0 < w)%Z -> (0 <= i)%Z -> (i + w <= Z.of_nat (List.length history))%Z ->
  slice_below history thr w i = true <-> collapsed_from history thr w i.
Proof.
  intros Hw Hi Hfit. unfold slice_below, collapsed_from.
  rewrite slice_window by lia.
  rewrite forallb_window by lia. split.
  - intros Hall. split; [exact Hi|]. intros j Hj.
    apply Hall. lia.
  - intros [_ Hall] k Hk.
    specialize (Hall (Z.of_nat k)). rewrite Nat2Z.id in Hall.
    apply Hall. lia.
Qed.

(** A full window does not start where fewer than [w] rounds remain. *)
Lemma collapsed_from_fits (history : list float) (thr : float) (w i : Z) :
  (0 < w)%Z -> collapsed_from history thr w i ->
  (0 <= i)%Z /\ (i + w <= Z.of_nat (List.length history))%Z.
Proof.
  intros Hw [Hi Hall]. split; [exact Hi|].
  destruct (Hall (i + w - 1)%Z) as (h & Hh & _); [lia|].
  assert (Hlt : (Z.to_nat (i + w - 1) < List.length history)%nat).
  { apply nth_error_Some. congruence. }
  lia.
Qed.

(** C9: a history shorter than the window never collapses, whatever its
    values; in particular [0.1] alone, with threshold 0.469 and window 2,
    yields none. *)
Theorem short_history_never_collapses :
  (forall (history : list float) (thr : float) (w : Z),
      (Z.of_nat (List.length history) < w)%Z ->
      calculate_time_to_collapse history thr w = None)
  /\ calculate_time_to_collapse [0.1%float] default_threshold 2 = None
  /\ forallb (fun h => (h <=? default_threshold)%float) [0.1%float] = true.
Proof.
  split; [|split; reflexivity].
  intros history thr w Hshort. unfold calculate_time_to_collapse.
  destruct history as [|h0 history]; [reflexivity|].
  rewrite range_nonpos by lia. reflexivity.
Qed.

Lemma short_history_never_collapses_witness :
  (Z.of_nat (List.length [0.2%float; 0.1%float]) < 3)%Z
  /\ calculate_time_to_collapse [0.2%float; 0.1%float] 0.469%float 3 = None.
Proof.
  split; [simpl; lia|].
  apply (proj1 short_history_never_collapses). simpl. lia.
Defined.

(** C3, as the code has it: the result is the smallest round index [i] such
    that the window fits in the history ([i + w <= len(history)]) and every
    value of the slice [history[i : i+w]] is at most the threshold, and none
    when there is no such index (for a window of at least one round, or a
    non-empty history); for a window of at least one round these are the
    indices from which entropy stays at or below the threshold for [w]
    consecutive rounds; the history [1.0, 0.9, 0.4, 0.3, 0.2] with threshold
    0.469 and window 2 yields 2. *)
Theorem time_to_collapse_smallest_full_window :
  (forall (history : list float) (thr : float) (w : Z),
      (0 < w)%Z \/ history <> [] ->
      match calculate_time_to_collapse history thr w with
      | Some i =>
          full_window_below history thr w i
          /\ forall j, (0 <= j < i)%Z -> ~ full_window_below history thr w j
      | None => forall i, ~ full_window_below history thr w i
      end)
  /\ (forall (history : list float) (thr : float) (w i : Z),
        (0 < w)%Z ->
        full_window_below history thr w i <-> collapsed_from history thr w i)
  /\ calculate_time_to_collapse
       [1.0; 0.9; 0.4; 0.3; 0.2]%float default_threshold
       default_consecutive_rounds = Some 2%Z.
Proof.
  split; [|split; [|vm_compute; reflexivity]].
  - intros history thr w Hdom. unfold calculate_time_to_collapse.
    destruct history as [|h0 history].
    + destruct Hdom as [Hw|Hne]; [|congruence].
      intros i (Hi & Hfit & _). simpl in Hfit. lia.
    + clear Hdom. set (hist := h0 :: history).
      set (n := Z.of_nat (List.length hist)).
      match goal with
      | |- match find ?f _ with _ => _ end =>
          change f with (slice_below hist thr w)
      end.
      destruct (find (slice_below hist thr w) (range (n - w + 1)))
        as [i|] eqn:Hfind.
      * apply find_range_some in Hfind. destruct Hfind as (Hr & Hi & Hmin).
        split.
        -- unfold full_window_below. fold n. repeat split; try lia. exact Hi.
        -- intros j Hj (_ & _ & Hc). rewrite Hmin in Hc by lia. discriminate.
      * intros i (Hi & Hfit & Hc). fold n in Hfit.
        rewrite (find_range_none _ _ Hfind) in Hc by lia. discriminate.
  - intros history thr w i Hw. unfold full_window_below. split.
    + intros (Hi & Hfit & Hc). apply slice_below_collapsed; assumption.
    + intros Hc. destruct (collapsed_from_fits _ _ _ _ Hw Hc) as [Hi Hfit].
      repeat split; try assumption.
      apply slice_below_collapsed; assumption.
Qed.

Lemma time_to_collapse_smallest_full_window_witness :
  full_window_below [1.0; 0.9; 0.4; 0.3; 0.2]%float 0.469%float 2 2
  /\ collapsed_from [1.0; 0.9; 0.4; 0.3; 0.2]%float 0.469%float 2 2.
Proof.
  pose proof (proj1 time_to_collapse_smallest_full_window
                [1.0; 0.9; 0.4; 0.3; 0.2]%float 0.469%float 2%Z
                ltac:(left; lia)) as H.
  replace (calculate_time_to_collapse
             [1.0; 0.9; 0.4; 0.3; 0.2]%float 0.469%float 2)
    with (Some 2%Z) in H by (vm_compute; reflexivity).
  split; [exact (proj1 H)|].
  apply (proj1 (proj2 time_to_collapse_smallest_full_window)
           [1.0; 0.9; 0.4; 0.3; 0.2]%float 0.469%float 2%Z 2%Z ltac:(lia)).
  exact (proj1 H).
Defined.

(** C3 as stated fails: for the one-round history [0.1], threshold 0.469 and
    window 2, every value of the slice [history[0:2]] is at most the
    threshold, so index 0 is the smallest such index, but the result is
    none. *)
Lemma time_to_collapse_not_smallest_slice :
  ~ smallest_slice_start [0.1%float] default_threshold 2
      (calculate_time_to_collapse [0.1%float] default_threshold 2).
Proof.
  replace (calculate_time_to_collapse [0.1%float] default_threshold 2)
    with (@None Z) by reflexivity.
  simpl. intros H. specialize (H 0%Z ltac:(lia)).
  vm_compute in H. discriminate.
Qed.

End CollapseProps.

(** ** The stance distribution *)
Module DistributionProps.
Import Py Config Utils Spec.
Local Open Scope Z_scope.

Lemma sum_from (l : list Z) (a : Z) : fold_left Z.add l a = a + sum l.
Proof.
  unfold sum. revert a. induction l as [|x l IH]; intros a; simpl.
  - lia.
  - rewrite (IH (a + x)), (IH x). lia.
Qed.

Lemma sum_cons (x : Z) (l : list Z) : sum (x :: l) = x + sum l.
Proof. unfold sum at 1. simpl. apply sum_from. Qed.

Lemma sum_counter_add (k : string) (d : distribution_t) :
  sum (values (counter_add k d)) = sum (values d) + 1.
Proof.
  induction d as [|[k' n] d IH]; simpl.
  - reflexivity.
  - destruct (String.eqb k' k); unfold values in *; simpl;
      rewrite !sum_cons; [|rewrite IH]; lia.
Qed.

Lemma count_of_counter_add (k k0 : string) (d : distribution_t) :
  count_of k0 (counter_add k d)
  = count_of k0 d + (if String.eqb k k0 then 1 else 0).
Proof.
  induction d as [|[k' n] d IH]; simpl.
  - destruct (String.eqb k k0); lia.
  - destruct (String.eqb_spec k' k) as [->|Hne]; simpl.
    + destruct (String.eqb k k0); lia.
    + destruct (String.eqb_spec k' k0) as [->|Hne0].
      * destruct (String.eqb_spec k k0); [congruence|lia].
      * exact IH.
Qed.

Lemma Counter_from (l : list string) (d : distribution_t) :
  sum (values (fold_left (fun d k => counter_add k d) l d))
  = sum (values d) + Z.of_nat (List.length l)
  /\ forall k0,
      count_of k0 (fold_left (fun d k => counter_add k d) l d)
      = count_of k0 d
        + Z.of_nat (List.length (filter (fun k => String.eqb k k0) l)).
Proof.
  revert d. induction l as [|k l IH]; intros d; simpl.
  - split; [|intros k0]; lia.
  - destruct (IH (counter_add k d)) as [Hs Hc]. split.
    + rewrite Hs, sum_counter_add. lia.
    + intros k0. rewrite Hc, count_of_counter_add.
      destruct (String.eqb k k0); simpl; lia.
Qed.

(** Every member of the enumeration is true as a condition. *)
Lemma stance_is_set_has_stance (a : Agent) :
  stance_is_set (current_stance a) = has_stance a.
Proof.
  unfold has_stance. destruct (current_stance a) as [s|]; [|reflexivity].
  destruct s; reflexivity.
Qed.

Lemma current_stances_length (agents : list Agent) :
  List.length (current_stances agents)
  = List.length (filter has_stance agents).
Proof.
  induction agents as [|a agents IH]; [reflexivity|].
  simpl. rewrite length_app, IH, stance_is_set_has_stance.
  unfold has_stance. destruct (current_stance a); reflexivity.
Qed.

Lemma current_stances_count (agents : list Agent) (s : Stance) :
  List.length (filter (fun k => String.eqb k (value s))
                 (current_stances agents))
  = List.length (filter (holds s) agents).
Proof.
  induction agents as [|a agents IH]; [reflexivity|].
  simpl. rewrite filter_app, length_app, IH, stance_is_set_has_stance.
  unfold has_stance, holds.
  destruct (current_stance a) as [s'|]; simpl; [|reflexivity].
  destruct (String.eqb (value s') (value s)); reflexivity.
Qed.

Lemma filter_split_length {A} (f : A -> bool) (l : list A) :
  (List.length (filter f l) + List.length (filter (fun x => negb (f x)) l)
   = List.length l)%nat.
Proof.
  induction l as [|x l IH]; [reflexivity|].
  simpl. destruct (f x); simpl; lia.
Qed.

(** C8: the per-stance counts of the distribution computed from the agent
    population sum to the population size less the agents whose stance is
    unset, which are never counted: each stance is counted once per agent
    that holds it, and the sum is the population size as soon as every
    agent has a stance. *)
Theorem distribution_counts_agents_with_stance (agents : list Agent) :
  sum (values (get_stance_distribution agents))
  = Z.of_nat (List.length agents)
    - Z.of_nat (List.length (filter (fun a => negb (has_stance a)) agents))
  /\ (forall s, count_of (value s) (get_stance_distribution agents)
                = Z.of_nat (List.length (filter (holds s) agents)))
  /\ (forallb has_stance agents = true ->
      sum (values (get_stance_distribution agents))
      = Z.of_nat (List.length agents)).
Proof.
  unfold get_stance_distribution, Counter.
  destruct (Counter_from (current_stances agents) []) as [Hs Hc].
  rewrite current_stances_length in Hs. simpl in Hs.
  pose proof (filter_split_length has_stance agents) as Hsplit.
  split; [rewrite Hs; lia|]. split.
  { intros s. rewrite Hc, current_stances_count. reflexivity. }
  intros Hall. rewrite Hs. do 2 f_equal. clear Hs Hc Hsplit.
  induction agents as [|a agents IH]; [reflexivity|].
  simpl in *. apply andb_true_iff in Hall. destruct Hall as [Ha Hall].
  rewrite Ha. f_equal. apply IH. exact Hall.
Qed.

Lemma distribution_counts_agents_with_stance_witness :
  sum (values (get_stance_distribution [agent_decided; agent_third]))
  = Z.of_nat (List.length [agent_decided; agent_third]).
Proof.
  apply (distribution_counts_agents_with_stance
           [agent_decided; agent_third]).
  reflexivity.
Defined.

(** With one agent decided and one whose stance is still unset, as before
    round 0 completes, only the first is counted. *)
Example distribution_skips_unset_stance :
  get_stance_distribution [agent_decided; agent_undecided]
  = [("PULL_LEVER"%string, 1)].
Proof. reflexivity. Qed.

End DistributionProps.

(** ** Entropy *)
Module EntropyProps.
Import Py Config Utils Spec DistributionProps.
Local Open Scope R_scope.

Lemma ln_le_sub1 (y : R) : 0 < y -> ln y <= y - 1.
Proof.
  intros Hy. pose proof (exp_ineq1_le (y - 1)) as H.
  replace (1 + (y - 1)) with y in H by lra.
  destruct H as [H|H].
  - left. apply exp_lt_inv. rewrite exp_ln by exact Hy. exact H.
  - right. rewrite H at 1. apply ln_exp.
Qed.

Lemma ln2_pos : 0 < ln 2.
Proof. rewrite <- ln_1. apply ln_increasing; lra. Qed.

Lemma ln_neg (p : R) : 0 < p -> p < 1 -> ln p < 0.
Proof. intros Hp Hlt. rewrite <- ln_1. apply ln_increasing; assumption. Qed.

(** The loop of [calculate_entropy] adds up the terms. *)
Lemma entropy_fold (total : Z) (vs : list Z) (acc : R) :
  fold_left
    (fun entropy count =>
       if (0 <? count)%Z then
         let p := IZR count / IZR total in entropy - p * log2 p
       else entropy) vs acc
  = acc + entropy_terms total vs.
Proof.
  revert acc. induction vs as [|c vs IH]; intros acc; simpl.
  - lra.
  - rewrite IH. unfold entropy_term. destruct (0 <? c)%Z; simpl; lra.
Qed.

Lemma calculate_entropy_terms (d : distribution_t) :
  calculate_entropy d
  = if (sum (values d) =? 0)%Z then 0
    else entropy_terms (sum (values d)) (values d).
Proof.
  unfold calculate_entropy. destruct (sum (values d) =? 0)%Z; [reflexivity|].
  rewrite entropy_fold. lra.
Qed.

Section Terms.
Variable total : Z.
Hypothesis total_pos : (0 < total)%Z.

Lemma T_pos : 0 < IZR total.
Proof. apply IZR_lt. exact total_pos. Qed.

Lemma share_bounds (c : Z) :
  (0 < c)%Z -> (c <= total)%Z ->
  0 < IZR c / IZR total <= 1.
Proof.
  pose proof T_pos as HT.
  intros Hc Hle. apply IZR_lt in Hc. apply IZR_le in Hle. split.
  - apply Rdiv_lt_0_compat; assumption.
  - apply Rmult_le_reg_r with (IZR total); [exact HT|].
    unfold Rdiv. rewrite Rmult_assoc, Rinv_l by lra. lra.
Qed.

Lemma entropy_term_nonneg (c : Z) :
  (c <= total)%Z -> 0 <= entropy_term total c.
Proof.
  pose proof T_pos as HT.
  intros Hle. unfold entropy_term.
  destruct (Z.ltb_spec 0 c) as [Hc|Hc]; [|lra].
  destruct (share_bounds c Hc Hle) as [Hp0 Hp1]. cbv zeta.
  set (p := IZR c / IZR total) in *. unfold log2.
  assert (Hln : ln p <= 0).
  { destruct Hp1 as [Hlt|Heq]; [left; apply ln_neg; assumption|].
    rewrite Heq, ln_1. lra. }
  pose proof ln2_pos as H2.
  assert (0 <= p * (- ln p / ln 2)).
  { apply Rmult_le_pos; [lra|]. apply Rmult_le_pos; [lra|].
    left. apply Rinv_0_lt_compat. exact H2. }
  unfold Rdiv in *. lra.
Qed.

Lemma entropy_term_zero (c : Z) :
  (c <= total)%Z ->
  entropy_term total c = 0 <-> ((0 < c)%Z -> c = total).
Proof.
  pose proof T_pos as HT.
  intros Hle. unfold entropy_term.
  destruct (Z.ltb_spec 0 c) as [Hc|Hc]; [|split; [intros _ H; lia|reflexivity]].
  destruct (share_bounds c Hc Hle) as [Hp0 Hp1]. cbv zeta.
  set (p := IZR c / IZR total) in *. unfold log2. pose proof ln2_pos as H2.
  split.
  - intros Hz _. destruct Hp1 as [Hlt|Heq].
    + exfalso. pose proof (ln_neg p Hp0 Hlt) as Hln.
      assert (0 < p * (- ln p / ln 2)).
      { apply Rmult_lt_0_compat; [lra|]. apply Rmult_lt_0_compat; [lra|].
        apply Rinv_0_lt_compat. exact H2. }
      unfold Rdiv in *. lra.
    + apply eq_IZR. unfold p in Heq.
      apply (Rmult_eq_compat_r (IZR total)) in Heq.
      unfold Rdiv in Heq. rewrite Rmult_assoc, Rinv_l in Heq by lra. lra.
  - intros Heq.
    assert (Hp : p = 1) by (unfold p; rewrite (Heq Hc); field; lra).
    rewrite Hp, ln_1. lra.
Qed.

Lemma entropy_terms_nonneg (vs : list Z) :
  Forall (fun c => (c <= total)%Z) vs -> 0 <= entropy_terms total vs.
Proof.
  induction 1 as [|c vs Hc _ IH]; simpl; [lra|].
  pose proof (entropy_term_nonneg c Hc). lra.
Qed.

Lemma entropy_terms_zero (vs : list Z) :
  Forall (fun c => (c <= total)%Z) vs ->
  entropy_terms total vs = 0
  <-> Forall (fun c => (0 < c)%Z -> c = total) vs.
Proof.
  induction 1 as [|c vs Hc Hvs IH]; simpl.
  - split; [constructor|reflexivity].
  - pose proof (entropy_term_nonneg c Hc).
    pose proof (entropy_terms_nonneg vs Hvs). split.
    + intros Hz. constructor.
      * apply entropy_term_zero; [exact Hc|lra].
      * apply IH. lra.
    + intros Hall. inversion Hall as [|? ? H1 H2]; subst.
      apply entropy_term_zero in H1; [|exact Hc]. apply IH in H2. lra.
Qed.

(** Gibbs' inequality, one term at a time: for any [m > 0],
    [- p ln p <= p ln m + 1/m - p]. *)
Lemma entropy_term_bound (c : Z) (m : R) :
  0 < m -> (c <= total)%Z ->
  entropy_term total c * ln 2
  <= if (0 <? c)%Z
     then IZR c / IZR total * ln m + / m - IZR c / IZR total
     else 0.
Proof.
  pose proof T_pos as HT.
  intros Hm Hle. unfold entropy_term.
  destruct (Z.ltb_spec 0 c) as [Hc|Hc]; [|lra].
  destruct (share_bounds c Hc Hle) as [Hp0 Hp1]. cbv zeta.
  set (p := IZR c / IZR total) in *. unfold log2. pose proof ln2_pos as H2.
  replace (- (p * (ln p / ln 2)) * ln 2) with (- (p * ln p)) by (field; lra).
  assert (Hy : 0 < / (m * p)).
  { apply Rinv_0_lt_compat. apply Rmult_lt_0_compat; assumption. }
  pose proof (ln_le_sub1 _ Hy) as Hln.
  rewrite ln_Rinv in Hln by (apply Rmult_lt_0_compat; assumption).
  rewrite ln_mult in Hln by assumption.
  apply (Rmult_le_compat_l p) in Hln; [|lra].
  replace (p * (/ (m * p) - 1)) with (/ m - p) in Hln by (field; lra).
  lra.
Qed.

Lemma entropy_terms_bound (vs : list Z) (m : R) :
  0 < m -> Forall (fun c => (0 <= c <= total)%Z) vs ->
  entropy_terms total vs * ln 2
  <= IZR (sum vs) / IZR total * ln m
     + INR (positive_counts vs) / m - IZR (sum vs) / IZR total.
Proof.
  intros Hm. induction 1 as [|c vs Hc Hvs IH].
  - simpl. unfold sum. simpl. unfold Rdiv. lra.
  - change (entropy_terms total (c :: vs))
      with (entropy_term total c + entropy_terms total vs).
    rewrite sum_cons, plus_IZR.
    pose proof (entropy_term_bound c m Hm ltac:(lia)) as Hterm.
    unfold positive_counts in *. simpl filter.
    destruct (Z.ltb_spec 0 c) as [Hpos|Hnpos].
    + change (List.length (c :: ?l)) with (S (List.length l)).
      rewrite S_INR. unfold Rdiv in *. lra.
    + assert (c = 0%Z) by lia. subst c. unfold Rdiv in *. lra.
Qed.

End Terms.

Lemma sum_nonneg (vs : list Z) :
  Forall (fun c => (0 <= c)%Z) vs ->
  (0 <= sum vs)%Z /\ Forall (fun c => (0 <= c <= sum vs)%Z) vs.
Proof.
  induction 1 as [|c vs Hc Hvs [IH1 IH2]].
  - split; [unfold sum; simpl; lia|constructor].
  - rewrite sum_cons. split; [lia|]. constructor; [lia|].
    eapply Forall_impl; [|exact IH2]. simpl. intros a Ha. lia.
Qed.

Lemma sum_zero_no_positive (vs : list Z) :
  Forall (fun c => (0 <= c)%Z) vs -> sum vs = 0%Z ->
  positive_counts vs = 0%nat.
Proof.
  induction 1 as [|c vs Hc Hvs IH]; [reflexivity|].
  rewrite sum_cons. intros Hs. pose proof (proj1 (sum_nonneg vs Hvs)).
  unfold positive_counts in *. simpl.
  destruct (Z.ltb_spec 0 c); [lia|]. apply IH. lia.
Qed.

Lemma sum_of_totals (total : Z) (vs : list Z) :
  Forall (fun c => (0 <= c)%Z) vs ->
  Forall (fun c => (0 < c)%Z -> c = total) vs ->
  sum vs = (Z.of_nat (positive_counts vs) * total)%Z.
Proof.
  induction 1 as [|c vs Hc Hvs IH]; intros Hall.
  - reflexivity.
  - inversion Hall as [|? ? H1 H2]; subst. rewrite sum_cons, (IH H2).
    unfold positive_counts. simpl.
    destruct (Z.ltb_spec 0 c) as [Hpos|Hnpos]; simpl List.length.
    + rewrite (H1 Hpos) at 1. lia.
    + lia.
Qed.

Lemma no_positive_counts (vs : list Z) :
  positive_counts vs = 0%nat -> Forall (fun c => (c <= 0)%Z) vs.
Proof.
  induction vs as [|a vs IH]; intros Hz; [constructor|].
  unfold positive_counts in *. simpl in Hz.
  destruct (Z.ltb_spec 0 a); simpl in Hz; [lia|].
  constructor; [lia|]. apply IH. exact Hz.
Qed.

Lemma single_positive_is_sum (vs : list Z) :
  Forall (fun c => (0 <= c)%Z) vs -> (positive_counts vs <= 1)%nat ->
  Forall (fun c => (0 < c)%Z -> c = sum vs) vs.
Proof.
  induction 1 as [|c vs Hc Hvs IH]; intros Hone; [constructor|].
  rewrite sum_cons. unfold positive_counts in *. simpl in Hone.
  destruct (Z.ltb_spec 0 c) as [Hpos|Hnpos]; simpl in Hone.
  - assert (Hz : positive_counts vs = 0%nat) by (unfold positive_counts; lia).
    pose proof (no_positive_counts vs Hz) as Hall.
    assert (Hs : sum vs = 0%Z).
    { clear -Hall Hvs. induction Hvs as [|a vs Ha Hvs IH]; [reflexivity|].
      inversion Hall; subst. rewrite sum_cons, IH by assumption. lia. }
    constructor; [lia|].
    eapply Forall_impl; [|exact Hall]. simpl. intros a Ha Hpa. lia.
  - assert (c = 0%Z) by lia. subst c. constructor; [lia|].
    replace (0 + sum vs)%Z with (sum vs) by lia. apply IH. exact Hone.
Qed.

Lemma positive_counts_values (d : distribution_t) :
  counts_nonnegative d -> positive_counts (values d) = nonzero_stances d.
Proof.
  unfold positive_counts, nonzero_stances, values.
  induction 1 as [|[k c] d Hc Hd IH]; [reflexivity|].
  simpl in *. destruct (Z.ltb_spec 0 c), (Z.eqb_spec c 0); simpl; lia.
Qed.

Lemma positive_counts_le_length (vs : list Z) :
  (positive_counts vs <= List.length vs)%nat.
Proof. unfold positive_counts. apply filter_length_le. Qed.

(** The sum of the entropy in exact real arithmetic: for non-negative
    counts it is non-negative; when the distribution has at least one
    stance it is at most log2 of the number of its stances; and it is 0 if
    and only if at most one stance has a nonzero count. The binary64 value
    the interpreter computes is rounded at every step and these bounds are
    not bounds of it. *)
Lemma exact_entropy_bounds (d : distribution_t) :
  counts_nonnegative d ->
  (0 <= calculate_entropy d)%R
  /\ (d <> [] -> (calculate_entropy d <= log2 (INR (List.length d)))%R)
  /\ (calculate_entropy d = 0%R <-> (nonzero_stances d <= 1)%nat).
Proof.
  intros Hnn. rewrite calculate_entropy_terms.
  assert (Hvs : Forall (fun c => (0 <= c)%Z) (values d)).
  { unfold values. apply Forall_map. exact Hnn. }
  destruct (sum_nonneg _ Hvs) as [Hsum Hle].
  rewrite <- (positive_counts_values d Hnn).
  assert (Hlen : List.length (values d) = List.length d)
    by (unfold values; apply length_map).
  pose proof ln2_pos as H2.
  destruct (Z.eqb_spec (sum (values d)) 0) as [Hz|Hnz].
  - rewrite (sum_zero_no_positive _ Hvs Hz). split; [lra|]. split.
    + intros Hne. unfold log2.
      assert (1 <= INR (List.length d))%R.
      { destruct d; [congruence|]. simpl List.length. rewrite S_INR.
        pose proof (pos_INR (List.length d)). lra. }
      assert (0 <= ln (INR (List.length d)))%R.
      { rewrite <- ln_1. destruct H as [H|H].
        - left. apply ln_increasing; lra.
        - rewrite <- H. lra. }
      apply Rmult_le_pos; [lra|]. left. apply Rinv_0_lt_compat. exact H2.
    + split; [lia|reflexivity].
  - set (total := sum (values d)) in *.
    assert (Htot : (0 < total)%Z) by lia.
    assert (Hle' : Forall (fun c => (c <= total)%Z) (values d)).
    { eapply Forall_impl; [|exact Hle]. simpl. intros; lia. }
    split; [apply entropy_terms_nonneg; assumption|]. split.
    + intros _.
      assert (Hpc : (1 <= positive_counts (values d))%nat).
      { destruct (positive_counts (values d)) eqn:E; [|lia].
        assert (Hall : Forall (fun c => (0 < c)%Z -> c = total) (values d)).
        { eapply Forall_impl; [|exact (no_positive_counts _ E)].
          simpl. intros a Ha Hpa. lia. }
        pose proof (sum_of_totals total _ Hvs Hall) as Hs.
        rewrite E in Hs. fold total in Hs. lia. }
      set (m := INR (positive_counts (values d))).
      assert (Hm : (1 <= m)%R).
      { unfold m. replace 1%R with (INR 1) by reflexivity.
        apply le_INR. exact Hpc. }
      pose proof (entropy_terms_bound total Htot (values d) m ltac:(lra) Hle)
        as Hb.
      fold total in Hb. fold m in Hb.
      assert (HT : (0 < IZR total)%R) by (apply IZR_lt; exact Htot).
      replace (IZR total / IZR total)%R with 1%R in Hb by (field; lra).
      replace (m / m)%R with 1%R in Hb by (field; lra).
      assert (Hmn : (ln m <= ln (INR (List.length d)))%R).
      { assert (Hmn : (m <= INR (List.length d))%R).
        { unfold m. apply le_INR. rewrite <- Hlen.
          apply positive_counts_le_length. }
        destruct Hmn as [Hlt|Heq].
        - left. apply ln_increasing; lra.
        - rewrite Heq. lra. }
      unfold log2. apply Rmult_le_reg_r with (ln 2); [exact H2|].
      unfold Rdiv. rewrite Rmult_assoc, Rinv_l by lra. lra.
    + rewrite (entropy_terms_zero total Htot _ Hle'). split.
      * intros Hall. pose proof (sum_of_totals total _ Hvs Hall) as Hs.
        fold total in Hs. nia.
      * intros Hone. apply (single_positive_is_sum _ Hvs Hone).
Qed.

End EntropyProps.

(** ** Entropy in binary64 *)
Module EntropyBinary64Props.
Import Py PyMore Utils Spec Notions Binary64 DistributionProps.
Local Open Scope Z_scope.










Section Consensus.

Variable libm_log2 : float -> float.



Hypothesis log2_at_one : libm_log2 1 = 0%float.


End Consensus.



(** No value at all: a share that underflows to the float 0 makes
    [math.log2] raise, whatever the C library does. *)
Example entropy_of_an_underflowing_share (libm_log2 : float -> float) :
  calculate_entropy libm_log2 lopsided = Raise ValueError.
Proof. vm_compute. reflexivity. Qed.

Lemma share_of_eleven : int_true_div 1 11 = Ok (1 / 11)%float.
Proof. vm_compute. reflexivity. Qed.

(** Rounding: with a C library whose [log2] returns -3.4594316186372973 at
    the float 1/11 (as the GNU C library does), eleven equal counts give
    3.459431618637298, which is above 3.4594316186372973, the float
    [math.log2(11)]. *)
Example entropy_above_log2_of_eleven (libm_log2 : float -> float) :
  libm_log2 (1 / 11)%float = (-3.4594316186372973)%float ->
  calculate_entropy libm_log2 eleven_equal = Ok 3.459431618637298%float
  /\ (3.4594316186372973 <? 3.459431618637298)%float = true.
Proof.
  intros H. split; [|reflexivity].
  unfold calculate_entropy.
  change (sum (values eleven_equal)) with 11%Z.
  change (values eleven_equal) with [1; 1; 1; 1; 1; 1; 1; 1; 1; 1; 1]%Z.
  cbn [Z.eqb entropy_loop Z.ltb Z.compare].
  rewrite share_of_eleven. cbn [bind].
  change (math_log2 libm_log2 (1 / 11)%float)
    with (Ok (libm_log2 (1 / 11)%float)).
  cbn [bind]. rewrite H. vm_compute. reflexivity.
Qed.

End EntropyBinary64Props.


(** ** Peer sampling *)
Module PeerSamplerProps.
Import Py Config Utils Spec.
Local Open Scope string_scope.
Local Open Scope list_scope.

Lemma rotate_perm {A} (n : nat) (l : list A) : Permutation (rotate n l) l.
Proof.
  unfold rotate. rewrite Permutation_app_comm, firstn_skipn. reflexivity.
Qed.

Lemma demo_sample_contract : sample_contract demo_rng demo_sample.
Proof.
  intros A g pop k. unfold demo_sample.
  destruct ((0 <=? k) && (k <=? Z.of_nat (List.length pop)))%Z eqn:E;
    [|reflexivity].
  apply andb_true_iff in E. destruct E as [E1 E2].
  apply Z.leb_le in E1. apply Z.leb_le in E2.
  eexists _, _. split; [reflexivity|]. split.
  - rewrite length_firstn. 
    rewrite (Permutation_length (rotate_perm _ pop)). lia.
  - exists (skipn (Z.to_nat k) (rotate (Z.abs_nat g) pop)).
    rewrite firstn_skipn. apply rotate_perm.
Qed.

Lemma insert_by_id_perm (x : Agent) (l : list Agent) :
  Permutation (insert_by_id x l) (x :: l).
Proof.
  induction l as [|y l IH]; simpl; [reflexivity|].
  destruct (String.leb (id x) (id y)); [reflexivity|].
  rewrite IH. apply perm_swap.
Qed.

Lemma sort_by_id_perm (l : list Agent) : Permutation (sort_by_id l) l.
Proof.
  induction l as [|x l IH]; simpl; [reflexivity|].
  rewrite insert_by_id_perm. constructor. exact IH.
Qed.

Lemma insert_by_id_sorted (x : Agent) (l : list Agent) :
  Sorted id_le l -> Sorted id_le (insert_by_id x l).
Proof.
  induction 1 as [|y l Hl IH Hhd]; simpl.
  - repeat constructor.
  - destruct (String.leb (id x) (id y)) eqn:E.
    + constructor; [constructor; assumption|]. constructor. exact E.
    + constructor; [exact IH|].
      assert (Hyx : id_le y x).
      { unfold id_le. destruct (String.leb_total (id x) (id y)); congruence. }
      destruct l as [|z l]; simpl.
      * constructor. exact Hyx.
      * destruct (String.leb (id x) (id z)); constructor; [exact Hyx|].
        inversion Hhd; assumption.
Qed.

Lemma sort_by_id_sorted (l : list Agent) : Sorted id_le (sort_by_id l).
Proof.
  induction l as [|x l IH]; simpl; [constructor|].
  apply insert_by_id_sorted. exact IH.
Qed.

Lemma peer_state_id (a : Agent) : peer_id (peer_state a) = id a.
Proof. reflexivity. Qed.

Lemma map_peer_state_ids (l : list Agent) :
  map peer_id (map peer_state l) = map id l.
Proof. rewrite map_map. reflexivity. Qed.

Lemma map_peer_state_sorted (l : list Agent) :
  Sorted id_le l -> Sorted peer_id_le (map peer_state l).
Proof.
  induction 1 as [|x l Hl IH Hhd]; simpl; constructor; [exact IH|].
  destruct Hhd; simpl; constructor. assumption.
Qed.

Lemma others_length (cur : string) (agents : list Agent) :
  NoDup (map id agents) -> In cur (map id agents) ->
  S (List.length (others cur agents)) = List.length agents.
Proof.
  unfold others. induction agents as [|a agents IH]; simpl; [tauto|].
  intros Hnd Hin. inversion Hnd as [|? ? Hnotin Hnd']; subst.
  destruct (String.eqb_spec (id a) cur) as [Heq|Hne]; simpl.
  - f_equal. subst cur. clear IH Hin Hnd Hnd'.
    induction agents as [|b agents IH]; [reflexivity|].
    simpl in *. destruct (String.eqb_spec (id b) (id a)) as [Hb|Hb]; simpl.
    + exfalso. apply Hnotin. left. exact Hb.
    + f_equal. apply IH. tauto.
  - f_equal. apply IH; [exact Hnd'|]. destruct Hin; [contradiction|assumption].
Qed.

Lemma others_spec (cur : string) (agents : list Agent) (a : Agent) :
  In a (others cur agents) <-> In a agents /\ id a <> cur.
Proof.
  unfold others. rewrite filter_In, negb_true_iff, String.eqb_neq. tauto.
Qed.

Lemma others_nodup (cur : string) (agents : list Agent) :
  NoDup (map id agents) -> NoDup (map id (others cur agents)).
Proof.
  unfold others. induction agents as [|a agents IH]; simpl; [auto|].
  intros Hnd. inversion Hnd as [|? ? Hnotin Hnd']; subst.
  destruct (negb (String.eqb (id a) cur)); simpl; [|auto].
  constructor; [|auto]. intros Hin. apply Hnotin.
  apply in_map_iff in Hin. destruct Hin as (b & Hb & Hin).
  apply filter_In in Hin. apply in_map_iff. exists b. tauto.
Qed.

Section Seeded.

Variable rng : Type.
Variable Random : Z -> rng.
Variable sample : forall A : Type, rng -> list A -> Z -> result (list A * rng).
Hypothesis sample_ok : sample_contract rng sample.

(** C5: with a seed, [sample_peers] returns the same list whatever the
    state of the process-wide generator, which it leaves untouched; for a
    population with distinct ids that contains the invoking agent and a
    sample size [0 <= k], the list never contains the invoking agent, has
    [min(k, population size - 1)] entries, holds no agent twice, holds only
    other agents of the population, and is sorted by agent id; with
    [k >= population size - 1] it holds every other agent. *)
Theorem sample_peers_seeded (agents : list Agent) (cur : string) (k seed : Z)
    (g1 g2 : rng) :
  NoDup (map id agents) -> In cur (map id agents) -> (0 <= k)%Z ->
  exists peers,
    sample_peers rng Random sample g1 agents cur k (Some seed)
      = (Ok peers, g1)
    /\ sample_peers rng Random sample g2 agents cur k (Some seed)
       = (Ok peers, g2)
    /\ ~ In cur (map peer_id peers)
    /\ Z.of_nat (List.length peers)
       = Z.min k (Z.of_nat (List.length agents) - 1)
    /\ NoDup (map peer_id peers)
    /\ (forall p, In p peers ->
          exists a, In a agents /\ id a <> cur /\ p = peer_state a)
    /\ Sorted peer_id_le peers
    /\ ((Z.of_nat (List.length agents) - 1 <= k)%Z ->
        forall a, In a agents -> id a <> cur -> In (peer_state a) peers).
Proof.
  intros Hnd Hin Hk. unfold sample_peers. fold (others cur agents).
  pose proof (others_length cur agents Hnd Hin) as Hlen.
  set (pool := others cur agents) in *.
  set (size := Z.min k (Z.of_nat (List.length pool))).
  pose proof (sample_ok Agent (Random seed) pool size) as Hc.
  replace ((0 <=? size) && (size <=? Z.of_nat (List.length pool)))%Z
    with true in Hc
    by (symmetry; apply andb_true_iff; split; apply Z.leb_le; lia).
  destruct Hc as (l & g' & Hs & Hl & rest & Hperm).
  rewrite Hs. exists (map peer_state (sort_by_id l)).
  assert (Hsub : forall a, In a l -> In a agents /\ id a <> cur).
  { intros a Ha. apply (others_spec cur agents a). fold pool.
    apply (Permutation_in _ Hperm). apply in_or_app. left. exact Ha. }
  assert (Hndl : NoDup (map id l)).
  { pose proof (others_nodup cur agents Hnd) as Hp. fold pool in Hp.
    apply (Permutation_NoDup (Permutation_map id (Permutation_sym Hperm)))
      in Hp.
    rewrite map_app in Hp. apply NoDup_app_remove_r in Hp. exact Hp. }
  split; [reflexivity|]. split; [reflexivity|].
  rewrite map_peer_state_ids, length_map.
  rewrite (Permutation_length (sort_by_id_perm l)).
  split.
  { intros Hc. apply in_map_iff in Hc. destruct Hc as (a & Ha & Hc).
    apply (Permutation_in _ (sort_by_id_perm l)) in Hc.
    apply Hsub in Hc. tauto. }
  split; [lia|]. split.
  { apply (Permutation_NoDup
             (Permutation_map id (Permutation_sym (sort_by_id_perm l)))).
    exact Hndl. }
  split.
  { intros p Hp. apply in_map_iff in Hp. destruct Hp as (a & <- & Ha).
    apply (Permutation_in _ (sort_by_id_perm l)) in Ha.
    exists a. destruct (Hsub a Ha). auto. }
  split; [apply map_peer_state_sorted, sort_by_id_sorted|].
  intros Hall.
  assert (Hrest : rest = []).
  { pose proof (Permutation_length Hperm) as Hpl.
    rewrite length_app in Hpl. destruct rest; [reflexivity|].
    simpl in Hpl. lia. }
  subst rest. rewrite app_nil_r in Hperm.
  intros a Ha Hne. apply in_map.
  apply (Permutation_in _ (Permutation_sym (sort_by_id_perm l))).
  apply (Permutation_in _ (Permutation_sym Hperm)).
  apply others_spec. auto.
Qed.
End Seeded.

Lemma sample_peers_seeded_witness :
  exists peers,
    sample_peers demo_rng demo_Random demo_sample 7%Z population "agent_1" 5
      (Some 42%Z) = (Ok peers, 7%Z)
    /\ map peer_id peers = ["agent_0"; "agent_2"].
Proof.
  destruct (sample_peers_seeded demo_rng demo_Random demo_sample
              demo_sample_contract population "agent_1" 5 42 7%Z 8%Z)
    as (peers & H1 & _).
  - vm_compute. repeat constructor; simpl; intuition discriminate.
  - vm_compute. auto.
  - lia.
  - exists peers. split; [exact H1|].
    vm_compute in H1. injection H1 as <-. reflexivity.
Defined.

End PeerSamplerProps.

(** ** Retries of the model client *)
Module GenerateProps.
Import Py Json LlmClient Spec PyFacts.
Local Open Scope string_scope.
Local Open Scope list_scope.
Local Open Scope Z_scope.

Section Exhausted.

Variable json_loads : string -> loads_outcome.
Variable requests_post : string -> payload_t -> Z -> Z -> transport_outcome.
Variable self : OllamaClient.
Variable why : Z -> failure.

Hypothesis every_attempt_fails :
  forall url payload t a,
    0 <= a < max_retries self -> requests_post url payload t a = Failed (why a).
Hypothesis delay_nonneg : (0 <= retry_delay self)%Q.

Lemma attempt_loop_exhausted (url : string) (payload : payload_t)
    (m a : nat) (last_error : option string) :
  Z.of_nat (a + m) = max_retries self ->
  exists evs,
    attempt_loop json_loads requests_post self url payload
      (map Z.of_nat (seq a m)) last_error
    = (evs,
       Ok (terminal_failure self
             (match m with
              | O => last_error
              | S _ => Some (describe self (why (max_retries self - 1)))
              end)))
    /\ without_prints evs
       = flat_map (attempt_events self) (map Z.of_nat (seq a m)).
Proof.
  revert a last_error. induction m as [|m IH]; intros a last_error Hn.
  - exists []. split; reflexivity.
  - simpl seq. simpl map. simpl attempt_loop. unfold try_block.
    rewrite every_attempt_fails by lia.
    destruct (IH (S a) (Some (describe self (why (Z.of_nat a))))
                ltac:(lia)) as (evs & Hrun & Hevs).
    rewrite Hrun.
    destruct (Z.ltb_spec (Z.of_nat a) (max_retries self - 1)) as [Hlt|Hge].
    + assert (Hd : Qle_bool 0 (retry_delay self * inject_Z (Z.of_nat a + 1))
                   = true).
      { apply Qle_bool_iff. apply Qmult_le_0_compat; [exact delay_nonneg|].
        unfold Qle. simpl. lia. }
      rewrite Hd. eexists. split.
      * f_equal. f_equal. f_equal.
        destruct m as [|m]; [lia|reflexivity].
      * simpl. unfold attempt_events at 1.
        destruct (Z.ltb_spec (Z.of_nat a) (max_retries self - 1)); [|lia].
        simpl. f_equal. f_equal. exact Hevs.
    + eexists. split.
      * f_equal. f_equal. f_equal.
        destruct m as [|m]; [|lia].
        do 3 f_equal. lia.
      * simpl. unfold attempt_events at 1.
        destruct (Z.ltb_spec (Z.of_nat a) (max_retries self - 1)); [lia|].
        simpl. f_equal. exact Hevs.
Qed.

Lemma posts_app (l1 l2 : list event) : posts (l1 ++ l2) = posts l1 ++ posts l2.
Proof. apply flat_map_app. Qed.

Lemma sleeps_app (l1 l2 : list event) :
  sleeps (l1 ++ l2) = sleeps l1 ++ sleeps l2.
Proof. apply flat_map_app. Qed.

Lemma without_prints_posts (evs : list event) :
  posts (without_prints evs) = posts evs.
Proof.
  induction evs as [|e evs IH]; [reflexivity|].
  destruct e; simpl; try rewrite IH; reflexivity.
Qed.

Lemma without_prints_sleeps (evs : list event) :
  sleeps (without_prints evs) = sleeps evs.
Proof.
  induction evs as [|e evs IH]; [reflexivity|].
  destruct e; simpl; try rewrite IH; reflexivity.
Qed.

Lemma posts_steps (l : list Z) : posts (flat_map (attempt_events self) l) = l.
Proof.
  induction l as [|a l IH]; [reflexivity|].
  change (flat_map (attempt_events self) (a :: l))
    with (attempt_events self a ++ flat_map (attempt_events self) l).
  rewrite posts_app, IH. unfold attempt_events.
  destruct (a <? max_retries self - 1); reflexivity.
Qed.

Lemma sleeps_steps (m a : nat) :
  Z.of_nat (a + m) = max_retries self ->
  sleeps (flat_map (attempt_events self) (map Z.of_nat (seq a m)))
  = map (fun i => (retry_delay self * inject_Z (i + 1))%Q)
        (map Z.of_nat (seq a (m - 1))).
Proof.
  revert a. induction m as [|m IH]; intros a Hn; [reflexivity|].
  change (flat_map (attempt_events self) (map Z.of_nat (seq a (S m))))
    with (attempt_events self (Z.of_nat a)
          ++ flat_map (attempt_events self) (map Z.of_nat (seq (S a) m))).
  rewrite sleeps_app, (IH (S a)) by lia. unfold attempt_events.
  destruct (Z.ltb_spec (Z.of_nat a) (max_retries self - 1)) as [Hlt|Hge].
  - destruct m as [|m]; [lia|]. simpl. rewrite Nat.sub_0_r. reflexivity.
  - destruct m as [|m]; [|lia]. reflexivity.
Qed.


End Exhausted.


(** The precondition on the delay matters: [time.sleep] refuses a negative
    duration, and that exception is raised outside the [try] block. *)
Example generate_negative_delay :
  snd (generate decode always_times_out
         {| base_url := "http://localhost:11434"; model := "llama3";
            timeout := 120; max_retries := 3; retry_delay := (-1) |}
         "Pull the lever?" None 0.2%float 512 None None)
  = Raise ValueError.
Proof. vm_compute. reflexivity. Qed.

End GenerateProps.

(** ** Truncating the log *)
Module TruncateProps.
Import Py Json ResumeUtils Spec.
Local Open Scope string_scope.
Local Open Scope list_scope.

Section Truncate.

Variable json_loads : string -> loads_outcome.

Lemma is_target_round_end_line (target : Z) (line : string) :
  is_target_round_end json_loads target line
  = round_end_line json_loads target line.
Proof.
  unfold is_target_round_end, round_end_line.
  destruct (json_loads line) as [[| | | | | |kvs]| |e msg]; try reflexivity.
  simpl. destruct (py_eq (obj_get "type" kvs) (JStr "round_end")); reflexivity.
Qed.

Lemma keep_through_found (target : Z) (before after : list string)
    (line : string) :
  Forall (fun l => round_end_line json_loads target l = false) before ->
  round_end_line json_loads target line = true ->
  keep_through_round_end json_loads target (before ++ line :: after)
  = (before ++ [line], true).
Proof.
  intros Hb Hl. induction Hb as [|l before Hl0 Hb IH]; simpl.
  - rewrite is_target_round_end_line, Hl. reflexivity.
  - rewrite is_target_round_end_line, Hl0, IH. reflexivity.
Qed.


Lemma first_round_end (target : Z) (lines : list string) :
  existsb (round_end_line json_loads target) lines = true ->
  exists before line after,
    lines = before ++ line :: after
    /\ round_end_line json_loads target line = true
    /\ Forall (fun l => round_end_line json_loads target l = false) before.
Proof.
  induction lines as [|l lines IH]; simpl; [discriminate|].
  destruct (round_end_line json_loads target l) eqn:E; simpl.
  - intros _. exists [], l, lines. repeat split; auto.
  - intros H. destruct (IH H) as (before & line & after & -> & Hl & Hb).
    exists (l :: before), line, after. repeat split; auto.
Qed.


End Truncate.


(** The interrupted log cut back to round 0 keeps its first line only. *)
Example truncate_interrupted_log :
  truncate_log_to_round decode WriteOk (Readable interrupted_log) 0
  = (true, Readable [line_round_end_0]).
Proof. vm_compute. reflexivity. Qed.


End TruncateProps.

(** ** Replaying the log *)
Module ResumeProps.
Import Py Json ResumeUtils Spec.
Local Open Scope string_scope.
Local Open Scope list_scope.
Local Open Scope Z_scope.

Section SkipInvalid.

Variable json_loads : string -> loads_outcome.

Lemma process_line_invalid (i : Z) (line : string) (st : scan_state) :
  valid_json_line json_loads line = false ->
  fails_to_load json_loads line = false ->
  process_line json_loads i line st = Ok st.
Proof.
  unfold valid_json_line, fails_to_load, process_line. intros H H'.
  destruct (is_empty (strip line)); [reflexivity|].
  destruct (json_loads (strip line)); [discriminate|reflexivity|discriminate].
Qed.

(** A line on which [json.loads] raises another exception ends the loop. *)
Lemma process_line_fails (i : Z) (line : string) (st : scan_state) :
  fails_to_load json_loads line = true ->
  exists e, process_line json_loads i line st = Raise e.
Proof.
  unfold fails_to_load, process_line.
  destruct (is_empty (strip line)); [discriminate|].
  destruct (json_loads (strip line)) as [v| |e msg]; try discriminate.
  intros _. exists (error_class e). reflexivity.
Qed.

Lemma scan_lines_fails (lines : list string) :
  forall (idx : list Z) (st : scan_state),
    List.length idx = List.length lines ->
    existsb (fails_to_load json_loads) lines = true ->
    exists e, scan_lines json_loads (combine idx lines) st = Raise e.
Proof.
  induction lines as [|line lines IH]; intros idx st Hi Hex;
    [discriminate|].
  destruct idx as [|i idx]; [discriminate|]. simpl in Hi.
  simpl combine. simpl scan_lines. simpl existsb in Hex.
  destruct (fails_to_load json_loads line) eqn:E.
  - destruct (process_line_fails i line st E) as [e ->]. exists e.
    reflexivity.
  - destruct (process_line json_loads i line st) as [st'|e];
      [|exists e; reflexivity].
    simpl bind. apply IH; [lia|exact Hex].
Qed.

Lemma process_line_same (i j : Z) (line : string) (st st' : scan_state) :
  same_replay st st' ->
  same_outcome (process_line json_loads i line st)
               (process_line json_loads j line st').
Proof.
  intros (H1 & H2 & H3). unfold process_line.
  destruct st as [l1 x1 r1 c1], st' as [l2 x2 r2 c2]. simpl in *. subst.
  destruct (is_empty (strip line)); [constructor; repeat split|].
  destruct (json_loads (strip line)) as [data| |e msg];
    [|constructor; repeat split|constructor].
  destruct (py_get data "type") as [event_type|e]; simpl; [|constructor].
  destruct (py_eq event_type (JStr "agent_response")).
  - destruct (py_get data "round") as [r_num|e]; simpl; [|constructor].
    destruct (py_get data "agent_id") as [a_id|e]; simpl; [|constructor].
    destruct (negb (hashable r_num)); [constructor|].
    destruct (py_get data "stance") as [sv|e]; simpl; [|constructor].
    destruct (py_get data "rationale") as [rv|e]; simpl; [|constructor].
    destruct (negb (hashable a_id)); constructor. repeat split.
  - destruct (py_eq event_type (JStr "round_end")).
    + destruct (py_get data "round") as [r_num|e]; simpl; [|constructor].
      destruct (negb (hashable r_num)); [constructor|].
      destruct (py_gt r_num l2) as [[|]|e]; simpl; constructor; repeat split.
    + constructor. repeat split.
Qed.

Lemma scan_lines_same (lines : list string) :
  forall (idx idx' : list Z) (st st' : scan_state),
    List.length idx = List.length lines ->
    List.length idx'
    = List.length (filter (valid_json_line json_loads) lines) ->
    existsb (fails_to_load json_loads) lines = false ->
    same_replay st st' ->
    same_outcome
      (scan_lines json_loads (combine idx lines) st)
      (scan_lines json_loads
         (combine idx' (filter (valid_json_line json_loads) lines)) st').
Proof.
  induction lines as [|line lines IH]; intros idx idx' st st' Hi Hi' Hc Hst.
  - destruct idx; [|discriminate]. destruct idx'; [|discriminate].
    simpl. constructor. exact Hst.
  - destruct idx as [|i idx]; [discriminate|]. simpl in Hi. simpl combine.
    simpl scan_lines. simpl filter in *. simpl existsb in Hc.
    apply orb_false_iff in Hc. destruct Hc as [Hc1 Hc].
    destruct (valid_json_line json_loads line) eqn:E.
    + destruct idx' as [|j idx']; [discriminate|]. simpl in Hi'.
      simpl combine. simpl scan_lines.
      destruct (process_line_same i j line st st' Hst) as [s s' Hs|e]; simpl.
      * apply IH; [lia|lia|exact Hc|exact Hs].
      * constructor.
    + rewrite process_line_invalid by assumption. simpl.
      apply IH; [lia|exact Hi'|exact Hc|exact Hst].
Qed.

Lemma enumerate_length {A} (l : list A) :
  List.length (range (Z.of_nat (List.length l))) = List.length l.
Proof. unfold range. rewrite length_map, length_seq. lia. Qed.

(** C10, as the code has it: on a log none of whose lines makes
    [json.loads] raise anything but [JSONDecodeError], a line whose stripped
    text is not valid JSON is skipped without touching the replay's state,
    and the result is the result on the valid JSON lines alone; a line on
    which [json.loads] raises another exception makes the replay give up
    and return none with an empty table. *)
Theorem find_last_complete_round_skips_invalid_lines (lines : list string) :
  (existsb (fails_to_load json_loads) lines = false ->
   find_last_complete_round json_loads (Readable lines)
   = find_last_complete_round json_loads
       (Readable (filter (valid_json_line json_loads) lines)))
  /\ (existsb (fails_to_load json_loads) lines = true ->
      find_last_complete_round json_loads (Readable lines) = (None, []))
  /\ (forall i line st,
        valid_json_line json_loads line = false ->
        fails_to_load json_loads line = false ->
        process_line json_loads i line st = Ok st).
Proof.
  split; [|split; [|intros; apply process_line_invalid; assumption]].
  - intros Hc. unfold find_last_complete_round, enumerate.
    pose proof (scan_lines_same lines
                  (range (Z.of_nat (List.length lines)))
                  (range (Z.of_nat (List.length
                     (filter (valid_json_line json_loads) lines))))
                  initial_state initial_state
                  (enumerate_length _) (enumerate_length _) Hc
                  (conj eq_refl (conj eq_refl eq_refl))) as H.
    destruct H as [st st' (H1 & H2 & H3)|e]; [|reflexivity].
    rewrite H1, H2. reflexivity.
  - intros Hex. unfold find_last_complete_round, enumerate.
    destruct (scan_lines_fails lines _ initial_state (enumerate_length _)
                Hex) as [e ->].
    reflexivity.
Qed.

End SkipInvalid.

Lemma find_last_complete_round_skips_invalid_lines_witness :
  find_last_complete_round decode (Readable interrupted_log)
  = find_last_complete_round decode
      (Readable [line_round_end_0; line_round_start_1; line_response_1])
  /\ find_last_complete_round decode (Readable garbled_log) = (None, [])
  /\ process_line decode 3 line_partial initial_state = Ok initial_state.
Proof.
  destruct (find_last_complete_round_skips_invalid_lines decode
              interrupted_log) as (Hskip & _ & Hstep).
  destruct (find_last_complete_round_skips_invalid_lines decode
              garbled_log) as (_ & Hfail & _).
  split; [|split].
  - apply Hskip. vm_compute. reflexivity.
  - apply Hfail. vm_compute. reflexivity.
  - apply Hstep; vm_compute; reflexivity.
Defined.

(** C10 as stated fails: two thousand opening brackets are not valid JSON,
    [json.loads] raises [RecursionError] on them, and the replay of a log
    that holds such a line after the [round_end] of round 0 returns none,
    where the valid JSON lines alone give round 0. *)
Lemma garbled_line_fails_the_replay :
  valid_json_line decode line_garbled = false
  /\ decode (strip line_garbled)
     = OtherError NestingTooDeep (too_deep "array")
  /\ find_last_complete_round decode (Readable garbled_log) = (None, [])
  /\ find_last_complete_round decode
       (Readable (filter (valid_json_line decode) garbled_log))
     = (Some (JInt 0), []).
Proof. repeat split; vm_compute; reflexivity. Qed.

(** The interrupted log: its partial last line does not change the result. *)
Example resume_interrupted_log :
  find_last_complete_round decode (Readable interrupted_log)
  = (Some (JInt 0), []).
Proof. vm_compute. reflexivity. Qed.

Lemma py_eq_int (x y : Z) : py_eq (JInt x) (JInt y) = (x =? y)%Z.
Proof.
  unfold py_eq. simpl. rewrite !Z.mul_1_r.
  destruct (Z.compare_spec x y) as [H|H|H].
  - symmetry. apply Z.eqb_eq. exact H.
  - symmetry. apply Z.eqb_neq. lia.
  - symmetry. apply Z.eqb_neq. lia.
Qed.

Lemma py_eq_str (x y : string) : py_eq (JStr x) (JStr y) = String.eqb x y.
Proof. reflexivity. Qed.

Lemma py_gt_int (x y : Z) : py_gt (JInt x) (JInt y) = Ok (y <? x)%Z.
Proof.
  unfold py_gt. simpl. rewrite !Z.mul_1_r. f_equal.
  destruct (Z.compare_spec x y) as [H|H|H]; symmetry.
  - apply Z.ltb_ge. lia.
  - apply Z.ltb_ge. lia.
  - apply Z.ltb_lt. lia.
Qed.

Lemma dict_get_upsert_int {V} (d : pydict V) (r r0 : Z) (f : option V -> V) :
  int_keyed d ->
  dict_get (JInt r) (dict_upsert (JInt r0) f d)
  = if (r0 =? r)%Z then Some (f (dict_get (JInt r0) d))
    else dict_get (JInt r) d.
Proof.
  induction 1 as [|[k v] d [z Hk] Hd IH]; simpl in *.
  - rewrite py_eq_int. reflexivity.
  - subst k. rewrite !py_eq_int.
    destruct (Z.eqb_spec z r0) as [->|Hne]; simpl.
    + rewrite py_eq_int. destruct (Z.eqb_spec r0 r); reflexivity.
    + rewrite py_eq_int, IH.
      destruct (Z.eqb_spec z r) as [->|Hne'].
      * destruct (Z.eqb_spec r0 r); [congruence|reflexivity].
      * reflexivity.
Qed.

Lemma dict_get_set_str {V} (d : pydict V) (a a0 : string) (v : V) :
  str_keyed d ->
  dict_get (JStr a) (dict_set (JStr a0) v d)
  = if String.eqb a0 a then Some v else dict_get (JStr a) d.
Proof.
  unfold dict_set.
  induction 1 as [|[k w] d [z Hk] Hd IH]; simpl in *.
  - reflexivity.
  - subst k. rewrite !py_eq_str.
    destruct (String.eqb_spec z a0) as [->|Hne]; simpl.
    + rewrite py_eq_str. destruct (String.eqb_spec a0 a); reflexivity.
    + rewrite py_eq_str, IH.
      destruct (String.eqb_spec z a) as [->|Hne'].
      * destruct (String.eqb_spec a0 a); [congruence|reflexivity].
      * reflexivity.
Qed.

Lemma int_keyed_upsert {V} (d : pydict V) (r0 : Z) (f : option V -> V) :
  int_keyed d -> int_keyed (dict_upsert (JInt r0) f d).
Proof.
  induction 1 as [|[k v] d Hk Hd IH]; simpl.
  - repeat constructor. exists r0. reflexivity.
  - destruct (py_eq k (JInt r0)); constructor; auto.
Qed.

Lemma str_keyed_set {V} (d : pydict V) (a0 : string) (v : V) :
  str_keyed d -> str_keyed (dict_set (JStr a0) v d).
Proof.
  unfold dict_set. induction 1 as [|[k w] d Hk Hd IH]; simpl.
  - repeat constructor. exists a0. reflexivity.
  - destruct (py_eq k (JStr a0)); constructor; auto.
Qed.

Lemma well_keyed_get (rr : pydict (pydict agent_state)) (k : json)
    (d : pydict agent_state) :
  well_keyed rr -> dict_get k rr = Some d -> str_keyed d.
Proof.
  intros [_ H]. induction H as [|[k' v] rr Hv Hrr IH]; simpl; [discriminate|].
  destruct (py_eq k' k); [intros [= <-]; exact Hv|exact IH].
Qed.

Lemma well_keyed_upsert (rr : pydict (pydict agent_state)) (r0 : Z)
    (a0 : string) (s : agent_state) :
  well_keyed rr ->
  well_keyed
    (dict_upsert (JInt r0)
       (fun old => dict_set (JStr a0) s
                     (match old with Some d => d | None => [] end)) rr).
Proof.
  intros [Hi Hs]. split; [apply int_keyed_upsert; exact Hi|].
  clear Hi. induction Hs as [|[k v] rr Hv Hrr IH]; simpl.
  - repeat constructor. simpl. exists a0. reflexivity.
  - destruct (py_eq k (JInt r0)); constructor; simpl; auto.
    apply str_keyed_set. exact Hv.
Qed.

Lemma recorded_upsert (rr : pydict (pydict agent_state)) (r r0 : Z)
    (a a0 : string) (s : agent_state) :
  well_keyed rr ->
  recorded
    (dict_upsert (JInt r0)
       (fun old => dict_set (JStr a0) s
                     (match old with Some d => d | None => [] end)) rr) r a
  = if (r0 =? r)%Z && String.eqb a0 a then Some s else recorded rr r a.
Proof.
  intros Hwk. unfold recorded. rewrite dict_get_upsert_int by apply Hwk.
  destruct (Z.eqb_spec r0 r) as [->|Hne]; simpl; [|reflexivity].
  destruct (dict_get (JInt r) rr) as [d|] eqn:E.
  - apply dict_get_set_str. eapply well_keyed_get; eauto.
  - rewrite dict_get_set_str by constructor. reflexivity.
Qed.

Lemma py_eq_to_str (t : json) (s : string) :
  py_eq t (JStr s) = match t with JStr x => String.eqb x s | _ => false end.
Proof. destruct t; reflexivity. Qed.

Lemma fold_max_spec (l : list Z) (m : Z) :
  m <= fold_left Z.max l m
  /\ (forall r, In r l -> r <= fold_left Z.max l m)
  /\ (fold_left Z.max l m = m \/ In (fold_left Z.max l m) l).
Proof.
  revert m. induction l as [|x l IH]; intros m; simpl.
  - split; [lia|]. split; [tauto|]. left. reflexivity.
  - destruct (IH (Z.max m x)) as (H1 & H2 & H3). split; [lia|]. split.
    + intros r [<-|Hr]; [lia|]. apply H2. exact Hr.
    + destruct H3 as [H3|H3]; [|right; right; exact H3].
      rewrite H3. destruct (Z.max_spec m x) as [[_ ->]|[_ ->]]; auto.
Qed.

Section Replay.

Variable json_loads : string -> loads_outcome.

(** One step of the replay on a line that records no event. *)
Lemma process_line_no_event (i : Z) (line : string) (st : scan_state) :
  event_of json_loads line = None ->
  fails_to_load json_loads line = false ->
  process_line json_loads i line st = Ok st.
Proof.
  unfold event_of, fails_to_load, process_line.
  destruct (is_empty (strip line)); [reflexivity|].
  destruct (json_loads (strip line)); [discriminate|reflexivity|discriminate].
Qed.

(** One step of the replay on a line that records a well-formed event. *)
Lemma process_line_event (i : Z) (line : string) (st : scan_state)
    (e : json) (m : Z) :
  event_of json_loads line = Some e ->
  well_formed_event e = true ->
  last_complete_round st = JInt m ->
  well_keyed (round_responses st) ->
  exists st',
    process_line json_loads i line st = Ok st'
    /\ last_complete_round st'
       = JInt (match round_end_of e with
               | Some r => Z.max m r
               | None => m
               end)
    /\ well_keyed (round_responses st')
    /\ forall r a,
        recorded (round_responses st') r a
        = match response_of e with
          | Some (r', a', s) =>
              if (r' =? r) && String.eqb a' a then Some s
              else recorded (round_responses st) r a
          | None => recorded (round_responses st) r a
          end.
Proof.
  unfold event_of, process_line. intros He Hwf Hlast Hwk.
  destruct (is_empty (strip line)); [discriminate|].
  destruct (json_loads (strip line)) as [v| |]; try discriminate.
  injection He as ->.
  destruct e as [| | | | | |kvs]; try discriminate.
  unfold well_formed_event in Hwf. unfold round_end_of, response_of.
  simpl py_get. simpl bind. rewrite !py_eq_to_str.
  destruct (obj_get "type" kvs) as [| | | |t| |];
    try (exists st; split; [reflexivity|]; split; [assumption|];
         split; [assumption|]; reflexivity).
  destruct (String.eqb t "round_end") eqn:E1.
  - apply String.eqb_eq in E1. subst t. simpl.
    destruct (obj_get "round" kvs) as [| |r| | | |]; try discriminate.
    simpl. rewrite Hlast, py_gt_int. simpl.
    destruct (obj_get "agent_id" kvs);
      (destruct (Z.ltb_spec m r) as [Hlt|Hge]; eexists;
       (split; [reflexivity|]); simpl;
       (split; [f_equal; lia|]); split; auto).
  - destruct (String.eqb t "agent_response") eqn:E2.
    + destruct (obj_get "round" kvs) as [| |r| | | |]; try discriminate.
      destruct (obj_get "agent_id" kvs) as [| | | |a| |]; try discriminate.
      simpl. eexists. split; [reflexivity|]. simpl.
      split; [exact Hlast|]. split.
      * apply well_keyed_upsert. exact Hwk.
      * intros r0 a0. apply recorded_upsert. exact Hwk.
    + destruct (obj_get "round" kvs), (obj_get "agent_id" kvs);
        exists st; (split; [reflexivity|]); (split; [assumption|]);
        (split; [assumption|]); reflexivity.
Qed.

Lemma scan_lines_well_formed (lines : list string) :
  forall (idx : list Z) (st : scan_state) (m : Z),
    List.length idx = List.length lines ->
    existsb (fails_to_load json_loads) lines = false ->
    forallb well_formed_event (events json_loads lines) = true ->
    last_complete_round st = JInt m ->
    well_keyed (round_responses st) ->
    exists st',
      scan_lines json_loads (combine idx lines) st = Ok st'
      /\ last_complete_round st'
         = JInt (fold_left Z.max
                   (completed_rounds (events json_loads lines)) m)
      /\ well_keyed (round_responses st')
      /\ forall r a,
          recorded (round_responses st') r a
          = match last_response (events json_loads lines) r a with
            | Some s => Some s
            | None => recorded (round_responses st) r a
            end.
Proof.
  induction lines as [|line lines IH]; intros idx st m Hi Hc Hwf Hlast Hwk.
  - destruct idx; [|discriminate]. exists st. simpl. auto.
  - destruct idx as [|i idx]; [discriminate|]. simpl in Hi.
    simpl existsb in Hc. apply orb_false_iff in Hc. destruct Hc as [Hc1 Hc].
    simpl combine. simpl scan_lines. unfold events in *. simpl flat_map in *.
    fold (events json_loads lines) in *.
    destruct (event_of json_loads line) as [e|] eqn:He.
    + simpl app in *. simpl forallb in Hwf.
      apply andb_true_iff in Hwf. destruct Hwf as [Hwe Hwf].
      destruct (process_line_event i line st e m He Hwe Hlast Hwk)
        as (st1 & Hstep & Hlast1 & Hwk1 & Hrec1).
      rewrite Hstep. simpl bind.
      destruct (IH idx st1 _ ltac:(lia) Hc Hwf Hlast1 Hwk1)
        as (st' & Hrun & Hlast' & Hwk' & Hrec').
      exists st'. split; [exact Hrun|]. split.
      * rewrite Hlast'. unfold completed_rounds. simpl flat_map.
        destruct (round_end_of e); reflexivity.
      * split; [exact Hwk'|]. intros r a. rewrite Hrec', Hrec1. simpl.
        destruct (last_response (events json_loads lines) r a);
          [reflexivity|].
        destruct (response_of e) as [[[r' a'] s]|]; [|reflexivity].
        destruct ((r' =? r) && String.eqb a' a); reflexivity.
    + rewrite process_line_no_event by assumption. simpl bind.
      simpl app in *. apply IH; auto; lia.
Qed.



End Replay.


(** The schema matters: a [round_end] event without a round number makes
    the comparison of rounds raise, and the replay then reports no complete
    round at all. *)
Example replay_of_malformed_round_end :
  find_last_complete_round decode
    (Readable [line_round_end_0;
               (dq "{'type': 'round_end'}" ++ newline)%string])
  = (None, []).
Proof. vm_compute. reflexivity. Qed.

End ResumeProps.

(** ** Extracting JSON from a response *)
Module ExtractionProps.
Import Py Json LlmClient Spec.
Local Open Scope string_scope.

(** *** Facts about stripping *)

Lemma lstrip_idem (s : string) : lstrip (lstrip s) = lstrip s.
Proof.
  induction s as [|c s IH]; simpl; [reflexivity|].
  destruct (is_space c) eqn:E; [exact IH|]. simpl. rewrite E. reflexivity.
Qed.

Lemma lstrip_space (c : ascii) (s : string) :
  is_space c = true -> lstrip (String c s) = lstrip s.
Proof. intros H. simpl. rewrite H. reflexivity. Qed.

Lemma lstrip_nonspace (c : ascii) (s : string) :
  is_space c = false -> lstrip (String c s) = String c s.
Proof. intros H. simpl. rewrite H. reflexivity. Qed.

Lemma rstrip_cons (c : ascii) (s : string) :
  rstrip (String c s)
  = match rstrip s with
    | EmptyString => if is_space c then EmptyString else String c EmptyString
    | r => String c r
    end.
Proof. reflexivity. Qed.

Lemma lstrip_rstrip (s : string) : lstrip (rstrip s) = rstrip (lstrip s).
Proof.
  induction s as [|c s IH]; [reflexivity|].
  rewrite rstrip_cons. destruct (is_space c) eqn:E.
  - rewrite lstrip_space by exact E. rewrite <- IH.
    destruct (rstrip s); [reflexivity|]. apply lstrip_space. exact E.
  - rewrite (lstrip_nonspace c s) by exact E. rewrite rstrip_cons.
    destruct (rstrip s); rewrite ?E; apply lstrip_nonspace; exact E.
Qed.

Lemma rstrip_idem (s : string) : rstrip (rstrip s) = rstrip s.
Proof.
  induction s as [|c s IH]; [reflexivity|].
  rewrite rstrip_cons. destruct (rstrip s) as [|a r] eqn:E.
  - destruct (is_space c) eqn:Ec; [reflexivity|].
    rewrite rstrip_cons. simpl. rewrite Ec. reflexivity.
  - rewrite rstrip_cons, IH. reflexivity.
Qed.

Lemma strip_lstrip (s : string) : strip (lstrip s) = strip s.
Proof. unfold strip. rewrite lstrip_idem. reflexivity. Qed.

Lemma strip_rstrip (s : string) : strip (rstrip s) = strip s.
Proof. unfold strip. rewrite lstrip_rstrip, rstrip_idem. reflexivity. Qed.

Lemma strip_space (c : ascii) (s : string) :
  is_space c = true -> strip (String c s) = strip s.
Proof. intros H. unfold strip. rewrite lstrip_space by exact H. reflexivity. Qed.

Lemma strip_prefix_cons (a b : ascii) (p s : string) :
  Re.strip_prefix (String a p) (String b s)
  = if Ascii.eqb a b then Re.strip_prefix p s else None.
Proof. reflexivity. Qed.

(** A fence does not start with whitespace. *)
Lemma fence_not_at_space (c : ascii) (s : string) :
  is_space c = true -> Re.strip_prefix fence (String c s) = None.
Proof.
  intros H. unfold fence. rewrite strip_prefix_cons.
  destruct (Ascii.eqb_spec "`" c) as [<-|Hne]; [discriminate|reflexivity].
Qed.

Lemma fence_at_nonspace (s t : string) :
  Re.strip_prefix fence s = Some t -> lstrip s = s.
Proof.
  destruct s as [|c s]; [reflexivity|]. intros H.
  destruct (is_space c) eqn:E.
  - rewrite fence_not_at_space in H by exact E. discriminate.
  - apply lstrip_nonspace. exact E.
Qed.

Lemma consumed_all (s : string) : Re.consumed s s = EmptyString.
Proof.
  unfold Re.consumed. rewrite Nat.sub_diag. destruct s; reflexivity.
Qed.

Lemma consumed_cons (c : ascii) (s u : string) :
  (String.length u <= String.length s)%nat ->
  Re.consumed (String c s) u = String c (Re.consumed s u).
Proof.
  intros H. unfold Re.consumed. simpl String.length.
  replace (S (String.length s) - String.length u)%nat
    with (S (String.length s - String.length u)) by lia.
  reflexivity.
Qed.

Lemma group_end_length (v u : string) :
  group_end v = Some u -> (String.length u <= String.length v)%nat.
Proof.
  revert u. induction v as [|c v IH]; intros u; simpl.
  - destruct (close_at EmptyString); [intros [= <-]; simpl; lia|discriminate].
  - destruct (close_at (String c v)); [intros [= <-]; simpl; lia|].
    intros H. apply IH in H. lia.
Qed.

(** *** The fenced patterns *)

(** A greedy run of whitespace gives back nothing when what follows can
    only match after all of it. *)
Lemma star_greedy_space {R} (k : string -> option R) (s : string) :
  (forall x, k (lstrip x) = None -> k x = None) ->
  Re.star_greedy is_space k s = k (lstrip s).
Proof.
  intros Hk. induction s as [|c s IH]; [reflexivity|].
  simpl Re.star_greedy. destruct (is_space c) eqn:E.
  - rewrite lstrip_space by exact E. rewrite IH.
    destruct (k (lstrip s)) eqn:Ek; [reflexivity|].
    apply Hk. rewrite lstrip_space by exact E. exact Ek.
  - rewrite lstrip_nonspace by exact E. reflexivity.
Qed.

Lemma close_at_lstrip (u : string) : close_at (lstrip u) = close_at u.
Proof. unfold close_at. rewrite lstrip_idem. reflexivity. Qed.

(** The closing part of a fenced pattern: whitespace, then the fence. *)
Lemma match_closing (u g : string) :
  Re.match_here [Re.Star true is_space false; Re.Lit fence] u g
  = option_map (pair g) (close_at u).
Proof.
  cbn [Re.match_here]. rewrite star_greedy_space.
  - unfold close_at.
    destruct (Re.strip_prefix fence (lstrip u)); reflexivity.
  - intros x. destruct x as [|c x]; [auto|].
    destruct (is_space c) eqn:E.
    + intros _. rewrite fence_not_at_space by exact E. reflexivity.
    + rewrite lstrip_nonspace by exact E. auto.
Qed.

Lemma star_lazy_ext {R} (cls : ascii -> bool) (k k' : string -> option R)
    (v : string) :
  (forall u, k u = k' u) -> Re.star_lazy cls k v = Re.star_lazy cls k' v.
Proof.
  intros H. induction v as [|c v IH]; simpl; rewrite H; [reflexivity|].
  rewrite IH. reflexivity.
Qed.

(** The lazy group ends at the first suffix that can be closed. *)
Lemma star_lazy_group {R} (f : string -> string -> R) (v : string) :
  Re.star_lazy Re.any_char (fun u => option_map (f u) (close_at u)) v
  = match group_end v with
    | Some u => option_map (f u) (close_at u)
    | None => None
    end.
Proof.
  induction v as [|c v IH].
  - simpl. destruct (close_at EmptyString); reflexivity.
  - cbn [Re.star_lazy group_end].
    destruct (close_at (String c v)) eqn:E; [simpl; rewrite E; reflexivity|].
    simpl option_map. unfold Re.any_char at 1. exact IH.
Qed.

Lemma group_end_some (v u : string) :
  group_end v = Some u -> exists t, close_at u = Some t.
Proof.
  revert u. induction v as [|c v IH]; intros u; cbn [group_end].
  - destruct (close_at EmptyString) eqn:E; [|discriminate].
    intros [= <-]. eauto.
  - destruct (close_at (String c v)) eqn:E; [intros [= <-]; eauto|].
    apply IH.
Qed.

Lemma group_end_closed (v t : string) :
  close_at v = Some t -> group_end v = Some v.
Proof. intros H. destruct v; cbn [group_end]; rewrite H; reflexivity. Qed.

Lemma group_end_lstrip (x : string) :
  group_end (lstrip x) = None -> group_end x = None.
Proof.
  induction x as [|c x IH]; [auto|].
  destruct (is_space c) eqn:E.
  - rewrite lstrip_space by exact E. intros H.
    cbn [group_end]. unfold close_at at 1. rewrite lstrip_space by exact E.
    fold (close_at x).
    destruct (close_at x) eqn:Ec.
    + exfalso. rewrite <- close_at_lstrip in Ec.
      rewrite (group_end_closed _ _ Ec) in H. discriminate.
    + apply IH. exact H.
  - rewrite lstrip_nonspace by exact E. auto.
Qed.

(** A fenced pattern at the start of [s]: the opener, then the group from
    after the whitespace to the first point that can be closed. *)
Lemma match_fenced (opener s : string) :
  Re.match_here (fenced_pattern opener) s EmptyString
  = match Re.strip_prefix opener s with
    | Some rest =>
        let v := lstrip rest in
        match group_end v with
        | Some u => option_map (pair (Re.consumed v u)) (close_at u)
        | None => None
        end
    | None => None
    end.
Proof.
  unfold fenced_pattern. cbn [Re.match_here].
  destruct (Re.strip_prefix opener s) as [rest|]; [|reflexivity].
  set (L := fun v =>
              Re.star_lazy Re.any_char
                (fun u =>
                   Re.match_here [Re.Star true is_space false; Re.Lit fence]
                     u (Re.consumed v u)) v).
  assert (HL : forall v,
             L v = match group_end v with
                   | Some u => option_map (pair (Re.consumed v u)) (close_at u)
                   | None => None
                   end).
  { intros v. unfold L.
    rewrite <- (star_lazy_group (fun u => pair (Re.consumed v u)) v).
    apply star_lazy_ext. intros u. apply match_closing. }
  transitivity (Re.star_greedy is_space L rest); [reflexivity|].
  rewrite star_greedy_space.
  - apply HL.
  - intros x. rewrite !HL. intros H.
    destruct (group_end (lstrip x)) as [u|] eqn:E.
    + destruct (group_end_some _ _ E) as [t Ht]. rewrite Ht in H.
      discriminate.
    + rewrite (group_end_lstrip x E). reflexivity.
Qed.

Lemma before_first_cons (c : ascii) (s : string) :
  Re.strip_prefix fence (String c s) = None ->
  before_first fence (String c s)
  = option_map (String c) (before_first fence s).
Proof. intros H. cbn [before_first]. rewrite H. reflexivity. Qed.

Lemma before_first_here (s t : string) :
  Re.strip_prefix fence s = Some t -> before_first fence s = Some EmptyString.
Proof. intros H. destruct s; cbn [before_first]; rewrite H; reflexivity. Qed.

(** Whitespace up to a fence: the text before the fence strips to nothing. *)
Lemma close_before (v t : string) :
  close_at v = Some t ->
  exists inner, before_first fence v = Some inner
                /\ rstrip inner = EmptyString.
Proof.
  unfold close_at. induction v as [|c v IH]; [discriminate|].
  destruct (is_space c) eqn:E.
  - rewrite lstrip_space by exact E. intros H.
    destruct (IH H) as (inner & Hb & Hr).
    exists (String c inner). split.
    + rewrite before_first_cons by (apply fence_not_at_space; exact E).
      rewrite Hb. reflexivity.
    + rewrite rstrip_cons, Hr, E. reflexivity.
  - rewrite lstrip_nonspace by exact E. intros H.
    exists EmptyString. split; [|reflexivity].
    eapply before_first_here. exact H.
Qed.

Lemma before_close (v inner : string) :
  before_first fence v = Some inner -> rstrip inner = EmptyString ->
  exists t, close_at v = Some t.
Proof.
  unfold close_at. revert inner. induction v as [|c v IH]; intros inner.
  - discriminate.
  - destruct (Re.strip_prefix fence (String c v)) as [t|] eqn:Ef.
    + intros _ _. rewrite (fence_at_nonspace _ _ Ef). eauto.
    + rewrite before_first_cons by exact Ef.
      destruct (before_first fence v) as [inner'|] eqn:Eb; [|discriminate].
      intros [= <-]. rewrite rstrip_cons.
      destruct (rstrip inner') eqn:Er; [|discriminate].
      destruct (is_space c) eqn:E; [|discriminate].
      intros _. rewrite lstrip_space by exact E. eapply IH; eauto.
Qed.

(** The group the pattern captures is the text before the next fence, less
    its trailing whitespace. *)
Lemma group_end_before_first (v : string) :
  match group_end v with
  | Some u =>
      exists inner, before_first fence v = Some inner
                    /\ Re.consumed v u = rstrip inner
  | None => before_first fence v = None
  end.
Proof.
  induction v as [|c v IH].
  - reflexivity.
  - cbn [group_end]. destruct (close_at (String c v)) as [t|] eqn:Ec.
    + destruct (close_before _ _ Ec) as (inner & Hb & Hr).
      exists inner. rewrite consumed_all. auto.
    + assert (Ef : Re.strip_prefix fence (String c v) = None).
      { destruct (Re.strip_prefix fence (String c v)) eqn:Ef; [|reflexivity].
        unfold close_at in Ec. rewrite (fence_at_nonspace _ _ Ef) in Ec.
        congruence. }
      rewrite before_first_cons by exact Ef.
      destruct (group_end v) as [u|] eqn:Eg.
      * destruct IH as (inner & Hb & Hcons). exists (String c inner).
        rewrite Hb. split; [reflexivity|].
        rewrite consumed_cons by (apply group_end_length; exact Eg).
        rewrite Hcons, rstrip_cons.
        destruct (rstrip inner) eqn:Er; [|reflexivity].
        destruct (is_space c) eqn:E; [|reflexivity].
        exfalso. destruct (before_close _ _ Hb Er) as [t Ht].
        unfold close_at in Ec, Ht. rewrite lstrip_space in Ec by exact E.
        congruence.
      * rewrite IH. reflexivity.
Qed.

Lemma before_first_lstrip (rest : string) :
  match before_first fence rest with
  | Some inner =>
      exists inner', before_first fence (lstrip rest) = Some inner'
                     /\ strip inner' = strip inner
  | None => before_first fence (lstrip rest) = None
  end.
Proof.
  induction rest as [|c rest IH]; [reflexivity|].
  destruct (is_space c) eqn:E.
  - rewrite lstrip_space by exact E.
    rewrite before_first_cons by (apply fence_not_at_space; exact E).
    destruct (before_first fence rest) as [inner|]; [|exact IH].
    destruct IH as (inner' & Hb & Hs). exists inner'. split; [exact Hb|].
    simpl option_map. rewrite strip_space by exact E. exact Hs.
  - rewrite lstrip_nonspace by exact E.
    destruct (before_first fence (String c rest)); eauto.
Qed.

(** What the code parses after a fenced pattern matched at the start of
    [s]: the stripped text between the opener and the next fence. *)
Lemma match_fenced_interior (opener s : string) :
  option_map (fun r => strip (fst r))
    (Re.match_here (fenced_pattern opener) s EmptyString)
  = option_map strip
      (match Re.strip_prefix opener s with
       | Some rest => before_first fence rest
       | None => None
       end).
Proof.
  rewrite match_fenced.
  destruct (Re.strip_prefix opener s) as [rest|]; [|reflexivity].
  cbv zeta. pose proof (before_first_lstrip rest) as Hl.
  pose proof (group_end_before_first (lstrip rest)) as Hg.
  destruct (group_end (lstrip rest)) as [u|] eqn:Eg.
  - destruct Hg as (inner' & Hb' & Hcons).
    destruct (group_end_some _ _ Eg) as [t Ht]. rewrite Ht. simpl.
    destruct (before_first fence rest) as [inner|].
    + destruct Hl as (inner'' & Hb'' & Hs). simpl.
      rewrite Hcons, strip_rstrip. congruence.
    + congruence.
  - destruct (before_first fence rest) as [inner|]; [|reflexivity].
    destruct Hl as (inner'' & Hb'' & _). congruence.
Qed.

(** [re.search] with a fenced pattern finds the first fenced block. *)
Lemma search_fenced (opener text : string) :
  option_map (fun m => strip (Re.group1 m))
    (Re.search (fenced_pattern opener) text)
  = option_map strip (fenced_block opener text).
Proof.
  induction text as [|c text IH].
  - cbn [Re.search fenced_block].
    pose proof (match_fenced_interior opener EmptyString) as H.
    destruct (Re.match_here (fenced_pattern opener) EmptyString EmptyString)
      as [[g r]|];
      destruct (match Re.strip_prefix opener EmptyString with
                | Some rest => before_first fence rest
                | None => None
                end); simpl in *; congruence.
  - cbn [Re.search fenced_block].
    pose proof (match_fenced_interior opener (String c text)) as H.
    destruct (Re.match_here (fenced_pattern opener) (String c text)
                EmptyString) as [[g r]|];
      destruct (match Re.strip_prefix opener (String c text) with
                | Some rest => before_first fence rest
                | None => None
                end); simpl in *; congruence.
Qed.

(** *** The object pattern *)

Lemma star_greedy_any (g rest : string) :
  Re.star_greedy Re.any_char
    (fun r => match Re.strip_prefix "}" r with
              | Some r' => Some (g, r')
              | None => None
              end) rest
  = option_map (pair g) (after_last "}" rest).
Proof.
  induction rest as [|c rest IH]; [reflexivity|].
  cbn [Re.star_greedy after_last]. unfold Re.any_char at 1. rewrite IH.
  destruct (after_last "}" rest); [reflexivity|].
  rewrite strip_prefix_cons, Ascii.eqb_sym.
  destruct (Ascii.eqb c "}"); reflexivity.
Qed.

Lemma after_last_through (c : ascii) (s : string) :
  match after_last c s with
  | Some r =>
      (String.length r <= String.length s)%nat
      /\ through_last c s = Some (Re.consumed s r)
  | None => through_last c s = None
  end.
Proof.
  induction s as [|a s IH]; [reflexivity|].
  cbn [after_last through_last].
  destruct (after_last c s) as [r|].
  - destruct IH as [Hlen Ht]. rewrite Ht. split; [simpl; lia|].
    rewrite consumed_cons by exact Hlen. reflexivity.
  - rewrite IH. destruct (Ascii.eqb a c); [|reflexivity].
    split; [simpl; lia|]. unfold Re.consumed. simpl String.length.
    replace (S (String.length s) - String.length s)%nat with 1%nat by lia.
    simpl. destruct s; reflexivity.
Qed.

Lemma match_object (a : ascii) (body : string) :
  option_map (fun r => Re.consumed (String a body) (snd r))
    (Re.match_here object_pattern (String a body) EmptyString)
  = if Ascii.eqb a "{" then option_map (String a) (through_last "}" body)
    else None.
Proof.
  unfold object_pattern, pattern_object. cbn [snd Re.match_here].
  rewrite strip_prefix_cons, Ascii.eqb_sym.
  destruct (Ascii.eqb a "{"); [|reflexivity].
  cbn [Re.strip_prefix]. rewrite star_greedy_any.
  pose proof (after_last_through "}" body) as H.
  destruct (after_last "}" body) as [r|]; simpl.
  - destruct H as [Hlen Ht]. rewrite Ht. simpl.
    rewrite consumed_cons by exact Hlen. reflexivity.
  - rewrite H. reflexivity.
Qed.

Lemma through_last_tail (c a : ascii) (s : string) :
  through_last c (String a s) = None -> through_last c s = None.
Proof. simpl. destruct (through_last c s); [discriminate|reflexivity]. Qed.

Lemma search_object_none (text : string) :
  through_last "}" text = None -> Re.search object_pattern text = None.
Proof.
  induction text as [|a text IH]; intros H.
  - reflexivity.
  - cbn [Re.search]. pose proof (match_object a text) as Hm.
    rewrite (through_last_tail _ _ _ H) in Hm.
    destruct (Re.match_here object_pattern (String a text) EmptyString)
      as [[g r]|].
    + destruct (Ascii.eqb a "{"); discriminate.
    + apply IH. eapply through_last_tail. exact H.
Qed.

(** [re.search] with the object pattern finds the span from the first
    opening brace to the last closing brace. *)
Lemma search_object (text : string) :
  option_map Re.group0 (Re.search object_pattern text) = brace_span text.
Proof.
  unfold brace_span. induction text as [|a text IH]; [reflexivity|].
  cbn [Re.search from_first]. pose proof (match_object a text) as Hm.
  destruct (Re.match_here object_pattern (String a text) EmptyString)
    as [[g r]|]; simpl in Hm.
  - destruct (Ascii.eqb a "{"); [|discriminate]. simpl. exact Hm.
  - destruct (Ascii.eqb a "{").
    + destruct (through_last "}" text) eqn:Et; [discriminate|].
      rewrite search_object_none by exact Et. reflexivity.
    + exact IH.
Qed.

(** The matcher on a few texts, as [re.search] answers on them. *)
Example search_fence_nested_backticks :
  Re.search (fenced_pattern fence) "a ````` b ``x```"
  = Some {| Re.group0 := "````` b ``x```"; Re.group1 := "`` b ``x" |}.
Proof. reflexivity. Qed.

Example search_fence_unclosed :
  Re.search (fenced_pattern fence) "````" = None.
Proof. reflexivity. Qed.

Example search_object_greedy :
  option_map Re.group0 (Re.search object_pattern "a {b {c} d} e } f")
  = Some "{b {c} d} e }".
Proof. reflexivity. Qed.

(** *** The extraction order *)

Section Extraction.

Variable json_loads : string -> loads_outcome.
Variable requests_post : string -> payload_t -> Z -> Z -> transport_outcome.

(** One pattern of the loop, once we know which candidate it yields. *)
Lemma try_pattern_candidate {M} (found : option M) (text_of : M -> string)
    (candidate : option string) (next next' : parse_outcome) :
  option_map (fun m => strip (text_of m)) found = option_map strip candidate ->
  next = next' ->
  match found with
  | Some m =>
      match json_loads (strip (text_of m)) with
      | Loaded v => Parsed v
      | DecodeError => next
      | OtherError e msg => ParseRaised e msg
      end
  | None => next
  end
  = match candidate with
    | Some c =>
        match json_loads (strip c) with
        | Loaded v => Parsed v
        | DecodeError => next'
        | OtherError e msg => ParseRaised e msg
        end
    | None => next'
    end.
Proof.
  intros H <-. destruct found, candidate; simpl in H; try discriminate.
  - injection H as ->. reflexivity.
  - reflexivity.
Qed.

(** The loop does the same for two backends whose [try] blocks end the
    same way. *)
Lemma attempt_loop_same_tries
    (post post' : string -> payload_t -> Z -> Z -> transport_outcome)
    (self : OllamaClient) (url : string) (payload : payload_t)
    (attempts : list Z) :
  (forall a, try_block json_loads post self url payload a
             = try_block json_loads post' self url payload a) ->
  forall last_error,
    attempt_loop json_loads post self url payload attempts last_error
    = attempt_loop json_loads post' self url payload attempts last_error.
Proof.
  intros Hsame. induction attempts as [|a attempts IH]; intros last_error;
    [reflexivity|].
  cbn [attempt_loop]. rewrite Hsame.
  destruct (try_block json_loads post' self url payload a);
    try reflexivity.
  rewrite !IH. reflexivity.
Qed.

(** C6, as the code has it: a non-empty text is parsed by the first of four
    extractions that succeeds, in this order: the whole text; the interior
    of the first fenced block labelled json; the interior of the first
    fenced block; the span from the first opening brace to the last closing
    brace. When each fails with [JSONDecodeError] the parsed value is none;
    another exception of [json.loads] ends the trial and leaves the
    function. A backend answer whose parse returns is returned with its raw
    text, the parsed value, success exactly when that value is not none,
    and no error field; one whose parse raises is handled like a transport
    failure with that unexpected error. *)
Theorem parse_json_response_order :
  (forall text,
      _parse_json_response json_loads text
      = if is_empty text then Parsed JNull
        else first_parsed json_loads (extraction_order text))
  /\ (forall self url payload attempt rest last_error raw,
        requests_post url payload (timeout self) attempt = Responded raw ->
        match _parse_json_response json_loads raw with
        | Parsed v =>
            attempt_loop json_loads requests_post self url payload
              (attempt :: rest) last_error
            = ([Post attempt],
               Ok {| response := Some raw;
                     parsed := v;
                     success := negb (is_none v);
                     error := None;
                     result_model := model self;
                     attempt_count := (attempt + 1)%Z |})
        | ParseRaised _ msg =>
            attempt_loop json_loads requests_post self url payload
              (attempt :: rest) last_error
            = attempt_loop json_loads
                (failing_at attempt (OtherException msg) requests_post)
                self url payload (attempt :: rest) last_error
        end).
Proof.
  split.
  - intros text.
    unfold _parse_json_response. destruct (is_empty text); [reflexivity|].
    unfold extraction_order. cbn [first_parsed].
    destruct (json_loads (strip text)) as [v| |e msg]; try reflexivity.
    unfold patterns, pattern_json, pattern_fence. cbn [try_patterns].
    replace (Re.contains "```" "```json\s*([\s\S]*?)\s*```") with true
      by reflexivity.
    replace (Re.contains "```" "```\s*([\s\S]*?)\s*```") with true
      by reflexivity.
    fold (fenced_pattern "```json"). fold (fenced_pattern fence).
    apply try_pattern_candidate; [apply search_fenced|].
    apply try_pattern_candidate; [apply search_fenced|].
    unfold pattern_object.
    replace (Re.contains "```" "\{[\s\S]*\}") with false by reflexivity.
    fold (snd pattern_object). fold object_pattern.
    apply try_pattern_candidate; [|reflexivity].
    rewrite <- search_object. unfold object_pattern, pattern_object.
    cbn [snd]. destruct (Re.search _ text); reflexivity.
  - intros self url payload attempt rest last_error raw H.
    destruct (_parse_json_response json_loads raw) as [v|e msg] eqn:Hp.
    + cbn [attempt_loop]. unfold try_block. rewrite H, Hp. reflexivity.
    + apply attempt_loop_same_tries. intros a.
      unfold try_block, failing_at.
      destruct (Z.eqb_spec a attempt) as [->|Hne]; [|reflexivity].
      rewrite H, Hp. reflexivity.
Qed.

End Extraction.

Lemma parse_json_response_order_witness :
  generate decode (answers "I would pull the lever.") demo_client
    "Pull the lever?" None 0.2%float 512 None None
  = ([Post 0%Z],
     Ok {| response := Some "I would pull the lever.";
           parsed := JNull;
           success := false;
           error := None;
           result_model := "llama3";
           attempt_count := 1%Z |}).
Proof.
  unfold generate.
  change (range (max_retries demo_client)) with [0%Z; 1%Z; 2%Z].
  pose proof (proj2 (parse_json_response_order decode
                       (answers "I would pull the lever."))
                demo_client (base_url demo_client ++ "/api/generate")
                {| payload_model := "llama3";
                   payload_prompt := "Pull the lever?";
                   payload_stream := false;
                   payload_options := {| temperature := 0.2%float;
                                         num_predict := 512%Z;
                                         seed_option := None |};
                   payload_format := FormatJson;
                   payload_system := None |}
                0%Z [1%Z; 2%Z] None
                "I would pull the lever." eq_refl) as H.
  replace (_parse_json_response decode "I would pull the lever.")
    with (Parsed JNull) in H by (vm_compute; reflexivity).
  exact H.
Defined.

(** C6 as stated fails on a text holding two objects: the first balanced
    object parses, but the code takes the span from the first opening brace
    to the last closing brace, which does not, and reports the text as
    unparsed. *)
Lemma extraction_misses_first_balanced_object :
  _parse_json_response decode two_objects = Parsed JNull
  /\ first_balanced_object two_objects = Some (dq "{'a': 1}")
  /\ first_parsed decode (extraction_order_balanced two_objects)
     = Parsed (JObj [("a", JInt 1)])
  /\ _parse_json_response decode two_objects
     <> first_parsed decode (extraction_order_balanced two_objects).
Proof.
  repeat split; try (vm_compute; reflexivity).
  vm_compute. discriminate.
Qed.

End ExtractionProps.

(** ** Resuming: how the two functions compose *)
Module PipelineProps.
Import Py Json ResumeUtils Spec ResumeProps TruncateProps.
Local Open Scope string_scope.
Local Open Scope list_scope.
Local Open Scope Z_scope.

Section Pipeline.

Variable json_loads : string -> loads_outcome.

(** The events of a log are those of its parts, in order. *)
Lemma events_app (l1 l2 : list string) :
  events json_loads (l1 ++ l2) = events json_loads l1 ++ events json_loads l2.
Proof. unfold events. apply flat_map_app. Qed.

Lemma completed_rounds_app (es1 es2 : list json) :
  completed_rounds (es1 ++ es2) = completed_rounds es1 ++ completed_rounds es2.
Proof. unfold completed_rounds. apply flat_map_app. Qed.

Lemma last_response_app (es1 es2 : list json) (r : Z) (a : string) :
  last_response (es1 ++ es2) r a
  = match last_response es2 r a with
    | Some s => Some s
    | None => last_response es1 r a
    end.
Proof.
  induction es1 as [|e es1 IH]; simpl.
  - destruct (last_response es2 r a); reflexivity.
  - rewrite IH. destruct (last_response es2 r a); reflexivity.
Qed.

Lemma fold_max_app (l1 l2 : list Z) (m : Z) :
  fold_left Z.max (l1 ++ l2) m = fold_left Z.max l2 (fold_left Z.max l1 m).
Proof. apply fold_left_app. Qed.

(** What the replay returns on a log that follows the line schema: the
    greatest round with a [round_end], and for each agent the last response
    of that round. *)
Lemma replay_result (lines : list string) :
  existsb (fails_to_load json_loads) lines = false ->
  forallb well_formed_event (events json_loads lines) = true ->
  exists agent_states,
    find_last_complete_round json_loads (Readable lines)
    = (if fold_left Z.max (completed_rounds (events json_loads lines)) (-1)
          =? -1
       then (None, [])
       else (Some (JInt (fold_left Z.max
                           (completed_rounds (events json_loads lines)) (-1))),
             agent_states))
    /\ forall a,
        dict_get (JStr a) agent_states
        = last_response (events json_loads lines)
            (fold_left Z.max (completed_rounds (events json_loads lines)) (-1))
            a.
Proof.
  intros Hc Hwf. unfold find_last_complete_round, enumerate.
  destruct (scan_lines_well_formed json_loads lines _ initial_state (-1)
              (enumerate_length lines) Hc Hwf eq_refl
              (conj (Forall_nil _) (Forall_nil _)))
    as (st & Hrun & Hlast & Hwk & Hrec).
  rewrite Hrun, Hlast, py_eq_int.
  set (es := events json_loads lines) in *.
  set (top := fold_left Z.max (completed_rounds es) (-1)) in *.
  exists (match dict_get (JInt top) (round_responses st) with
          | Some d => d
          | None => []
          end).
  split; [reflexivity|].
  intros a. specialize (Hrec top a). unfold recorded in Hrec.
  destruct (dict_get (JInt top) (round_responses st)) as [d|].
  - rewrite Hrec. destruct (last_response es top a); reflexivity.
  - simpl. destruct (last_response es top a); congruence.
Qed.


(** A replay that reports a round met no line on which [json.loads] raises
    anything but [JSONDecodeError]. *)
Lemma replay_reports_clean (lines : list string) (v : json)
    (agent_states : pydict agent_state) :
  find_last_complete_round json_loads (Readable lines)
  = (Some v, agent_states) ->
  existsb (fails_to_load json_loads) lines = false.
Proof.
  intros Hfind.
  destruct (existsb (fails_to_load json_loads) lines) eqn:Hex;
    [|reflexivity].
  unfold find_last_complete_round, enumerate in Hfind.
  destruct (scan_lines_fails json_loads lines _ initial_state
              (enumerate_length lines) Hex) as [e He].
  rewrite He in Hfind. discriminate.
Qed.

(** A [round_end] event is recognised by the truncation loop when the line
    reads the same stripped or not. *)
Lemma round_end_event_line (line : string) (r : Z) :
  loaded_value (json_loads line) = event_of json_loads line ->
  match event_of json_loads line with
  | Some e => round_end_of e
  | None => None
  end = Some r ->
  round_end_line json_loads r line = true.
Proof.
  intros Hraw He. unfold round_end_line.
  destruct (event_of json_loads line) as [e|]; [|discriminate].
  destruct (json_loads line) as [e'| |]; try discriminate.
  injection Hraw as ->.
  unfold round_end_of in He.
  destruct e as [| | | | | |kvs]; try discriminate.
  destruct (obj_get "type" kvs) as [| | | |t| |]; try discriminate.
  destruct (obj_get "round" kvs) as [| |r0| | | |]; try discriminate.
  destruct (String.eqb t "round_end") eqn:Et; [|discriminate].
  injection He as ->. rewrite py_eq_str, Et, py_eq_int, Z.eqb_refl.
  reflexivity.
Qed.

Lemma round_end_line_event (line : string) (r : Z) :
  loaded_value (json_loads line) = event_of json_loads line ->
  match event_of json_loads line with
  | Some e => well_formed_event e
  | None => true
  end = true ->
  round_end_line json_loads r line = true ->
  completed_rounds (events json_loads [line]) = [r].
Proof.
  intros Hraw Hwf Hl. unfold round_end_line in Hl.
  unfold events, completed_rounds. simpl.
  destruct (json_loads line) as [e'| |]; try discriminate.
  destruct (event_of json_loads line) as [e|]; [|discriminate].
  injection Hraw as ->.
  destruct e as [| | | | | |kvs]; try discriminate.
  simpl. unfold round_end_of. unfold well_formed_event in Hwf.
  apply andb_true_iff in Hl. destruct Hl as [Ht Hr].
  rewrite py_eq_to_str in Ht.
  destruct (obj_get "type" kvs) as [| | | |t| |]; try discriminate.
  rewrite Ht in Hwf |- *.
  destruct (obj_get "round" kvs) as [| |r0| | | |]; try discriminate.
  rewrite py_eq_int in Hr. apply Z.eqb_eq in Hr. subst r0. reflexivity.
Qed.

(** A completed round comes from a line of the log. *)
Lemma completed_round_line (lines : list string) (r : Z) :
  In r (completed_rounds (events json_loads lines)) ->
  exists line,
    In line lines
    /\ match event_of json_loads line with
       | Some e => round_end_of e
       | None => None
       end = Some r.
Proof.
  induction lines as [|l lines IH]; [simpl; tauto|].
  change (l :: lines) with ([l] ++ lines) at 1.
  rewrite events_app, completed_rounds_app, in_app_iff.
  intros [H|H].
  - exists l. split; [left; reflexivity|].
    unfold events, completed_rounds in H. simpl in H.
    destruct (event_of json_loads l) as [e|]; [|contradiction].
    simpl in H. rewrite app_nil_r in H.
    destruct (round_end_of e) as [r0|]; [|contradiction].
    destruct H as [->|[]]. reflexivity.
  - destruct (IH H) as (line & Hin & Hl). exists line. split; [right|]; auto.
Qed.

Lemma well_formed_events_app (l1 l2 : list string) :
  forallb well_formed_event (events json_loads (l1 ++ l2)) = true ->
  forallb well_formed_event (events json_loads l1) = true
  /\ forallb well_formed_event (events json_loads l2) = true.
Proof. rewrite events_app, forallb_app. apply andb_true_iff. Qed.

(** X1: resuming is consistent. When the replay of a log that follows the
    line schema (each line reading the same stripped or not) reports round
    [r], truncating the log to round [r] succeeds and keeps a prefix of the
    log, the replay of the truncated log reports round [r] again, and it
    reports the same stance and rationale for every agent when no response
    of round [r] lies in the part cut off. *)
Theorem truncation_keeps_last_complete_round (lines : list string)
    (v : json) (agent_states : pydict agent_state) :
  forallb well_formed_event (events json_loads lines) = true ->
  Forall (fun l => loaded_value (json_loads l) = event_of json_loads l)
    lines ->
  find_last_complete_round json_loads (Readable lines)
  = (Some v, agent_states) ->
  exists r kept dropped agent_states',
    v = JInt r
    /\ lines = kept ++ dropped
    /\ truncate_log_to_round json_loads WriteOk (Readable lines) r
       = (true, Readable kept)
    /\ find_last_complete_round json_loads (Readable kept)
       = (Some (JInt r), agent_states')
    /\ ((forall a, last_response (events json_loads dropped) r a = None) ->
        forall a,
          dict_get (JStr a) agent_states' = dict_get (JStr a) agent_states).
Proof.
  intros Hwf Hraw Hfind.
  pose proof (replay_reports_clean lines v agent_states Hfind) as Hc.
  destruct (replay_result lines Hc Hwf) as (states & Hres & Hstates).
  rewrite Hfind in Hres.
  pose proof (fold_max_spec (completed_rounds (events json_loads lines)) (-1))
    as (Hlow & Hmax & Hin).
  set (top := fold_left Z.max (completed_rounds (events json_loads lines))
                (-1)) in *.
  destruct (Z.eqb_spec top (-1)) as [Heq|Hne]; [discriminate|].
  injection Hres as -> ->.
  destruct Hin as [Hin|Hin]; [contradiction|].
  destruct (completed_round_line lines top Hin) as (l & Hl & Hev).
  assert (Hex : existsb (round_end_line json_loads top) lines = true).
  { apply existsb_exists. exists l. split; [exact Hl|].
    apply round_end_event_line; [|exact Hev].
    rewrite Forall_forall in Hraw. apply Hraw. exact Hl. }
  destruct (first_round_end json_loads top lines Hex)
    as (before & line & after & Hsplit & Hline & Hbefore).
  subst lines.
  assert (Hsplit : before ++ line :: after = (before ++ [line]) ++ after)
    by (rewrite <- app_assoc; reflexivity).
  rewrite Hsplit in Hwf, Hstates, Hmax, Hc.
  destruct (well_formed_events_app _ _ Hwf) as [Hwfk _].
  rewrite existsb_app in Hc. apply orb_false_iff in Hc.
  destruct Hc as [Hck _].
  destruct (replay_result (before ++ [line]) Hck Hwfk)
    as (states' & Hres' & Hst').
  assert (Htop :
    fold_left Z.max (completed_rounds (events json_loads (before ++ [line])))
      (-1) = top).
  { rewrite events_app, completed_rounds_app, fold_max_app.
    rewrite (round_end_line_event line top); cycle 1.
    - rewrite Forall_forall in Hraw. apply Hraw.
      apply in_or_app. right. left. reflexivity.
    - destruct (well_formed_events_app _ _ Hwfk) as [_ Hwl].
      unfold events in Hwl. simpl in Hwl.
      destruct (event_of json_loads line); [|reflexivity].
      simpl in Hwl. rewrite andb_true_r in Hwl. exact Hwl.
    - exact Hline.
    - simpl.
      pose proof (fold_max_spec
                    (completed_rounds (events json_loads before)) (-1))
        as (Hb1 & Hb2 & [Hb3|Hb3]).
      + rewrite Hb3. lia.
      + assert (fold_left Z.max
                  (completed_rounds (events json_loads before)) (-1) <= top);
          [|lia].
        apply Hmax. rewrite events_app, completed_rounds_app.
        apply in_or_app. left.
        rewrite events_app, completed_rounds_app.
        apply in_or_app. left. exact Hb3. }
  rewrite Htop in Hres', Hst'.
  destruct (Z.eqb_spec top (-1)) as [|_]; [contradiction|].
  exists top, (before ++ [line]), after, states'.
  split; [reflexivity|]. split; [exact Hsplit|]. split.
  { unfold truncate_log_to_round.
    rewrite (keep_through_found json_loads top before after line Hbefore
               Hline).
    reflexivity. }
  split; [exact Hres'|].
  intros Hnone a.
  rewrite Hst', Hstates, (events_app (before ++ [line]) after).
  rewrite last_response_app, Hnone. reflexivity.
Qed.

(** X2: appending lines to a log never lowers the round the replay
    reports, provided the log and the lines appended follow the line schema
    and [json.loads] raises nothing but [JSONDecodeError] on the lines
    appended; lines that record no [round_end] leave the round unchanged,
    and the responses among them replace or extend what is reported for
    their agents. *)
Theorem appending_never_lowers_round (lines more : list string) (r : Z)
    (agent_states : pydict agent_state) :
  forallb well_formed_event (events json_loads (lines ++ more)) = true ->
  existsb (fails_to_load json_loads) more = false ->
  find_last_complete_round json_loads (Readable lines)
  = (Some (JInt r), agent_states) ->
  exists r' agent_states',
    find_last_complete_round json_loads (Readable (lines ++ more))
    = (Some (JInt r'), agent_states')
    /\ r <= r'
    /\ (completed_rounds (events json_loads more) = [] ->
        r' = r
        /\ forall a,
            dict_get (JStr a) agent_states'
            = match last_response (events json_loads more) r a with
              | Some s => Some s
              | None => dict_get (JStr a) agent_states
              end).
Proof.
  intros Hwf Hcm Hfind.
  pose proof (replay_reports_clean lines _ agent_states Hfind) as Hc.
  assert (Hc2 : existsb (fails_to_load json_loads) (lines ++ more) = false)
    by (rewrite existsb_app, Hc, Hcm; reflexivity).
  destruct (well_formed_events_app _ _ Hwf) as [Hwf1 _].
  destruct (replay_result lines Hc Hwf1) as (states1 & Hres1 & Hst1).
  destruct (replay_result (lines ++ more) Hc2 Hwf)
    as (states2 & Hres2 & Hst2).
  rewrite Hfind in Hres1.
  rewrite events_app, completed_rounds_app, fold_max_app in Hres2, Hst2.
  set (top := fold_left Z.max (completed_rounds (events json_loads lines))
                (-1)) in *.
  destruct (Z.eqb_spec top (-1)) as [|Hne]; [discriminate|].
  injection Hres1 as -> ->.
  pose proof (fold_max_spec (completed_rounds (events json_loads lines)) (-1))
    as (Hlow & _ & _). fold top in Hlow.
  pose proof (fold_max_spec (completed_rounds (events json_loads more)) top)
    as (Hge & _ & _).
  set (top' := fold_left Z.max (completed_rounds (events json_loads more))
                 top) in *.
  destruct (Z.eqb_spec top' (-1)) as [|_]; [lia|].
  exists top', states2. split; [exact Hres2|]. split; [exact Hge|].
  intros Hnone. subst top'. rewrite Hnone in *. simpl in *.
  split; [reflexivity|].
  intros a. rewrite Hst2, Hst1. apply last_response_app.
Qed.


Lemma keep_through_kept (target : Z) (lines valid_lines : list string) :
  keep_through_round_end json_loads target lines = (valid_lines, true) ->
  keep_through_round_end json_loads target valid_lines = (valid_lines, true).
Proof.
  revert valid_lines. induction lines as [|l lines IH]; simpl.
  - discriminate.
  - intros valid_lines.
    destruct (is_target_round_end json_loads target l) eqn:E.
    + intros [= <-]. simpl. rewrite E. reflexivity.
    + destruct (keep_through_round_end json_loads target lines)
        as [kept found].
      intros [= <- ->]. simpl. rewrite E, (IH kept eq_refl). reflexivity.
Qed.

(** X3: truncating is idempotent. Once a log has been truncated to a round,
    truncating it to the same round again succeeds and changes nothing. *)
Theorem truncation_is_idempotent (f f' : file_status) (target : Z) :
  truncate_log_to_round json_loads WriteOk f target = (true, f') ->
  truncate_log_to_round json_loads WriteOk f' target = (true, f').
Proof.
  unfold truncate_log_to_round.
  destruct f as [| |lines]; try discriminate.
  destruct (keep_through_round_end json_loads target lines)
    as [valid_lines found] eqn:E.
  destruct found; simpl; [|discriminate].
  intros [= <-]. rewrite (keep_through_kept target lines valid_lines E).
  reflexivity.
Qed.

End Pipeline.


Lemma truncation_keeps_last_complete_round_witness :
  exists kept agent_states',
    truncate_log_to_round decode WriteOk (Readable retried_log) 0
    = (true, Readable kept)
    /\ find_last_complete_round decode (Readable kept)
       = (Some (JInt 0), agent_states')
    /\ dict_get (JStr "agent_0") agent_states'
       = Some {| stance := JStr "DO_NOT_PULL";
                 rationale := JStr "retried answer" |}.
Proof.
  destruct (truncation_keeps_last_complete_round decode retried_log
              (JInt 0)
              [(JStr "agent_0", {| stance := JStr "DO_NOT_PULL";
                                   rationale := JStr "retried answer" |});
               (JStr "agent_1", {| stance := JStr "PULL_LEVER";
                                   rationale := JStr "duty to save" |})])
    as (r & kept & dropped & states' & Hr & Hsplit & Htr & Hfind & Hsame).
  - vm_compute. reflexivity.
  - repeat (apply Forall_cons; [vm_compute; reflexivity|]). apply Forall_nil.
  - vm_compute. reflexivity.
  - injection Hr as <-. exists kept, states'.
    split; [exact Htr|]. split; [exact Hfind|].
    rewrite Hsame; [reflexivity|].
    vm_compute in Htr. injection Htr as <-.
    vm_compute in Hsplit. injection Hsplit as <-.
    intros a. vm_compute. reflexivity.
Defined.

Lemma appending_never_lowers_round_witness :
  exists r' agent_states',
    find_last_complete_round decode
      (Readable ([line_first_try; line_round_end_0]
                 ++ [line_retried; line_partial]))
    = (Some (JInt r'), agent_states')
    /\ r' = 0
    /\ dict_get (JStr "agent_0") agent_states'
       = Some {| stance := JStr "DO_NOT_PULL";
                 rationale := JStr "retried answer" |}.
Proof.
  destruct (appending_never_lowers_round decode
              [line_first_try; line_round_end_0]
              [line_retried; line_partial] 0
              [(JStr "agent_0", {| stance := JStr "PULL_LEVER";
                                   rationale := JStr "first answer" |})])
    as (r' & states' & Hfind & _ & Hsame).
  - vm_compute. reflexivity.
  - vm_compute. reflexivity.
  - vm_compute. reflexivity.
  - exists r', states'. split; [exact Hfind|].
    destruct Hsame as [Hr Hst]; [vm_compute; reflexivity|].
    split; [exact Hr|]. rewrite Hst. vm_compute. reflexivity.
Defined.

Lemma truncation_is_idempotent_witness :
  truncate_log_to_round decode WriteOk (Readable [line_round_end_0]) 0
  = (true, Readable [line_round_end_0]).
Proof.
  apply (truncation_is_idempotent decode (Readable interrupted_log)).
  vm_compute. reflexivity.
Defined.

End PipelineProps.

(** ** Setting up the client *)
Module ClientSetupProps.
Import Py Json PyMore LlmClient ClientSetup Notions.
Local Open Scope string_scope.

Lemma run_of_last (c : ascii) (n : nat) :
  run_of c (S n) = run_of c n ++ String c "".
Proof.
  induction n as [|n IH]; [reflexivity|].
  simpl in *. rewrite IH at 1. reflexivity.
Qed.

Lemma rstrip_char_split (c : ascii) (s : string) :
  exists n, s = rstrip_char c s ++ run_of c n.
Proof.
  induction s as [|a s [n IH]]; simpl.
  - exists O. reflexivity.
  - destruct (rstrip_char c s) as [|b r] eqn:E.
    + destruct (Ascii.eqb_spec a c) as [->|Hne].
      * exists (S n). simpl in *. rewrite IH at 1. reflexivity.
      * exists n. simpl. f_equal. exact IH.
    + exists n. simpl. f_equal. exact IH.
Qed.

Lemma rstrip_char_last (c : ascii) (s t : string) :
  rstrip_char c s <> t ++ String c "".
Proof.
  revert t. induction s as [|a s IH]; intros t; simpl.
  - destruct t; discriminate.
  - destruct (rstrip_char c s) as [|b r] eqn:E.
    + destruct (Ascii.eqb_spec a c) as [->|Hne]; [destruct t; discriminate|].
      destruct t as [|x [|y t]]; simpl; try discriminate.
      intros [= ->]. contradiction.
    + destruct t as [|x t]; simpl; [destruct r; discriminate|].
      intros [= _ H]. exact (IH t H).
Qed.

Lemma append_assoc (a b c : string) : (a ++ b) ++ c = a ++ (b ++ c).
Proof.
  induction a as [|x a IH]; simpl; [reflexivity|]. rewrite IH. reflexivity.
Qed.

Lemma append_nil_r (a : string) : a ++ "" = a.
Proof.
  induction a as [|x a IH]; simpl; [reflexivity|]. rewrite IH. reflexivity.
Qed.

(** X4: the constructor strips every trailing slash of the base URL and
    nothing else: the URL given is the one stored followed by slashes only,
    the stored one does not end in a slash, and a URL that does not end in
    a slash is stored as it is. *)
Theorem constructor_strips_trailing_slashes (url model : string)
    (timeout max_retries : Z) (retry_delay : Q) :
  (exists n,
      url = base_url (__init__ url model timeout max_retries retry_delay)
            ++ run_of "/" n)
  /\ (forall s,
        base_url (__init__ url model timeout max_retries retry_delay)
        <> s ++ "/")
  /\ ((forall s, url <> s ++ "/") ->
      base_url (__init__ url model timeout max_retries retry_delay) = url).
Proof.
  simpl. split; [apply rstrip_char_split|]. split; [apply rstrip_char_last|].
  intros Hno. destruct (rstrip_char_split "/" url) as [[|n] Hn].
  - simpl in Hn. rewrite append_nil_r in Hn. symmetry. exact Hn.
  - exfalso. rewrite run_of_last, <- append_assoc in Hn. exact (Hno _ Hn).
Qed.

Section Health.

Variable requests_get : string -> Z -> get_outcome.

Lemma model_names_some (models : list json) (names : list string) :
  model_names models = Some names ->
  Forall (fun m => listed_name m <> None) models
  /\ forall x,
      existsb (String.eqb x) names = true <->
      Exists (fun m => exists name,
                listed_name m = Some name /\ base_name name = x) models.
Proof.
  revert names. induction models as [|m models IH]; simpl; intros names.
  - intros [= <-]. split; [constructor|]. intros x. simpl. split.
    + discriminate.
    + intros H. inversion H.
  - destruct m as [| | | | | |kvs]; try discriminate.
    destruct (obj_get_default "name" (JStr "") kvs) as [| | | |name| |] eqn:E;
      try discriminate.
    destruct (model_names models) as [rest|]; [|discriminate].
    intros [= <-]. destruct (IH rest eq_refl) as [Hall Hex].
    assert (Hm : listed_name (JObj kvs) = Some name)
      by (unfold listed_name; rewrite E; reflexivity).
    split; [constructor; [rewrite Hm; discriminate|exact Hall]|].
    intros x. simpl. rewrite orb_true_iff, Hex. split.
    + intros [H|H].
      * apply String.eqb_eq in H. subst x. left. exists name. auto.
      * right. exact H.
    + intros H. apply Exists_cons in H. destruct H as [(n & Hn & Hb)|H'].
      * left. rewrite Hm in Hn. injection Hn as <-. subst x.
        apply String.eqb_refl.
      * right. exact H'.
Qed.

Lemma model_names_none (models : list json) :
  model_names models = None -> Exists (fun m => listed_name m = None) models.
Proof.
  induction models as [|m models IH]; simpl; [discriminate|].
  destruct (listed_name m) as [name|] eqn:Em; [|intros _; left; exact Em].
  intros H. right. apply IH.
  destruct m as [| | | | | |kvs]; try discriminate.
  unfold listed_name in Em.
  destruct (obj_get_default "name" (JStr "") kvs); try discriminate.
  destruct (model_names models); [discriminate|reflexivity].
Qed.

(** X5: [health_check] answers true exactly when the server's answer is
    an object whose list of models holds only entries with a usable name
    (an object whose name, if it has one, is a string), one of which names
    the client's model up to the tag after the colon; one unusable entry
    makes it answer false. Only an interrupt is raised, every other
    failure is answered false; and two clients for the same server whose
    models differ in the tag only get the same answer. *)
Theorem health_check_compares_base_names (self : OllamaClient) :
  (health_check requests_get self = Ok true <->
   exists kvs models,
     requests_get (base_url self ++ "/api/tags") 5 = Body (JObj kvs)
     /\ iterate (obj_get_default "models" (JArr []) kvs) = Some models
     /\ Forall (fun m => listed_name m <> None) models
     /\ Exists (fun m => exists name,
                  listed_name m = Some name
                  /\ base_name name = base_name (model self)) models)
  /\ (forall e, health_check requests_get self = Raise e ->
        e = KeyboardInterrupt
        /\ requests_get (base_url self ++ "/api/tags") 5 = GetInterrupted)
  /\ (forall other,
        base_url other = base_url self ->
        base_name (model other) = base_name (model self) ->
        health_check requests_get other = health_check requests_get self).
Proof.
  split; [|split].
  - unfold health_check.
    destruct (requests_get (base_url self ++ "/api/tags") 5)
      as [v| |] eqn:Eget.
    + destruct v as [| | | | | |kvs];
        try (split; [discriminate|intros (? & ? & [=] & _)]).
      destruct (iterate (obj_get_default "models" (JArr []) kvs))
        as [models|] eqn:Eit.
      * destruct (model_names models) as [names|] eqn:Enames.
        -- destruct (model_names_some models names Enames) as [Hall Hex].
           split.
           ++ intros [= H]. exists kvs, models.
              split; [reflexivity|]. split; [exact Eit|].
              split; [exact Hall|]. apply Hex. exact H.
           ++ intros (kvs' & models' & [= <-] & Hit & _ & H).
              rewrite Eit in Hit. injection Hit as <-.
              f_equal. apply Hex. exact H.
        -- apply model_names_none in Enames. split; [discriminate|].
           intros (kvs' & models' & [= <-] & Hit & Hall & _).
           rewrite Eit in Hit. injection Hit as <-.
           exfalso. rewrite Forall_forall in Hall.
           apply Exists_exists in Enames. destruct Enames as (m & Hin & Hm).
           exact (Hall m Hin Hm).
      * split; [discriminate|].
        intros (kvs' & models' & [= <-] & Hit & _). congruence.
    + split; [discriminate|intros (? & ? & [=] & _)].
    + split; [discriminate|intros (? & ? & [=] & _)].
  - intros e. unfold health_check.
    destruct (requests_get (base_url self ++ "/api/tags") 5) as [v| |].
    + destruct v as [| | | | | |kvs]; try discriminate.
      destruct (iterate _) as [models|]; [|discriminate].
      destruct (model_names models); discriminate.
    + discriminate.
    + intros [= <-]. auto.
  - intros other Hurl Hmodel. unfold health_check, base_name in *.
    rewrite Hurl, Hmodel. reflexivity.
Qed.

End Health.

(** A server that lists [mistral:latest] serves a client set up for
    [mistral:7b]; a bare string in the list spoils the check. *)
Example health_check_ignores_tags :
  health_check (serves tags_answer)
    (__init__ "http://localhost:11434/" "mistral:7b" 120 3 2) = Ok true
  /\ health_check (serves tags_answer_malformed)
       (__init__ "http://localhost:11434/" "mistral:7b" 120 3 2) = Ok false.
Proof. split; vm_compute; reflexivity. Qed.

End ClientSetupProps.

(** ** Calls of the model that end before the attempts are used up *)
Module GenerateMoreProps.
Import Py Json LlmClient Spec Notions PyFacts GenerateProps.
Local Open Scope string_scope.
Local Open Scope list_scope.
Local Open Scope Z_scope.

Section FirstOutcome.

Variable json_loads : string -> loads_outcome.
Variable requests_post : string -> payload_t -> Z -> Z -> transport_outcome.
Variable self : OllamaClient.
Variable why : Z -> failure.
Variable k : Z.

Hypothesis earlier_attempts_fail :
  forall url payload t a,
    0 <= a < k -> requests_post url payload t a = Failed (why a).
Hypothesis within_retries : 0 <= k < max_retries self.
Hypothesis delay_nonneg : (0 <= retry_delay self)%Q.

(** The loop up to attempt [k]: each failed attempt is followed by its
    pause, and the loop goes on from attempt [k]. *)
Lemma attempt_loop_failures (url : string) (payload : payload_t)
    (rest : list Z) (m a : nat) (last_error : option string) :
  Z.of_nat (a + m) = k ->
  exists evs last_error',
    attempt_loop json_loads requests_post self url payload
      (map Z.of_nat (seq a m) ++ rest) last_error
    = (evs ++ fst (attempt_loop json_loads requests_post self url payload
                     rest last_error'),
       snd (attempt_loop json_loads requests_post self url payload
              rest last_error'))
    /\ without_prints evs
       = flat_map (failed_attempt self) (map Z.of_nat (seq a m)).
Proof.
  revert a last_error. induction m as [|m IH]; intros a last_error Hn.
  - exists [], last_error. simpl.
    destruct (attempt_loop json_loads requests_post self url payload rest
                last_error).
    split; reflexivity.
  - simpl seq. simpl map. simpl app. simpl attempt_loop. unfold try_block.
    rewrite earlier_attempts_fail by lia.
    destruct (IH (S a) (Some (describe self (why (Z.of_nat a))))
                ltac:(lia)) as (evs & last_error' & Hrun & Hevs).
    rewrite Hrun.
    destruct (Z.ltb_spec (Z.of_nat a) (max_retries self - 1)); [|lia].
    assert (Hd : Qle_bool 0 (retry_delay self * inject_Z (Z.of_nat a + 1))
                 = true).
    { apply Qle_bool_iff. apply Qmult_le_0_compat; [exact delay_nonneg|].
      unfold Qle. simpl. lia. }
    rewrite Hd. eexists (_ :: _ :: _ :: evs), last_error'. split.
    + reflexivity.
    + simpl. f_equal. f_equal. exact Hevs.
Qed.

Lemma posts_failed (l : list Z) :
  posts (flat_map (failed_attempt self) l) = l.
Proof. induction l as [|a l IH]; simpl; [|rewrite IH]; reflexivity. Qed.

Lemma sleeps_failed (l : list Z) :
  sleeps (flat_map (failed_attempt self) l)
  = map (fun a => (retry_delay self * inject_Z (a + 1))%Q) l.
Proof. induction l as [|a l IH]; simpl; [|rewrite IH]; reflexivity. Qed.

Lemma range_split :
  range (max_retries self)
  = map Z.of_nat (seq 0 (Z.to_nat k))
    ++ k :: map Z.of_nat (seq (S (Z.to_nat k))
                            (Z.to_nat (max_retries self - k - 1))).
Proof.
  unfold range.
  replace (Z.to_nat (max_retries self))
    with (Z.to_nat k + S (Z.to_nat (max_retries self - k - 1)))%nat by lia.
  rewrite seq_app, map_app. simpl. f_equal. f_equal. lia.
Qed.

Lemma range_last : range (k + 1) = map Z.of_nat (seq 0 (Z.to_nat k)) ++ [k].
Proof.
  unfold range. replace (Z.to_nat (k + 1)) with (S (Z.to_nat k)) by lia.
  rewrite seq_S, map_app. simpl. do 2 f_equal. lia.
Qed.

(** X6: the first answer whose parse returns ends the call. When the
    attempts before attempt [k] fail, attempt [k] is answered and
    [_parse_json_response] returns [v] on the answer (none when no
    candidate is valid JSON), [generate] returns that answer with [v],
    success exactly when [v] is not none, no error field and [k + 1] as the
    attempt count; it has posted [k + 1] times and paused after each
    failure. An answer in which no JSON is found is returned as it is, it
    is not retried. *)
Theorem generate_returns_first_answer (raw : string) (v : json)
    (prompt : string) (system_prompt : option string) (temperature : float)
    (max_tokens : Z) (seed : option Z) (json_schema : option json) :
  (forall url payload t, requests_post url payload t k = Responded raw) ->
  _parse_json_response json_loads raw = Parsed v ->
  exists evs,
    generate json_loads requests_post self prompt system_prompt temperature
      max_tokens seed json_schema
    = (evs,
       Ok {| response := Some raw;
             parsed := v;
             success := negb (is_none v);
             error := None;
             result_model := model self;
             attempt_count := k + 1 |})
    /\ posts evs = range (k + 1)
    /\ sleeps evs
       = map (fun a => (retry_delay self * inject_Z (a + 1))%Q) (range k).
Proof.
  intros Hanswer Hparse. unfold generate.
  match goal with
  | |- context [attempt_loop _ _ _ ?u ?p _ _] =>
      set (url := u); set (payload := p)
  end.
  rewrite range_split.
  destruct (attempt_loop_failures url payload
              (k :: map Z.of_nat (seq (S (Z.to_nat k))
                                    (Z.to_nat (max_retries self - k - 1))))
              (Z.to_nat k) 0 None ltac:(lia))
    as (evs & last_error' & Hrun & Hevs).
  rewrite Hrun. cbn [attempt_loop]. unfold try_block.
  rewrite Hanswer, Hparse. cbn [fst snd].
  exists (evs ++ [Post k]). split; [reflexivity|].
  rewrite posts_app, sleeps_app, <- without_prints_posts,
    <- without_prints_sleeps, Hevs, posts_failed, sleeps_failed.
  split.
  - rewrite range_last. reflexivity.
  - simpl. rewrite app_nil_r. reflexivity.
Qed.

(** X7: an interrupt is not swallowed. When the attempts before attempt
    [k] fail and attempt [k] is interrupted, [generate] raises the
    interrupt; it has posted [k + 1] times and posts no more. *)
Theorem generate_propagates_interrupt (prompt : string)
    (system_prompt : option string) (temperature : float) (max_tokens : Z)
    (seed : option Z) (json_schema : option json) :
  (forall url payload t, requests_post url payload t k = Interrupted) ->
  exists evs,
    generate json_loads requests_post self prompt system_prompt temperature
      max_tokens seed json_schema
    = (evs, Raise KeyboardInterrupt)
    /\ posts evs = range (k + 1)
    /\ sleeps evs
       = map (fun a => (retry_delay self * inject_Z (a + 1))%Q) (range k).
Proof.
  intros Hint. unfold generate.
  match goal with
  | |- context [attempt_loop _ _ _ ?u ?p _ _] =>
      set (url := u); set (payload := p)
  end.
  rewrite range_split.
  destruct (attempt_loop_failures url payload
              (k :: map Z.of_nat (seq (S (Z.to_nat k))
                                    (Z.to_nat (max_retries self - k - 1))))
              (Z.to_nat k) 0 None ltac:(lia))
    as (evs & last_error' & Hrun & Hevs).
  rewrite Hrun. cbn [attempt_loop]. unfold try_block. rewrite Hint.
  cbn [fst snd].
  exists (evs ++ [Post k]). split; [reflexivity|].
  rewrite posts_app, sleeps_app, <- without_prints_posts,
    <- without_prints_sleeps, Hevs, posts_failed, sleeps_failed.
  split.
  - rewrite range_last. reflexivity.
  - simpl. rewrite app_nil_r. reflexivity.
Qed.

End FirstOutcome.


Section WorstCase.

Variable json_loads : string -> loads_outcome.
Variable requests_post : string -> payload_t -> Z -> Z -> transport_outcome.
Variable self : OllamaClient.
Variable why : Z -> failure.

Hypothesis every_attempt_fails :
  forall url payload t a,
    0 <= a < max_retries self -> requests_post url payload t a = Failed (why a).
Hypothesis delay_nonneg : (0 <= retry_delay self)%Q.

Lemma total_app (l1 l2 : list Q) :
  (total (l1 ++ l2) == total l1 + total l2)%Q.
Proof.
  induction l1 as [|x l1 IH]; simpl.
  - ring.
  - rewrite IH. ring.
Qed.

Lemma total_delays (d : Q) (m : nat) :
  (total (map (fun a => d * inject_Z (a + 1)) (map Z.of_nat (seq 0 m)))
   == d * inject_Z (Z.of_nat m * (Z.of_nat m + 1)) / 2)%Q.
Proof.
  induction m as [|m IH].
  - simpl. unfold Qdiv. ring.
  - rewrite seq_S, !map_app, total_app, IH.
    cbn [map total fold_right Nat.add].
    replace (Z.of_nat (S m)) with (Z.of_nat m + 1) by lia.
    rewrite !inject_Z_mult, !inject_Z_plus. field.
Qed.

(** X8: the time a call can spend pausing. When every attempt fails, the
    pauses of a call to [generate] add up to [retry_delay] times
    [n * (n - 1) / 2], where [n] is the number of attempts made. *)
Theorem generate_total_pause (prompt : string)
    (system_prompt : option string) (temperature : float) (max_tokens : Z)
    (seed : option Z) (json_schema : option json) :
  let n := Z.max 0 (max_retries self) in
  (total (sleeps (fst (generate json_loads requests_post self prompt
                         system_prompt temperature max_tokens seed
                         json_schema)))
   == retry_delay self * inject_Z (n * (n - 1)) / 2)%Q
  /\ List.length (posts (fst (generate json_loads requests_post self prompt
                                system_prompt temperature max_tokens seed
                                json_schema)))
     = Z.to_nat n.
Proof.
  intros n. unfold generate.
  match goal with
  | |- context [attempt_loop _ _ _ ?u ?p _ _] =>
      set (url := u); set (payload := p)
  end.
  destruct (Z.ltb_spec 0 (max_retries self)) as [Hpos|Hnpos].
  - unfold range.
    destruct (attempt_loop_exhausted json_loads requests_post self why
                every_attempt_fails delay_nonneg url payload
                (Z.to_nat (max_retries self)) 0 None ltac:(lia))
      as (evs & Hrun & Hevs).
    rewrite Hrun. cbn [fst].
    rewrite <- without_prints_sleeps, <- without_prints_posts, Hevs.
    rewrite (sleeps_steps self) by lia.
    rewrite (posts_steps self), length_map, length_seq.
    split; [|subst n; lia].
    rewrite total_delays.
    replace (Z.of_nat (Z.to_nat (max_retries self) - 1)
             * (Z.of_nat (Z.to_nat (max_retries self) - 1) + 1))
      with (n * (n - 1)) by (subst n; nia).
    reflexivity.
  - rewrite range_nonpos by lia. cbn [attempt_loop fst sleeps posts flat_map].
    replace n with 0 by (subst n; lia).
    split; [|reflexivity]. unfold total, Qdiv. simpl fold_right.
    change (inject_Z (0 * (0 - 1))) with 0%Q. ring.
Qed.

End WorstCase.

Lemma generate_returns_first_answer_witness :
  exists evs,
    generate decode (answers_after 1 "not json at all") demo_client
      "Pull the lever?" None 0.2%float 512 None None
    = (evs,
       Ok {| response := Some "not json at all";
             parsed := JNull;
             success := false;
             error := None;
             result_model := "llama3";
             attempt_count := 2 |})
    /\ posts evs = [0; 1]
    /\ sleeps evs = [2 * inject_Z 1]%Q.
Proof.
  destruct (generate_returns_first_answer decode
              (answers_after 1 "not json at all") demo_client
              (fun _ => ConnectionError "refused") 1)
    with (raw := "not json at all") (v := JNull)
         (prompt := "Pull the lever?")
         (system_prompt := @None string) (temperature := 0.2%float)
         (max_tokens := 512) (seed := @None Z) (json_schema := @None json)
    as (evs & Hrun & Hposts & Hsleeps).
  - intros url payload t a Ha. unfold answers_after.
    destruct (Z.ltb_spec a 1); [reflexivity|lia].
  - vm_compute. split; [discriminate|reflexivity].
  - vm_compute. discriminate.
  - reflexivity.
  - vm_compute. reflexivity.
  - exists evs. split; [exact Hrun|]. split; [exact Hposts|exact Hsleeps].
Defined.

Lemma generate_propagates_interrupt_witness :
  exists evs,
    generate decode (interrupted_after 2) demo_client
      "Pull the lever?" None 0.2%float 512 None None
    = (evs, Raise KeyboardInterrupt)
    /\ posts evs = [0; 1; 2].
Proof.
  destruct (generate_propagates_interrupt decode (interrupted_after 2)
              demo_client (fun _ => Timeout) 2)
    with (prompt := "Pull the lever?")
         (system_prompt := @None string) (temperature := 0.2%float)
         (max_tokens := 512) (seed := @None Z) (json_schema := @None json)
    as (evs & Hrun & Hposts & _).
  - intros url payload t a Ha. unfold interrupted_after.
    destruct (Z.ltb_spec a 2); [reflexivity|lia].
  - vm_compute. split; [discriminate|reflexivity].
  - vm_compute. discriminate.
  - reflexivity.
  - exists evs. split; [exact Hrun|exact Hposts].
Defined.

Lemma generate_total_pause_witness :
  (total (sleeps (fst (generate decode always_times_out demo_client
                         "Pull the lever?" None 0.2%float 512 None None)))
   == 6)%Q.
Proof.
  destruct (generate_total_pause decode always_times_out demo_client
              (fun _ => Timeout) (fun _ _ _ _ _ => eq_refl)
              ltac:(vm_compute; discriminate)
              "Pull the lever?" None 0.2%float 512 None None)
    as [Htotal _].
  rewrite Htotal. vm_compute. reflexivity.
Defined.

End GenerateMoreProps.

(** ** Recovering JSON from a reply *)
Module RecoveryProps.
Import Py Json LlmClient Spec Notions ExtractionProps ClientSetupProps.
Local Open Scope string_scope.

Section Recovery.

Variable json_loads : string -> loads_outcome.

(** The candidates [_parse_json_response] tries, in order. *)
Lemma parse_candidates (text : string) :
  _parse_json_response json_loads text
  = if is_empty text then Parsed JNull
    else first_parsed json_loads (extraction_order text).
Proof.
  unfold _parse_json_response. destruct (is_empty text); [reflexivity|].
  unfold extraction_order. cbn [first_parsed].
  destruct (json_loads (strip text)) as [v| |e msg]; try reflexivity.
  unfold patterns, pattern_json, pattern_fence. cbn [try_patterns].
  replace (Re.contains "```" "```json\s*([\s\S]*?)\s*```") with true
    by reflexivity.
  replace (Re.contains "```" "```\s*([\s\S]*?)\s*```") with true
    by reflexivity.
  fold (fenced_pattern "```json"). fold (fenced_pattern fence).
  apply try_pattern_candidate; [apply search_fenced|].
  apply try_pattern_candidate; [apply search_fenced|].
  unfold pattern_object.
  replace (Re.contains "```" "\{[\s\S]*\}") with false by reflexivity.
  fold (snd pattern_object). fold object_pattern.
  apply try_pattern_candidate; [|reflexivity].
  rewrite <- search_object. unfold object_pattern, pattern_object.
  cbn [snd]. destruct (Re.search _ text); reflexivity.
Qed.

Lemma strip_prefix_app (p s : string) : Re.strip_prefix p (p ++ s) = Some s.
Proof.
  induction p as [|a p IH]; simpl; [destruct s; reflexivity|].
  rewrite Ascii.eqb_refl. exact IH.
Qed.

Lemma is_empty_app (a b : string) :
  is_empty (a ++ b) = is_empty a && is_empty b.
Proof. destruct a; reflexivity. Qed.

(** Text without a backtick holds no fenced block, and a fenced block is
    not found before the first backtick. *)
Lemma fenced_block_cons (opener : string) (c : ascii) (s : string) :
  fenced_block opener (String c s)
  = match
      match Re.strip_prefix opener (String c s) with
      | Some rest => before_first fence rest
      | None => None
      end
    with
    | Some interior => Some interior
    | None => fenced_block opener s
    end.
Proof. reflexivity. Qed.

Lemma no_char_cons (c a : ascii) (s : string) :
  no_char c (String a s) = true -> Ascii.eqb c a = false /\ no_char c s = true.
Proof.
  cbn [no_char]. intros H. apply andb_true_iff in H. destruct H as [Hc Hs].
  apply negb_true_iff in Hc. rewrite Ascii.eqb_sym in Hc. auto.
Qed.

Lemma fenced_block_skip (o pre s : string) :
  no_char backtick pre = true ->
  fenced_block (String backtick o) (pre ++ s)
  = fenced_block (String backtick o) s.
Proof.
  induction pre as [|c pre IH]; [reflexivity|].
  intros H. apply no_char_cons in H. destruct H as [Hc Hpre].
  change (String c pre ++ s) with (String c (pre ++ s)).
  rewrite fenced_block_cons, strip_prefix_cons, Hc. apply IH. exact Hpre.
Qed.

Lemma fenced_block_none (o s : string) :
  no_char backtick s = true -> fenced_block (String backtick o) s = None.
Proof.
  intros H. rewrite <- (append_nil_r s), fenced_block_skip by exact H.
  reflexivity.
Qed.

Lemma before_first_fence (inner post : string) :
  no_char backtick inner = true ->
  before_first fence (inner ++ fence ++ post) = Some inner.
Proof.
  induction inner as [|c inner IH].
  - intros _. change ("" ++ fence ++ post) with (fence ++ post).
    apply (before_first_here _ post). apply strip_prefix_app.
  - intros H. apply no_char_cons in H. destruct H as [Hc Hin].
    change (String c inner ++ fence ++ post)
      with (String c (inner ++ fence ++ post)).
    rewrite before_first_cons, (IH Hin); [reflexivity|].
    unfold fence. rewrite strip_prefix_cons. fold backtick. rewrite Hc.
    reflexivity.
Qed.

(** X9: JSON in a labelled fence is recovered. For a reply made of prose
    free of backticks, then a fence labelled json around text free of
    backticks that parses to [v], then anything: [_parse_json_response]
    returns [v] when [json.loads] rejects the reply as a whole with
    [JSONDecodeError]; a reply that is valid JSON as a whole wins, and any
    other exception of [json.loads] on the whole reply leaves the
    function. *)
Theorem parse_recovers_fenced_json (pre inner post : string) (v : json) :
  no_char backtick pre = true ->
  no_char backtick inner = true ->
  json_loads (strip inner) = Loaded v ->
  _parse_json_response json_loads
    (pre ++ "```json" ++ inner ++ "```" ++ post)
  = match json_loads (strip (pre ++ "```json" ++ inner ++ "```" ++ post)) with
    | Loaded whole => Parsed whole
    | DecodeError => Parsed v
    | OtherError e msg => ParseRaised e msg
    end.
Proof.
  intros Hpre Hinner Hv. rewrite parse_candidates.
  rewrite is_empty_app. simpl is_empty. rewrite andb_false_r.
  unfold extraction_order. cbn [first_parsed].
  destruct (json_loads (strip (pre ++ "```json" ++ inner ++ "```" ++ post)));
    try reflexivity.
  change "```json" with (String backtick "``json") at 1.
  rewrite fenced_block_skip by exact Hpre.
  change (fenced_block (String backtick "``json")
            ("```json" ++ inner ++ "```" ++ post))
    with (match before_first fence (inner ++ fence ++ post) with
          | Some interior => Some interior
          | None =>
              fenced_block "```json" ("``json" ++ inner ++ "```" ++ post)
          end).
  rewrite before_first_fence by exact Hinner.
  rewrite Hv. reflexivity.
Qed.


Lemma no_char_app (c : ascii) (a b : string) :
  no_char c (a ++ b) = no_char c a && no_char c b.
Proof.
  induction a as [|x a IH]; [reflexivity|].
  change (String x a ++ b) with (String x (a ++ b)).
  cbn [no_char]. rewrite IH, andb_assoc. reflexivity.
Qed.

Lemma from_first_skip (c : ascii) (pre s : string) :
  no_char c pre = true ->
  from_first c (pre ++ String c s) = Some (String c s).
Proof.
  induction pre as [|a pre IH].
  - intros _. simpl. rewrite Ascii.eqb_refl. reflexivity.
  - intros H. apply no_char_cons in H. destruct H as [Hc Hpre].
    change (String a pre ++ String c s) with (String a (pre ++ String c s)).
    cbn [from_first]. rewrite Ascii.eqb_sym, Hc. apply IH. exact Hpre.
Qed.

Lemma through_last_none (c : ascii) (s : string) :
  no_char c s = true -> through_last c s = None.
Proof.
  induction s as [|a s IH]; [reflexivity|].
  intros H. apply no_char_cons in H. destruct H as [Hc Hs].
  cbn [through_last]. rewrite (IH Hs), Ascii.eqb_sym, Hc. reflexivity.
Qed.

Lemma through_last_app (c : ascii) (s post : string) :
  no_char c post = true ->
  through_last c (s ++ String c post) = Some (s ++ String c "").
Proof.
  intros Hpost. induction s as [|a s IH].
  - change ("" ++ String c post) with (String c post).
    cbn [through_last]. rewrite (through_last_none c post Hpost).
    rewrite Ascii.eqb_refl. reflexivity.
  - change (String a s ++ String c post)
      with (String a (s ++ String c post)).
    cbn [through_last]. rewrite IH. reflexivity.
Qed.

Lemma rstrip_keeps_end (c : ascii) (s : string) :
  is_space c = false -> rstrip (s ++ String c "") = s ++ String c "".
Proof.
  intros Hc. induction s as [|a s IH].
  - simpl. rewrite Hc. reflexivity.
  - change (String a s ++ String c "") with (String a (s ++ String c "")).
    rewrite rstrip_cons, IH. destruct s; reflexivity.
Qed.

(** X10: an object stated within prose is recovered. For a reply without
    backticks in which the text from the first opening brace to the last
    closing brace parses to [v], [_parse_json_response] returns [v] when
    [json.loads] rejects the reply as a whole with [JSONDecodeError]; a
    reply that is valid JSON as a whole wins, and any other exception of
    [json.loads] on the whole reply leaves the function. *)
Theorem parse_recovers_embedded_object (pre body post : string) (v : json) :
  no_char backtick (pre ++ "{" ++ body ++ "}" ++ post) = true ->
  no_char "{" pre = true ->
  no_char "}" post = true ->
  json_loads ("{" ++ body ++ "}") = Loaded v ->
  _parse_json_response json_loads (pre ++ "{" ++ body ++ "}" ++ post)
  = match json_loads (strip (pre ++ "{" ++ body ++ "}" ++ post)) with
    | Loaded whole => Parsed whole
    | DecodeError => Parsed v
    | OtherError e msg => ParseRaised e msg
    end.
Proof.
  intros Hticks Hpre Hpost Hv. rewrite parse_candidates.
  rewrite is_empty_app. simpl is_empty. rewrite andb_false_r.
  unfold extraction_order. cbn [first_parsed].
  destruct (json_loads (strip (pre ++ "{" ++ body ++ "}" ++ post)));
    try reflexivity.
  change "```json" with (String backtick "``json").
  unfold fence. change "```" with (String backtick "``") at 1.
  rewrite !fenced_block_none by exact Hticks.
  unfold brace_span.
  change ("{" ++ body ++ "}" ++ post) with (String "{" (body ++ "}" ++ post)).
  rewrite from_first_skip by exact Hpre.
  change ("}" ++ post) with (String "}" post).
  rewrite through_last_app by exact Hpost.
  cbn [option_map].
  replace (strip (String "{" (body ++ "}")))
    with ("{" ++ body ++ "}"); [rewrite Hv; reflexivity|].
  unfold strip. rewrite lstrip_nonspace by reflexivity.
  change (String "{" (body ++ "}")) with (("{" ++ body) ++ "}").
  rewrite rstrip_keeps_end by reflexivity.
  rewrite append_assoc. reflexivity.
Qed.

Lemma part_of_refl (s : string) : part_of s s.
Proof. exists "", "". rewrite append_nil_r. reflexivity. Qed.

Lemma part_of_trans (a b c : string) :
  part_of a b -> part_of b c -> part_of a c.
Proof.
  intros (x & y & ->) (u & v & ->). exists (u ++ x), (y ++ v).
  rewrite !append_assoc. reflexivity.
Qed.

Lemma part_of_cons (c : ascii) (s text : string) :
  part_of s text -> part_of s (String c text).
Proof. intros (x & y & ->). exists (String c x), y. reflexivity. Qed.

Lemma strip_prefix_sound (p s r : string) :
  Re.strip_prefix p s = Some r -> s = p ++ r.
Proof.
  revert s. induction p as [|a p IH]; intros s.
  - destruct s; intros [= <-]; reflexivity.
  - destruct s as [|b s]; [discriminate|].
    rewrite strip_prefix_cons.
    destruct (Ascii.eqb_spec a b) as [<-|]; [|discriminate].
    intros H. simpl. f_equal. apply IH. exact H.
Qed.

Lemma before_first_sound (needle s p : string) :
  before_first needle s = Some p -> exists q, s = p ++ q.
Proof.
  revert p. induction s as [|c s IH]; intros p; cbn [before_first].
  - destruct (Re.strip_prefix needle ""); [|discriminate].
    intros [= <-]. exists "". reflexivity.
  - destruct (Re.strip_prefix needle (String c s)).
    + intros [= <-]. exists (String c s). reflexivity.
    + destruct (before_first needle s) as [p'|]; [|discriminate].
      intros [= <-]. destruct (IH p' eq_refl) as [q ->].
      exists q. reflexivity.
Qed.

Lemma fenced_block_part (opener text interior : string) :
  fenced_block opener text = Some interior -> part_of interior text.
Proof.
  induction text as [|c text IH].
  - cbn [fenced_block].
    destruct (Re.strip_prefix opener "") as [rest|] eqn:E; [|discriminate].
    destruct (before_first fence rest) as [i|] eqn:Eb; [|discriminate].
    intros [= <-]. apply strip_prefix_sound in E.
    destruct (before_first_sound _ _ _ Eb) as [q ->].
    exists opener, q. exact E.
  - rewrite fenced_block_cons.
    destruct (Re.strip_prefix opener (String c text)) as [rest|] eqn:E.
    + destruct (before_first fence rest) as [i|] eqn:Eb.
      * intros [= <-]. apply strip_prefix_sound in E.
        destruct (before_first_sound _ _ _ Eb) as [q ->].
        exists opener, q. exact E.
      * intros H. apply part_of_cons, IH. exact H.
    + intros H. apply part_of_cons, IH. exact H.
Qed.

Lemma from_first_sound (c : ascii) (s t : string) :
  from_first c s = Some t -> exists pre, s = pre ++ t.
Proof.
  induction s as [|a s IH]; cbn [from_first]; [discriminate|].
  destruct (Ascii.eqb a c).
  - intros [= <-]. exists "". reflexivity.
  - intros H. destruct (IH H) as [pre ->]. exists (String a pre). reflexivity.
Qed.

Lemma through_last_sound (c : ascii) (s p : string) :
  through_last c s = Some p -> exists q, s = p ++ q.
Proof.
  revert p. induction s as [|a s IH]; intros p; cbn [through_last];
    [discriminate|].
  destruct (through_last c s) as [p'|].
  - intros [= <-]. destruct (IH p' eq_refl) as [q ->]. exists q. reflexivity.
  - destruct (Ascii.eqb a c); [|discriminate].
    intros [= <-]. exists s. reflexivity.
Qed.

Lemma brace_span_part (text span : string) :
  brace_span text = Some span -> part_of span text.
Proof.
  unfold brace_span.
  destruct (from_first "{" text) as [[|a body]|] eqn:E; try discriminate.
  destruct (through_last "}" body) as [p|] eqn:Et; [|discriminate].
  intros [= <-]. destruct (from_first_sound _ _ _ E) as [pre ->].
  destruct (through_last_sound _ _ _ Et) as [q ->].
  exists pre, q. reflexivity.
Qed.

Lemma lstrip_part (s : string) : exists a, s = a ++ lstrip s.
Proof.
  induction s as [|c s [a IH]]; [exists ""; reflexivity|].
  destruct (is_space c) eqn:E.
  - rewrite lstrip_space by exact E. exists (String c a). simpl. f_equal.
    exact IH.
  - rewrite lstrip_nonspace by exact E. exists "". reflexivity.
Qed.

Lemma rstrip_part (s : string) : exists b, s = rstrip s ++ b.
Proof.
  induction s as [|c s [b IH]]; [exists ""; reflexivity|].
  rewrite rstrip_cons. destruct (rstrip s) as [|x r].
  - destruct (is_space c).
    + exists (String c s). reflexivity.
    + exists b. simpl in *. f_equal. exact IH.
  - exists b. simpl in *. f_equal. exact IH.
Qed.

Lemma strip_part (s : string) : part_of (strip s) s.
Proof.
  unfold strip. destruct (lstrip_part s) as [a Ha].
  destruct (rstrip_part (lstrip s)) as [b Hb].
  exists a, b. rewrite <- Hb. exact Ha.
Qed.

(** X11: what [_parse_json_response] returns was read from the reply: a
    value other than none is what [json.loads] makes of a contiguous part
    of the text, and an exception that leaves the function is one that
    [json.loads] raises on such a part; none is returned for the empty
    text. *)
Theorem parse_result_is_read_from_the_text (text : string) :
  (forall v,
      _parse_json_response json_loads text = Parsed v -> v <> JNull ->
      exists s, part_of s text /\ json_loads s = Loaded v)
  /\ (forall e msg,
        _parse_json_response json_loads text = ParseRaised e msg ->
        exists s, part_of s text /\ json_loads s = OtherError e msg)
  /\ _parse_json_response json_loads "" = Parsed JNull.
Proof.
  assert (Hparts : Forall (fun oc => forall c, oc = Some c -> part_of c text)
                     (extraction_order text)).
  { unfold extraction_order. repeat constructor.
    - intros c [= <-]. apply part_of_refl.
    - intros c. apply fenced_block_part.
    - intros c. apply fenced_block_part.
    - intros c. apply brace_span_part. }
  split; [|split; [|reflexivity]].
  - intros v. rewrite parse_candidates.
    destruct (is_empty text); [congruence|].
    induction Hparts as [|oc cands Hoc _ IH]; cbn [first_parsed];
      [congruence|].
    destruct oc as [c|]; [|exact IH].
    destruct (json_loads (strip c)) as [v'| |e msg] eqn:E;
      [|exact IH|discriminate].
    intros [= ->] _. exists (strip c). split; [|exact E].
    apply (part_of_trans _ c); [apply strip_part|apply Hoc; reflexivity].
  - intros e msg. rewrite parse_candidates.
    destruct (is_empty text); [discriminate|].
    induction Hparts as [|oc cands Hoc _ IH]; cbn [first_parsed];
      [discriminate|].
    destruct oc as [c|]; [|exact IH].
    destruct (json_loads (strip c)) as [v'| |e' msg'] eqn:E;
      [discriminate|exact IH|].
    intros [= -> ->]. exists (strip c). split; [|exact E].
    apply (part_of_trans _ c); [apply strip_part|apply Hoc; reflexivity].
Qed.

End Recovery.


Lemma parse_recovers_fenced_json_witness :
  _parse_json_response decode fenced_reply
  = Parsed (JObj [("stance", JStr "PULL_LEVER")]).
Proof.
  apply (parse_recovers_fenced_json decode ("Here is my answer:" ++ newline)
           (newline ++ dq "{'stance': 'PULL_LEVER'}" ++ newline)
           (newline ++ "I hope this helps.")
           (JObj [("stance", JStr "PULL_LEVER")]));
    vm_compute; reflexivity.
Defined.

Lemma parse_recovers_embedded_object_witness :
  _parse_json_response decode prose_reply
  = Parsed (JObj [("stance", JStr "DO_NOT_PULL")]).
Proof.
  apply (parse_recovers_embedded_object decode "My answer is "
           (dq "'stance': 'DO_NOT_PULL'") " as requested."
           (JObj [("stance", JStr "DO_NOT_PULL")]));
    vm_compute; reflexivity.
Defined.

End RecoveryProps.

(** ** The display of statistics *)
Module DisplayProps.
Import Py Utils Display Notions.
Local Open Scope string_scope.

Lemma ascii_compare_refl (a : ascii) : Ascii.compare a a = Eq.
Proof. unfold Ascii.compare. apply N.compare_refl. Qed.

Lemma ascii_compare_lt_trans (a b c : ascii) :
  Ascii.compare a b = Lt -> Ascii.compare b c = Lt -> Ascii.compare a c = Lt.
Proof.
  unfold Ascii.compare. rewrite !N.compare_lt_iff. apply N.lt_trans.
Qed.

Lemma string_compare_refl (s : string) : String.compare s s = Eq.
Proof.
  induction s as [|a s IH]; simpl; [reflexivity|].
  rewrite ascii_compare_refl. exact IH.
Qed.

Lemma string_compare_lt_trans (s t u : string) :
  String.compare s t = Lt -> String.compare t u = Lt ->
  String.compare s u = Lt.
Proof.
  revert t u. induction s as [|a s IH]; intros [|b t] [|c u]; simpl;
    try discriminate; try reflexivity.
  destruct (Ascii.compare a b) eqn:Eab; try discriminate.
  - apply Ascii.compare_eq_iff in Eab. subst b.
    destruct (Ascii.compare a c); try discriminate; try reflexivity.
    apply IH.
  - intros _. destruct (Ascii.compare b c) eqn:Ebc; try discriminate.
    + apply Ascii.compare_eq_iff in Ebc. subst c. rewrite Eab. reflexivity.
    + rewrite (ascii_compare_lt_trans a b c Eab Ebc). reflexivity.
Qed.

Lemma item_compare_antisym (a b : string * Z) :
  item_compare a b = CompOpp (item_compare b a).
Proof.
  unfold item_compare. rewrite (String.compare_antisym (fst a) (fst b)).
  destruct (String.compare (fst b) (fst a)); simpl; try reflexivity.
  apply Z.compare_antisym.
Qed.

Lemma item_compare_eq (a b : string * Z) : item_compare a b = Eq -> a = b.
Proof.
  unfold item_compare. destruct a as [k v], b as [k' v']. simpl.
  destruct (String.compare k k') eqn:E; try discriminate.
  apply String.compare_eq_iff in E. intros H. apply Z.compare_eq in H.
  congruence.
Qed.

Lemma item_compare_lt_trans (a b c : string * Z) :
  item_compare a b = Lt -> item_compare b c = Lt -> item_compare a c = Lt.
Proof.
  unfold item_compare. destruct a as [k1 v1], b as [k2 v2], c as [k3 v3].
  simpl.
  destruct (String.compare k1 k2) eqn:E12; try discriminate.
  - apply String.compare_eq_iff in E12. subst k2.
    destruct (String.compare k1 k3); try discriminate; try reflexivity.
    rewrite !Z.compare_lt_iff. apply Z.lt_trans.
  - intros _. destruct (String.compare k2 k3) eqn:E23; try discriminate.
    + apply String.compare_eq_iff in E23. subst k3. rewrite E12. reflexivity.
    + rewrite (string_compare_lt_trans k1 k2 k3 E12 E23). reflexivity.
Qed.

Lemma item_le_cases (a b : string * Z) :
  item_le a b <-> a = b \/ item_compare a b = Lt.
Proof.
  unfold item_le, item_leb. destruct (item_compare a b) eqn:E.
  - apply item_compare_eq in E. tauto.
  - tauto.
  - split; [discriminate|]. intros [->|H]; [|discriminate].
    unfold item_compare in E. rewrite string_compare_refl, Z.compare_refl in E.
    discriminate.
Qed.

Lemma item_le_trans (a b c : string * Z) :
  item_le a b -> item_le b c -> item_le a c.
Proof.
  rewrite !item_le_cases. intros [->|H1] [->|H2]; auto.
  right. eapply item_compare_lt_trans; eauto.
Qed.

Lemma item_le_antisym (a b : string * Z) : item_le a b -> item_le b a -> a = b.
Proof.
  rewrite !item_le_cases. intros [->|H1] [H2|H2]; auto.
  rewrite item_compare_antisym, H1 in H2. discriminate.
Qed.

Lemma item_le_total (a b : string * Z) : item_le a b \/ item_le b a.
Proof.
  unfold item_le, item_leb. rewrite (item_compare_antisym b a).
  destruct (item_compare a b); simpl; auto.
Qed.

Lemma insert_item_perm (x : string * Z) (l : list (string * Z)) :
  Permutation (insert_item x l) (x :: l).
Proof.
  induction l as [|y l IH]; simpl; [reflexivity|].
  destruct (item_leb x y); [reflexivity|].
  rewrite IH. apply perm_swap.
Qed.

Lemma sorted_perm (l : list (string * Z)) : Permutation (sorted l) l.
Proof.
  induction l as [|x l IH]; simpl; [reflexivity|].
  rewrite insert_item_perm, IH. reflexivity.
Qed.

Lemma insert_item_sorted (x : string * Z) (l : list (string * Z)) :
  StronglySorted item_le l -> StronglySorted item_le (insert_item x l).
Proof.
  induction 1 as [|y l Hl IH Hy]; simpl.
  - repeat constructor.
  - destruct (item_leb x y) eqn:E.
    + constructor; [constructor; assumption|].
      constructor; [exact E|].
      rewrite Forall_forall in *. intros z Hz.
      apply (item_le_trans x y z E). apply Hy. exact Hz.
    + constructor; [exact IH|].
      rewrite Forall_forall in *. intros z Hz.
      apply (Permutation_in _ (insert_item_perm x l)) in Hz.
      destruct Hz as [<-|Hz]; [|apply Hy; exact Hz].
      destruct (item_le_total x y) as [H|H]; [|exact H].
      unfold item_le in H. congruence.
Qed.

Lemma sorted_sorted (l : list (string * Z)) : StronglySorted item_le (sorted l).
Proof.
  induction l as [|x l IH]; simpl; [constructor|].
  apply insert_item_sorted. exact IH.
Qed.

(** Two sorted lists with the same items are the same list. *)
Lemma sorted_unique (l1 l2 : list (string * Z)) :
  StronglySorted item_le l1 -> StronglySorted item_le l2 ->
  Permutation l1 l2 -> l1 = l2.
Proof.
  intros H1. revert l2. induction H1 as [|x l1 Hl1 IH Hx]; intros l2 H2 Hp.
  - apply Permutation_nil in Hp. congruence.
  - destruct H2 as [|y l2 Hl2 Hy].
    + apply Permutation_sym, Permutation_nil in Hp. discriminate.
    + assert (x = y).
      { rewrite Forall_forall in Hx, Hy.
        assert (Hyin : In y (x :: l1))
          by (apply (Permutation_in _ (Permutation_sym Hp)); left; reflexivity).
        assert (Hxin : In x (y :: l2))
          by (apply (Permutation_in _ Hp); left; reflexivity).
        destruct Hyin as [->|Hyin]; [reflexivity|].
        destruct Hxin as [->|Hxin]; [reflexivity|].
        apply item_le_antisym; [apply Hx|apply Hy]; assumption. }
      subst y. f_equal. apply IH; [exact Hl2|].
      apply Permutation_cons_inv in Hp. exact Hp.
Qed.

(** X12: the display of statistics does not depend on the order in which
    the stances entered the dictionary: it lists them sorted by name, each
    as [name: count], separated by [ | ]; nothing is displayed for empty
    statistics. *)
Theorem display_is_independent_of_insertion_order :
  (forall stats stats',
      Permutation stats stats' ->
      format_stats_for_display stats = format_stats_for_display stats')
  /\ (forall stats,
        StronglySorted item_le (sorted stats)
        /\ Permutation (sorted stats) stats)
  /\ format_stats_for_display [] = ""
  /\ format_stats_for_display [("PULL_LEVER", 3%Z); ("DO_NOT_PULL", 2%Z)]
     = "DO_NOT_PULL: 2 | PULL_LEVER: 3".
Proof.
  split; [|split; [|split; vm_compute; reflexivity]].
  - intros stats stats' Hp. unfold format_stats_for_display.
    rewrite (sorted_unique (sorted stats) (sorted stats')); [reflexivity| | |].
    + apply sorted_sorted.
    + apply sorted_sorted.
    + rewrite !sorted_perm. exact Hp.
  - intros stats. split; [apply sorted_sorted|apply sorted_perm].
Qed.

End DisplayProps.

(** ** Peer sampling without a seed, and with a negative sample size *)
Module PeerSamplerMoreProps.
Import Py Config Utils Spec PeerSamplerProps.
Local Open Scope string_scope.
Local Open Scope list_scope.

Section AnySeed.

Variable rng : Type.
Variable Random : Z -> rng.
Variable sample : forall A : Type, rng -> list A -> Z -> result (list A * rng).
Hypothesis sample_ok : sample_contract rng sample.

(** X13: without a seed, [sample_peers] draws from the process-wide
    generator and leaves it in the state the draw ends in; for a population
    with distinct ids and a sample size [0 <= k], the list returned has
    [min(k, number of other agents)] entries, never holds the invoking
    agent, holds no agent twice, holds only other agents of the population
    as they are, and is sorted by agent id. The invoking agent need not be
    in the population. *)
Theorem sample_peers_unseeded (agents : list Agent) (cur : string) (k : Z)
    (g : rng) :
  NoDup (map id agents) -> (0 <= k)%Z ->
  exists peers sampled g',
    sample_peers rng Random sample g agents cur k None = (Ok peers, g')
    /\ sample Agent g (others cur agents)
         (Z.min k (Z.of_nat (List.length (others cur agents))))
       = Ok (sampled, g')
    /\ Z.of_nat (List.length peers)
       = Z.min k (Z.of_nat (List.length (others cur agents)))
    /\ ~ In cur (map peer_id peers)
    /\ NoDup (map peer_id peers)
    /\ (forall p, In p peers ->
          exists a, In a agents /\ id a <> cur /\ p = peer_state a)
    /\ Sorted peer_id_le peers.
Proof.
  intros Hnd Hk. unfold sample_peers. fold (others cur agents).
  set (pool := others cur agents) in *.
  set (size := Z.min k (Z.of_nat (List.length pool))).
  pose proof (sample_ok Agent g pool size) as Hc.
  replace ((0 <=? size) && (size <=? Z.of_nat (List.length pool)))%Z
    with true in Hc
    by (symmetry; apply andb_true_iff; split; apply Z.leb_le; lia).
  destruct Hc as (l & g' & Hs & Hl & rest & Hperm).
  rewrite Hs. exists (map peer_state (sort_by_id l)), l, g'.
  assert (Hsub : forall a, In a l -> In a agents /\ id a <> cur).
  { intros a Ha. apply (others_spec cur agents a). fold pool.
    apply (Permutation_in _ Hperm). apply in_or_app. left. exact Ha. }
  assert (Hndl : NoDup (map id l)).
  { pose proof (others_nodup cur agents Hnd) as Hp. fold pool in Hp.
    apply (Permutation_NoDup (Permutation_map id (Permutation_sym Hperm)))
      in Hp.
    rewrite map_app in Hp. apply NoDup_app_remove_r in Hp. exact Hp. }
  split; [reflexivity|]. split; [reflexivity|].
  rewrite map_peer_state_ids, length_map.
  rewrite (Permutation_length (sort_by_id_perm l)).
  split; [exact Hl|]. split.
  { intros Hc. apply in_map_iff in Hc. destruct Hc as (a & Ha & Hc).
    apply (Permutation_in _ (sort_by_id_perm l)) in Hc.
    apply Hsub in Hc. tauto. }
  split.
  { apply (Permutation_NoDup
             (Permutation_map id (Permutation_sym (sort_by_id_perm l)))).
    exact Hndl. }
  split.
  { intros p Hp. apply in_map_iff in Hp. destruct Hp as (a & <- & Ha).
    apply (Permutation_in _ (sort_by_id_perm l)) in Ha.
    exists a. destruct (Hsub a Ha). auto. }
  apply map_peer_state_sorted, sort_by_id_sorted.
Qed.

(** X14: a negative sample size is an error. Whatever the seed,
    [sample_peers] with [k < 0] raises [ValueError] and leaves the
    process-wide generator as it was. *)
Theorem sample_peers_negative_size (agents : list Agent) (cur : string)
    (k : Z) (seed : option Z) (g : rng) :
  (k < 0)%Z ->
  sample_peers rng Random sample g agents cur k seed = (Raise ValueError, g).
Proof.
  intros Hk. unfold sample_peers.
  set (pool := filter _ agents).
  set (size := Z.min k (Z.of_nat (List.length pool))).
  assert (Hbad : forall g0, sample Agent g0 pool size = Raise ValueError).
  { intros g0. pose proof (sample_ok Agent g0 pool size) as Hc.
    replace ((0 <=? size) && (size <=? Z.of_nat (List.length pool)))%Z
      with false in Hc; [exact Hc|].
    symmetry. apply andb_false_iff. left. apply Z.leb_gt. lia. }
  destruct seed; rewrite Hbad; reflexivity.
Qed.

End AnySeed.

Lemma sample_peers_unseeded_witness :
  exists peers,
    sample_peers demo_rng demo_Random demo_sample 7%Z population "agent_1" 1
      None = (Ok peers, 8%Z)
    /\ map peer_id peers = ["agent_2"].
Proof.
  destruct (sample_peers_unseeded demo_rng demo_Random demo_sample
              demo_sample_contract population "agent_1" 1 7%Z)
    as (peers & sampled & g' & H1 & H2 & _).
  - vm_compute. repeat constructor; simpl; intuition discriminate.
  - lia.
  - vm_compute in H2. injection H2 as _ <-.
    exists peers. split; [exact H1|].
    vm_compute in H1. injection H1 as <-. reflexivity.
Defined.

Lemma sample_peers_negative_size_witness :
  sample_peers demo_rng demo_Random demo_sample 7%Z population "agent_1"
    (-1) (Some 42%Z)
  = (Raise ValueError, 7%Z).
Proof.
  apply (sample_peers_negative_size demo_rng demo_Random demo_sample
           demo_sample_contract).
  lia.
Defined.

End PeerSamplerMoreProps.

(** ** Collapse detection as the history grows *)
Module CollapseMoreProps.
Import Py Utils Spec PyFacts.

Lemma find_range_least (f : Z -> bool) (n i : Z) :
  (0 <= i < n)%Z -> f i = true ->
  (forall j, (0 <= j < i)%Z -> f j = false) ->
  find f (range n) = Some i.
Proof.
  intros Hi Hf Hmin. destruct (find f (range n)) as [i'|] eqn:E.
  - apply find_range_some in E. destruct E as (Hi' & Hf' & Hmin').
    f_equal. destruct (Z.lt_trichotomy i i') as [H|[H|H]].
    + rewrite Hmin' in Hf by lia. discriminate.
    + symmetry. exact H.
    + rewrite Hmin in Hf' by lia. discriminate.
  - rewrite (find_range_none f n E) in Hf by lia. discriminate.
Qed.

(** A window that fits in the history is not affected by later rounds. *)
Lemma slice_app_fits {A} (l more : list A) (i w : Z) :
  (0 <= i)%Z -> (0 <= w)%Z -> (i + w <= Z.of_nat (List.length l))%Z ->
  slice (l ++ more) i (i + w) = slice l i (i + w).
Proof.
  intros Hi Hw Hfit.
  rewrite !slice_window by (try rewrite length_app; lia).
  rewrite skipn_app, firstn_app.
  replace (Z.to_nat w - List.length (skipn (Z.to_nat i) l))%nat with 0%nat
    by (rewrite length_skipn; lia).
  rewrite firstn_O, app_nil_r. reflexivity.
Qed.

Lemma time_to_collapse_nonempty (h : float) (l : list float) (thr : float)
    (w : Z) :
  calculate_time_to_collapse (h :: l) thr w
  = find (slice_below (h :: l) thr w)
      (range (Z.of_nat (List.length (h :: l)) - w + 1)).
Proof. reflexivity. Qed.

(** X15: a collapse, once detected, stays where it is. If the history
    collapses at round [i], every continuation of the history collapses at
    round [i] as well; and if a history that has not collapsed is continued
    and then collapses at round [j], the window of [j] reaches into the
    continuation. (Window size at least one.) *)
Theorem collapse_is_stable_under_continuation (history more : list float)
    (thr : float) (w : Z) :
  (0 < w)%Z ->
  match calculate_time_to_collapse history thr w with
  | Some i => calculate_time_to_collapse (history ++ more) thr w = Some i
  | None =>
      forall j,
        calculate_time_to_collapse (history ++ more) thr w = Some j ->
        (Z.of_nat (List.length history) < j + w)%Z
  end.
Proof.
  intros Hw. destruct history as [|h0 history].
  - intros j Hj. simpl app in Hj. destruct more as [|m0 more];
      [discriminate|].
    rewrite time_to_collapse_nonempty in Hj.
    apply find_range_some in Hj. simpl List.length. lia.
  - change ((h0 :: history) ++ more) with (h0 :: (history ++ more)).
    rewrite !time_to_collapse_nonempty.
    change (h0 :: (history ++ more)) with ((h0 :: history) ++ more).
    set (hist := h0 :: history).
    set (n := Z.of_nat (List.length hist)).
    assert (Hlen : Z.of_nat (List.length (hist ++ more))
                   = (n + Z.of_nat (List.length more))%Z)
      by (rewrite length_app; lia).
    destruct (find (slice_below hist thr w) (range (n - w + 1)))
      as [i|] eqn:Hfind.
    + apply find_range_some in Hfind. destruct Hfind as (Hr & Hi & Hmin).
      apply find_range_least.
      * lia.
      * unfold slice_below in *. rewrite slice_app_fits by lia. exact Hi.
      * intros j Hj. unfold slice_below in *.
        rewrite slice_app_fits by lia. apply Hmin. exact Hj.
    + intros j Hj. apply find_range_some in Hj.
      destruct Hj as (Hr & Hj & _).
      destruct (Z.ltb_spec n (j + w)) as [|Hfit]; [assumption|].
      unfold slice_below in Hj. rewrite slice_app_fits in Hj by lia.
      pose proof (find_range_none _ _ Hfind j ltac:(lia)) as Hno.
      unfold slice_below in Hno. congruence.
Qed.

Lemma collapse_is_stable_under_continuation_witness :
  calculate_time_to_collapse ([1.0; 0.4; 0.3] ++ [0.9; 1.0])%float
    default_threshold default_consecutive_rounds
  = Some 1%Z.
Proof.
  apply (collapse_is_stable_under_continuation [1.0; 0.4; 0.3]%float
           [0.9; 1.0]%float default_threshold default_consecutive_rounds).
  reflexivity.
Defined.

End CollapseMoreProps.

(** ** The entropy of a population *)
Module PopulationEntropyProps.
Import Py Config Utils Spec Notions DistributionProps EntropyProps.
Local Open Scope R_scope.

Lemma value_injective (s t : Stance) : value s = value t -> s = t.
Proof. destruct s, t; simpl; intros H; try reflexivity; discriminate H. Qed.

Lemma all_stances_complete (s : Stance) : In s all_stances.
Proof. destruct s; simpl; tauto. Qed.

Lemma all_stances_nodup : NoDup all_stances.
Proof.
  unfold all_stances.
  repeat (constructor; [simpl; intuition discriminate|]). constructor.
Qed.

Lemma entropy_terms_fold (total : Z) (d : distribution_t) :
  entropy_terms total (values d)
  = fold_right (fun kv r => entropy_term total (snd kv) + r) 0 d.
Proof.
  unfold entropy_terms, values.
  induction d as [|kv d IH]; simpl; [reflexivity|]. rewrite IH. reflexivity.
Qed.

(** A sum over the stances in which one stance is singled out. *)
Lemma sum_single_out (h : Stance -> R) (a : R) (s0 : Stance)
    (stances : list Stance) :
  NoDup stances -> In s0 stances ->
  fold_right
    (fun s r => (if String.eqb (value s0) (value s) then a else h s) + r)
    0 stances
  = a + fold_right (fun s r => h s + r) 0 stances - h s0.
Proof.
  induction 1 as [|s stances Hnotin Hnd IH]; simpl; [tauto|].
  intros [->|Hin].
  - rewrite String.eqb_refl.
    assert (Hrest :
      fold_right
        (fun s r => (if String.eqb (value s0) (value s) then a else h s) + r)
        0 stances
      = fold_right (fun s r => h s + r) 0 stances).
    { clear IH Hnd. induction stances as [|t stances IH]; simpl;
        [reflexivity|].
      destruct (String.eqb_spec (value s0) (value t)) as [E|_].
      - apply value_injective in E. subst t. exfalso. apply Hnotin.
        left. reflexivity.
      - rewrite IH; [reflexivity|]. intros Hc. apply Hnotin. right. exact Hc. }
    rewrite Hrest. lra.
  - destruct (String.eqb_spec (value s0) (value s)) as [E|_].
    + apply value_injective in E. subst s. contradiction.
    + rewrite (IH Hin). lra.
Qed.

Lemma count_of_absent (k : string) (d : distribution_t) :
  ~ In k (map fst d) -> count_of k d = 0%Z.
Proof.
  induction d as [|[k' n] d IH]; simpl; [reflexivity|].
  intros H. destruct (String.eqb_spec k' k) as [->|_]; [tauto|].
  apply IH. tauto.
Qed.

(** The sum over the entries of a distribution keyed by stances is the sum
    over the stances of their counts. *)
Lemma sum_over_stances (g : Z -> R) (d : distribution_t) :
  g 0%Z = 0 ->
  NoDup (map fst d) ->
  (forall k, In k (map fst d) -> exists s, value s = k) ->
  fold_right (fun kv r => g (snd kv) + r) 0 d
  = fold_right (fun s r => g (count_of (value s) d) + r) 0 all_stances.
Proof.
  intros Hg. induction d as [|[k c] d IH]; intros Hnd Hkeys.
  - simpl fold_right at 1. generalize all_stances.
    intros l. induction l as [|s l IHl]; simpl in *; [reflexivity|].
    rewrite <- IHl, Hg. lra.
  - simpl map in Hnd. inversion Hnd as [|? ? Hnotin Hnd']; subst.
    destruct (Hkeys k (or_introl eq_refl)) as [s0 Hs0]. subst k.
    simpl fold_right at 1.
    rewrite (IH Hnd') by (intros k Hk; apply Hkeys; right; exact Hk).
    transitivity
      (fold_right
         (fun s r =>
            (if String.eqb (value s0) (value s) then g c
             else g (count_of (value s) d)) + r) 0 all_stances).
    + rewrite (sum_single_out (fun s => g (count_of (value s) d)) (g c) s0
                 all_stances all_stances_nodup (all_stances_complete s0)).
      rewrite (count_of_absent (value s0) d Hnotin), Hg. lra.
    + generalize all_stances. intros l.
      induction l as [|s l IHl]; simpl; [reflexivity|].
      rewrite IHl. destruct (String.eqb (value s0) (value s)); reflexivity.
Qed.

Lemma counter_add_keys (k : string) (d : distribution_t) :
  NoDup (map fst d) ->
  NoDup (map fst (counter_add k d))
  /\ forall k', In k' (map fst (counter_add k d)) <->
                k' = k \/ In k' (map fst d).
Proof.
  induction d as [|[k0 n] d IH]; simpl.
  - intros _. split; [repeat constructor; simpl; tauto|].
    intros k'. intuition congruence.
  - intros Hnd. inversion Hnd as [|? ? Hnotin Hnd']; subst.
    destruct (String.eqb_spec k0 k) as [->|Hne]; simpl.
    + split; [exact Hnd|]. intros k'. intuition congruence.
    + destruct (IH Hnd') as [IH1 IH2]. split.
      * constructor; [|exact IH1]. rewrite IH2. intuition congruence.
      * intros k'. rewrite IH2. intuition congruence.
Qed.

Lemma Counter_keys (l : list string) (d : distribution_t) :
  NoDup (map fst d) ->
  NoDup (map fst (fold_left (fun d k => counter_add k d) l d))
  /\ forall k, In k (map fst (fold_left (fun d k => counter_add k d) l d)) ->
               In k l \/ In k (map fst d).
Proof.
  revert d. induction l as [|x l IH]; intros d Hnd; simpl; [tauto|].
  destruct (counter_add_keys x d Hnd) as [H1 H2].
  destruct (IH (counter_add x d) H1) as [H3 H4].
  split; [exact H3|]. intros k Hk. destruct (H4 k Hk) as [H|H]; [tauto|].
  apply H2 in H. intuition congruence.
Qed.

Lemma current_stances_values (agents : list Agent) (k : string) :
  In k (current_stances agents) -> exists s, value s = k.
Proof.
  unfold current_stances. rewrite in_flat_map. intros (a & _ & Hk).
  destruct (stance_is_set (current_stance a)); [|contradiction].
  destruct (current_stance a) as [s|]; [|contradiction].
  destruct Hk as [<-|[]]. exists s. reflexivity.
Qed.

Lemma population_entropy (agents : list Agent) :
  calculate_entropy (get_stance_distribution agents) = shannon_entropy agents.
Proof.
  rewrite calculate_entropy_terms. unfold get_stance_distribution, Counter.
  destruct (Counter_from (current_stances agents) []) as [Hsum Hcount].
  destruct (Counter_keys (current_stances agents) [] (NoDup_nil _))
    as [Hnd Hkeys].
  set (d := fold_left (fun d k => counter_add k d) (current_stances agents) [])
    in *.
  assert (Htotal : sum (values d) = decided agents).
  { rewrite Hsum, current_stances_length. reflexivity. }
  assert (Hholders : forall s, count_of (value s) d = holders s agents).
  { intros s. rewrite Hcount, current_stances_count. reflexivity. }
  rewrite Htotal, entropy_terms_fold.
  rewrite (sum_over_stances (entropy_term (decided agents)) d);
    [|reflexivity|exact Hnd|].
  - unfold shannon_entropy.
    assert (Hsame :
      fold_right
        (fun s r => entropy_term (decided agents) (count_of (value s) d) + r)
        0 all_stances
      = fold_right
          (fun s r => entropy_term (decided agents) (holders s agents) + r)
          0 all_stances).
    { generalize all_stances. intros l.
      induction l as [|s l IH]; simpl; [reflexivity|].
      rewrite IH, Hholders. reflexivity. }
    rewrite Hsame.
    destruct (Z.eqb_spec (decided agents) 0) as [Hz|_]; [|reflexivity].
    assert (Hnone : forall s, holders s agents = 0%Z).
    { intros s. rewrite <- Hholders.
      pose proof (Hcount (value s)) as Hc. fold d in Hc.
      assert (Hle : (0 <= count_of (value s) d <= sum (values d))%Z).
      { rewrite Hc, Hsum. simpl.
        pose proof (filter_length_le (fun k => String.eqb k (value s))
                      (current_stances agents)). lia. }
      lia. }
    generalize all_stances. intros l.
    induction l as [|s l IH]; simpl; [reflexivity|].
    rewrite <- IH, Hnone. unfold entropy_term. simpl. lra.
  - intros k Hk. destruct (Hkeys k Hk) as [H|[]].
    eapply current_stances_values. exact H.
Qed.

(** X16: the entropy computed from a population is the Shannon entropy of
    the shares of the stances among the agents that hold one: the two
    utilities compose to [- sum p(s) * log2 p(s)], where [p(s)] is the
    number of agents holding [s] over the number of agents holding a
    stance (and to zero when no agent holds one). *)
Theorem entropy_of_population_is_shannon (agents : list Agent) :
  calculate_entropy (get_stance_distribution agents) = shannon_entropy agents.
Proof. apply population_entropy. Qed.


Lemma sum_none (h : Stance -> R) (stances : list Stance) :
  (forall x, In x stances -> h x = 0) ->
  fold_right (fun s r => h s + r) 0 stances = 0.
Proof.
  induction stances as [|x l IH]; simpl; [reflexivity|].
  intros H. rewrite (H x), IH by auto. lra.
Qed.

Lemma sum_one (h : Stance -> R) (s : Stance) (stances : list Stance) :
  NoDup stances -> In s stances ->
  (forall x, In x stances -> x <> s -> h x = 0) ->
  fold_right (fun s r => h s + r) 0 stances = h s.
Proof.
  induction 1 as [|x l Hnotin Hnd IH]; simpl; [tauto|].
  intros [->|Hin] Hz.
  - rewrite sum_none; [lra|].
    intros y Hy. apply Hz; [auto|]. intros ->. contradiction.
  - rewrite (Hz x), IH; auto; [lra|]. intros ->. contradiction.
Qed.

Lemma sum_two (h : Stance -> R) (s t : Stance) (stances : list Stance) :
  NoDup stances -> In s stances -> In t stances -> s <> t ->
  (forall x, In x stances -> x <> s -> x <> t -> h x = 0) ->
  fold_right (fun s r => h s + r) 0 stances = h s + h t.
Proof.
  induction 1 as [|x l Hnotin Hnd IH]; simpl; [tauto|].
  intros [->|Hs] [->|Ht] Hne Hz; try congruence.
  - rewrite (sum_one h t l Hnd Ht); [lra|].
    intros y Hy Hyt. apply Hz; auto. intros ->. contradiction.
  - rewrite (sum_one h s l Hnd Hs); [lra|].
    intros y Hy Hys. apply Hz; auto. intros ->. contradiction.
  - rewrite (Hz x), IH; auto; [lra| |]; intros ->; contradiction.
Qed.

Lemma filter_none {A} (f : A -> bool) (l : list A) :
  (forall a, In a l -> f a = false) -> filter f l = [].
Proof.
  induction l as [|x l IH]; simpl; [reflexivity|].
  intros H. rewrite (H x), IH by auto. reflexivity.
Qed.

Lemma holds_value (s t : Stance) (a : Agent) :
  current_stance a = Some s -> holds t a = true -> s = t.
Proof.
  unfold holds. intros ->. intros H. apply String.eqb_eq in H.
  apply value_injective. exact H.
Qed.

Lemma holds_own (s : Stance) (a : Agent) :
  current_stance a = Some s -> holds s a = true.
Proof. unfold holds. intros ->. apply String.eqb_refl. Qed.

Lemma log2_one : log2 1 = 0.
Proof. unfold log2. rewrite ln_1. lra. Qed.

Lemma log2_half : log2 (1 / 2) = -1.
Proof.
  unfold log2. replace (1 / 2) with (/ 2) by lra.
  rewrite ln_Rinv by lra. pose proof ln2_pos. field. lra.
Qed.

(** X17: the two ends of the scale. A population in which every agent
    that holds a stance holds the same one has entropy 0; a population
    split evenly between two stances has entropy 1. *)
Theorem entropy_of_unanimity_and_of_an_even_split (agents : list Agent) :
  (forall s,
      (forall a, In a agents ->
         current_stance a = None \/ current_stance a = Some s) ->
      calculate_entropy (get_stance_distribution agents) = 0)
  /\ (forall s t,
        s <> t ->
        (forall a, In a agents ->
           current_stance a = Some s \/ current_stance a = Some t) ->
        holders s agents = holders t agents ->
        agents <> [] ->
        calculate_entropy (get_stance_distribution agents) = 1).
Proof.
  rewrite population_entropy. unfold shannon_entropy. split.
  - intros s Hall.
    assert (Hother : forall x, x <> s -> holders x agents = 0%Z).
    { intros x Hx. unfold holders.
      rewrite filter_none; [reflexivity|]. intros a Ha.
      destruct (holds x a) eqn:E; [|reflexivity].
      destruct (Hall a Ha) as [Hn|Hs].
      - unfold holds in E. rewrite Hn in E. discriminate.
      - exfalso. apply Hx. symmetry. eapply holds_value; eauto. }
    assert (Hdec : decided agents = holders s agents).
    { unfold decided, holders. f_equal. f_equal. apply filter_ext_in.
      intros a Ha. unfold has_stance. destruct (Hall a Ha) as [Hn|Hs].
      - unfold holds. rewrite Hn. reflexivity.
      - rewrite (holds_own s a Hs), Hs. reflexivity. }
    rewrite (sum_one _ s all_stances all_stances_nodup
               (all_stances_complete s)).
    + rewrite Hdec. unfold entropy_term.
      destruct (Z.ltb_spec 0 (holders s agents)) as [Hpos|_]; [|reflexivity].
      replace (IZR (holders s agents) / IZR (holders s agents)) with 1.
      * rewrite log2_one. lra.
      * field. apply not_0_IZR. lia.
    + intros x _ Hx. rewrite (Hother x Hx). reflexivity.
  - intros s t Hne Hall Heven Hnonempty.
    assert (Hother : forall x, x <> s -> x <> t -> holders x agents = 0%Z).
    { intros x Hxs Hxt. unfold holders.
      rewrite filter_none; [reflexivity|]. intros a Ha.
      destruct (holds x a) eqn:E; [|reflexivity].
      exfalso. destruct (Hall a Ha) as [Hs|Ht].
      - apply Hxs. symmetry. eapply holds_value; eauto.
      - apply Hxt. symmetry. eapply holds_value; eauto. }
    assert (Hdec : decided agents = (holders s agents + holders t agents)%Z).
    { unfold decided, holders. clear Heven Hnonempty Hother.
      induction agents as [|a l IH]; [reflexivity|].
      specialize (IH (fun b Hb => Hall b (or_intror Hb))).
      simpl filter. unfold has_stance at 1.
      destruct (Hall a (or_introl eq_refl)) as [Hs|Ht].
      + rewrite Hs, (holds_own s a Hs).
        destruct (holds t a) eqn:E.
        * exfalso. apply Hne. eapply holds_value; eauto.
        * simpl List.length. lia.
      + rewrite Ht, (holds_own t a Ht).
        destruct (holds s a) eqn:E.
        * exfalso. apply Hne. symmetry. eapply holds_value; eauto.
        * simpl List.length. lia. }
    assert (Hpos : (0 < holders t agents)%Z).
    { destruct agents as [|a l]; [congruence|].
      assert (0 < decided (a :: l))%Z; [|lia].
      unfold decided. simpl filter. unfold has_stance at 1.
      destruct (Hall a (or_introl eq_refl)) as [-> | ->]; simpl; lia. }
    rewrite (sum_two _ s t all_stances all_stances_nodup
               (all_stances_complete s) (all_stances_complete t) Hne).
    + rewrite Hdec, Heven. unfold entropy_term.
      destruct (Z.ltb_spec 0 (holders t agents)) as [_|]; [|lia].
      rewrite plus_IZR.
      replace (IZR (holders t agents)
               / (IZR (holders t agents) + IZR (holders t agents)))
        with (1 / 2).
      * rewrite log2_half. lra.
      * assert (0 < IZR (holders t agents)) by (apply IZR_lt; exact Hpos).
        field. lra.
    + intros x _ Hxs Hxt. rewrite (Hother x Hxs Hxt). reflexivity.
Qed.

End PopulationEntropyProps.

(** ** The analysis of one experiment *)
Module AnalyzeProps.
Import Py Json PyMore ResumeUtils Analyze Spec Notions ResumeProps.
Local Open Scope string_scope.
Local Open Scope list_scope.
Local Open Scope Z_scope.

Lemma is_type_exclusive (t t' : string) (e : json) :
  is_type t e = true -> t <> t' -> is_type t' e = false.
Proof.
  destruct e as [| | | | | |kvs]; simpl; try discriminate.
  rewrite !py_eq_to_str. destruct (obj_get "type" kvs); try discriminate.
  intros H Hne. apply String.eqb_eq in H. subst. apply String.eqb_neq.
  exact Hne.
Qed.

Lemma subscript_has_key (kvs : list (string * json)) (key : string) :
  has_key key (JObj kvs) = true ->
  subscript kvs key = Returns (obj_get key kvs).
Proof.
  unfold has_key, subscript, obj_lookup, obj_get.
  destruct (find _ (rev kvs)) as [[k v]|]; [reflexivity|discriminate].
Qed.

(** The loop over the concatenation of two lists of events. *)
Lemma loop_app (es1 es2 : list json) (st : loop_state) :
  loop (es1 ++ es2) st = and_then (loop es1 st) (loop es2).
Proof.
  revert st. induction es1 as [|e es1 IH]; intros st; simpl; [reflexivity|].
  destruct (step st e) as [st'|x]; simpl; [apply IH|reflexivity].
Qed.

(** An event of a type the analysis does not look at changes nothing. *)
Lemma step_ignored (st : loop_state) (e : json) :
  ignored e = true -> step st e = Returns st.
Proof.
  destruct e as [| | | | | |kvs]; simpl; try discriminate.
  intros H. apply negb_true_iff in H.
  apply orb_false_iff in H. destruct H as [H H4].
  apply orb_false_iff in H. destruct H as [H H3].
  apply orb_false_iff in H. destruct H as [H1 H2].
  rewrite H1, H2, H3, H4. reflexivity.
Qed.

(** An event that neither starts nor ends a round: the rounds are as they
    were, a round that was open stays open, a response is recorded. *)
Lemma step_within (st : loop_state) (e : json) :
  within_round e = true ->
  exists st',
    step st e = Returns st'
    /\ rounds_data st' = rounds_data st
    /\ (current_round st' = None <-> current_round st = None)
    /\ agent_responses st'
       = agent_responses st ++ (if is_type "agent_response" e then [e] else []).
Proof.
  unfold within_round. intros H.
  apply andb_true_iff in H. destruct H as [H Hend].
  apply andb_true_iff in H. destruct H as [Hus Hstart].
  apply negb_true_iff in Hend, Hstart.
  destruct e as [| | | | | |kvs]; try discriminate.
  simpl in Hstart, Hend. simpl step. simpl is_type.
  destruct (py_eq (obj_get "type" kvs) (JStr "config")) eqn:E1.
  - pose proof (is_type_exclusive "config" "agent_response" (JObj kvs) E1
                  ltac:(discriminate)) as E3.
    simpl in E3. rewrite E3, app_nil_r. eexists. split; [reflexivity|].
    simpl. tauto.
  - rewrite Hstart.
    destruct (py_eq (obj_get "type" kvs) (JStr "agent_response")) eqn:E3.
    + eexists. split; [reflexivity|]. simpl.
      split; [reflexivity|]. split; [|reflexivity].
      destruct (current_round st); split; congruence.
    + rewrite Hend, app_nil_r. exists st. tauto.
Qed.

Lemma loop_within (es : list json) (st : loop_state) :
  forallb within_round es = true ->
  exists st',
    loop es st = Returns st'
    /\ rounds_data st' = rounds_data st
    /\ (current_round st' = None <-> current_round st = None)
    /\ agent_responses st'
       = agent_responses st ++ filter (is_type "agent_response") es.
Proof.
  revert st. induction es as [|e es IH]; intros st; simpl.
  - intros _. exists st. rewrite app_nil_r. tauto.
  - intros H. apply andb_true_iff in H. destruct H as [He Hes].
    destruct (step_within st e He) as (st1 & Hs & Hr & Hc & Ha).
    destruct (IH st1 Hes) as (st2 & Hl & Hr2 & Hc2 & Ha2).
    exists st2. rewrite Hs. simpl. split; [exact Hl|].
    split; [congruence|]. split; [tauto|].
    rewrite Ha2, Ha, <- app_assoc.
    destruct (is_type "agent_response" e); reflexivity.
Qed.

(** A usable [round_start] opens a round. *)
Lemma step_start (st : loop_state) (e : json) :
  usable e = true -> is_type "round_start" e = true ->
  exists st',
    step st e = Returns st'
    /\ rounds_data st' = rounds_data st
    /\ current_round st' <> None
    /\ agent_responses st' = agent_responses st.
Proof.
  intros Hus Hty. destruct e as [| | | | | |kvs]; try discriminate.
  pose proof (is_type_exclusive _ "config" _ Hty ltac:(discriminate)) as E1.
  unfold usable in Hus. rewrite E1, Hty in Hus.
  apply andb_true_iff in Hus. destruct Hus as [Hr Hs].
  simpl in E1, Hty. simpl step. rewrite E1, Hty.
  rewrite (subscript_has_key kvs "round" Hr),
    (subscript_has_key kvs "stats" Hs).
  eexists. split; [reflexivity|]. simpl.
  split; [reflexivity|]. split; [discriminate|reflexivity].
Qed.

(** A usable [round_end] closes the round that is open, if one is. *)
Lemma step_end (st : loop_state) (e : json) :
  usable e = true -> is_type "round_end" e = true ->
  exists st',
    step st e = Returns st'
    /\ current_round st' = None
    /\ agent_responses st' = agent_responses st
    /\ exists closed,
        rounds_data st' = rounds_data st ++ closed
        /\ map entropy closed
           = match current_round st, e with
             | Some _, JObj kvs => [obj_get "entropy" kvs]
             | _, _ => []
             end.
Proof.
  intros Hus Hty. destruct e as [| | | | | |kvs]; try discriminate.
  pose proof (is_type_exclusive _ "config" _ Hty ltac:(discriminate)) as E1.
  pose proof (is_type_exclusive _ "round_start" _ Hty ltac:(discriminate))
    as E2.
  pose proof (is_type_exclusive _ "agent_response" _ Hty ltac:(discriminate))
    as E3.
  unfold usable in Hus. rewrite E1, E2, E3, Hty in Hus.
  apply andb_true_iff in Hus. destruct Hus as [Hs Hh].
  simpl in E1, E2, E3, Hty. simpl step. rewrite E1, E2, E3, Hty.
  destruct (current_round st) as [cr|].
  - rewrite (subscript_has_key kvs "stats" Hs),
      (subscript_has_key kvs "entropy" Hh).
    eexists. split; [reflexivity|]. simpl.
    split; [reflexivity|]. split; [reflexivity|].
    eexists. split; reflexivity.
  - eexists. split; [reflexivity|]. simpl.
    split; [reflexivity|]. split; [reflexivity|].
    exists []. rewrite app_nil_r. split; reflexivity.
Qed.

(** The loop over a complete round adds that round. *)
Lemma loop_round (r : logged_round) (st : loop_state) :
  complete_round r = true ->
  exists st' closed,
    loop (events_of_round r) st = Returns st'
    /\ rounds_data st' = rounds_data st ++ [closed]
    /\ entropy closed = logged_entropy r
    /\ current_round st' = None.
Proof.
  unfold complete_round, events_of_round. intros H.
  apply andb_true_iff in H. destruct H as [H Hend].
  apply andb_true_iff in H. destruct H as [H Hbetween].
  apply andb_true_iff in H. destruct H as [Hbefore Hstart].
  apply andb_true_iff in Hstart. destruct Hstart as [Hsu Hst].
  apply andb_true_iff in Hend. destruct Hend as [Heu Het].
  destruct (loop_within (before_start r) st Hbefore)
    as (st1 & Hl1 & Hr1 & _ & _).
  destruct (step_start st1 (start_event r) Hsu Hst)
    as (st2 & Hl2 & Hr2 & Hopen2 & _).
  destruct (loop_within (between r) st2 Hbetween)
    as (st3 & Hl3 & Hr3 & Hopen3 & _).
  destruct (step_end st3 (end_event r) Heu Het)
    as (st4 & Hl4 & Hnone & _ & closed & Hr4 & Hent).
  rewrite loop_app, Hl1. cbn [and_then app loop].
  rewrite Hl2. cbn [and_then]. rewrite loop_app, Hl3. cbn [and_then loop].
  rewrite Hl4. cbn [and_then].
  destruct (current_round st3) as [cr|] eqn:Ecr; [|tauto].
  unfold logged_entropy.
  destruct (end_event r) as [| | | | | |kvs]; try discriminate.
  destruct closed as [|c [|c' closed]]; try discriminate.
  injection Hent as Hent.
  exists st4, c. split; [reflexivity|]. split; [congruence|].
  split; [exact Hent|exact Hnone].
Qed.

Lemma loop_rounds (rounds : list logged_round) (st : loop_state) :
  forallb complete_round rounds = true ->
  exists st' closed,
    loop (flat_map events_of_round rounds) st = Returns st'
    /\ rounds_data st' = rounds_data st ++ closed
    /\ map entropy closed = map logged_entropy rounds.
Proof.
  revert st. induction rounds as [|r rounds IH]; intros st; simpl.
  - intros _. exists st, []. rewrite app_nil_r. auto.
  - intros H. apply andb_true_iff in H. destruct H as [Hr Hrs].
    destruct (loop_round r st Hr) as (st1 & c & Hl1 & Hr1 & He1 & _).
    destruct (IH st1 Hrs) as (st2 & cs & Hl2 & Hr2 & He2).
    exists st2, (c :: cs). rewrite loop_app, Hl1. simpl and_then.
    split; [exact Hl2|]. split.
    + rewrite Hr2, Hr1, <- app_assoc. reflexivity.
    + simpl. rewrite He1, He2. reflexivity.
Qed.

Lemma loop_interrupted (tail : list json) (st : loop_state) :
  interrupted_round tail ->
  exists st', loop tail st = Returns st' /\ rounds_data st' = rounds_data st.
Proof.
  intros [H|(before & start & after & -> & Hb & Hsu & Hst & Ha)].
  - destruct (loop_within tail st H) as (st' & Hl & Hr & _).
    exists st'. auto.
  - destruct (loop_within before st Hb) as (st1 & Hl1 & Hr1 & _).
    destruct (step_start st1 start Hsu Hst) as (st2 & Hl2 & Hr2 & _).
    destruct (loop_within after st2 Ha) as (st3 & Hl3 & Hr3 & _).
    exists st3. rewrite loop_app, Hl1. cbn [and_then app loop].
    rewrite Hl2. cbn [and_then]. split; [exact Hl3|congruence].
Qed.

Lemma analysis_of_rounds (rounds : list logged_round) (tail : list json) :
  forallb complete_round rounds = true ->
  interrupted_round tail ->
  exists analysis,
    analyze_single_experiment (flat_map events_of_round rounds ++ tail)
    = Returns analysis
    /\ num_rounds analysis = Z.of_nat (List.length rounds)
    /\ entropy_history analysis = map logged_entropy rounds.
Proof.
  intros Hrounds Htail. unfold analyze_single_experiment.
  destruct (loop_rounds rounds initial Hrounds) as (st1 & cs & Hl1 & Hr1 & He).
  destruct (loop_interrupted tail st1 Htail) as (st2 & Hl2 & Hr2).
  rewrite loop_app, Hl1. cbn [and_then]. rewrite Hl2. cbn [and_then].
  eexists. split; [reflexivity|]. simpl.
  rewrite Hr2, Hr1. simpl. split; [|exact He].
  rewrite <- (length_map entropy), He, length_map. reflexivity.
Qed.

(** X18: on a log written round by round, the analysis reports one round
    for each completed round, in order, with the entropy logged at its
    end; a round that was interrupted before its [round_end] is left
    out. *)
Theorem analysis_reports_completed_rounds (rounds : list logged_round)
    (tail : list json) :
  forallb complete_round rounds = true ->
  interrupted_round tail ->
  exists analysis,
    analyze_single_experiment (flat_map events_of_round rounds ++ tail)
    = Returns analysis
    /\ num_rounds analysis = Z.of_nat (List.length rounds)
    /\ entropy_history analysis = map logged_entropy rounds.
Proof. apply analysis_of_rounds. Qed.


Lemma analysis_reports_completed_rounds_witness :
  exists analysis,
    analyze_single_experiment
      (flat_map events_of_round [round_zero] ++ round_one_interrupted)
    = Returns analysis
    /\ num_rounds analysis = 1
    /\ entropy_history analysis = [JFloat 0%float].
Proof.
  apply (analysis_reports_completed_rounds [round_zero]
           round_one_interrupted).
  - vm_compute. reflexivity.
  - right. exists [], (ev_round_start 1),
      [ev_response 1 "agent_0" "DO_NOT_PULL" "INFORMATIONAL" true].
    repeat split; vm_compute; reflexivity.
Defined.

(** One step on a usable event: no exception, responses are recorded, and
    the rounds grow by at most the round that was open. *)
Lemma step_usable (st : loop_state) (e : json) :
  usable e = true ->
  exists st',
    step st e = Returns st'
    /\ agent_responses st'
       = agent_responses st ++ (if is_type "agent_response" e then [e] else [])
    /\ (List.length (rounds_data st') + (if is_open st' then 1 else 0)
        <= List.length (rounds_data st) + (if is_open st then 1 else 0)
           + (if is_type "round_start" e then 1 else 0))%nat
    /\ (List.length (rounds_data st')
        <= List.length (rounds_data st)
           + (if is_type "round_end" e then 1 else 0))%nat
    /\ (List.length (rounds_data st) <= List.length (rounds_data st'))%nat.
Proof.
  intros Hus.
  destruct (is_type "round_start" e) eqn:Estart.
  - destruct (step_start st e Hus Estart) as (st' & Hs & Hr & Ho & Ha).
    exists st'. split; [exact Hs|].
    rewrite (is_type_exclusive _ "agent_response" _ Estart)
      by discriminate.
    rewrite (is_type_exclusive _ "round_end" _ Estart) by discriminate.
    rewrite app_nil_r, Hr. split; [exact Ha|]. unfold is_open.
    destruct (current_round st'), (current_round st); repeat split;
      simpl; lia.
  - destruct (is_type "round_end" e) eqn:Eend.
    + destruct (step_end st e Hus Eend)
        as (st' & Hs & Ho & Ha & closed & Hr & Hc).
      exists st'. split; [exact Hs|].
      rewrite (is_type_exclusive _ "agent_response" _ Eend) by discriminate.
      rewrite app_nil_r. split; [exact Ha|].
      apply (f_equal (@List.length json)) in Hc.
      rewrite length_map in Hc. unfold is_open.
      rewrite Ho, Hr, length_app, Hc.
      destruct (current_round st), e; simpl; repeat split; lia.
    + assert (Hw : within_round e = true)
        by (unfold within_round; rewrite Hus, Estart, Eend; reflexivity).
      destruct (step_within st e Hw) as (st' & Hs & Hr & Ho & Ha).
      exists st'. split; [exact Hs|]. split; [exact Ha|].
      rewrite Hr. unfold is_open.
      destruct (current_round st'), (current_round st);
        repeat split; simpl; try lia;
        exfalso; destruct Ho as [Ho1 Ho2];
        first [discriminate (Ho1 eq_refl)|discriminate (Ho2 eq_refl)].
Qed.

Lemma loop_usable (es : list json) (st : loop_state) :
  forallb usable es = true ->
  exists st',
    loop es st = Returns st'
    /\ agent_responses st'
       = agent_responses st ++ filter (is_type "agent_response") es
    /\ (List.length (rounds_data st') + (if is_open st' then 1 else 0)
        <= List.length (rounds_data st) + (if is_open st then 1 else 0)
           + List.length (filter (is_type "round_start") es))%nat
    /\ (List.length (rounds_data st')
        <= List.length (rounds_data st)
           + List.length (filter (is_type "round_end") es))%nat.
Proof.
  revert st. induction es as [|e es IH]; intros st; simpl.
  - intros _. exists st. rewrite app_nil_r. repeat split; lia.
  - intros H. apply andb_true_iff in H. destruct H as [He Hes].
    destruct (step_usable st e He) as (st1 & Hs & Ha & Hr & Hn & _).
    destruct (IH st1 Hes) as (st2 & Hl & Ha2 & Hr2 & Hn2).
    exists st2. rewrite Hs. cbn [and_then]. split; [exact Hl|].
    split.
    { rewrite Ha2, Ha, <- app_assoc.
      destruct (is_type "agent_response" e); reflexivity. }
    destruct (is_type "round_start" e), (is_type "round_end" e);
      simpl List.length; split; lia.
Qed.

Lemma has_reason_exclusive (a b : string) (r : json) :
  has_reason a r = true -> a <> b -> has_reason b r = false.
Proof.
  unfold has_reason. rewrite !py_eq_to_str.
  destruct (field "change_reason" JNull r); try discriminate.
  intros H Hne. apply String.eqb_eq in H. subst. apply String.eqb_neq.
  exact Hne.
Qed.

Lemma exclusive_filters {A} (f g h : A -> bool) (l : list A) :
  (forall x, f x = true -> g x = false /\ h x = false) ->
  (forall x, g x = true -> h x = false) ->
  (List.length (filter f l) + List.length (filter g l)
   + List.length (filter h l) <= List.length l)%nat.
Proof.
  intros Hf Hg. induction l as [|x l IH]; simpl; [lia|].
  destruct (f x) eqn:Ef.
  - destruct (Hf x Ef) as [-> ->]. simpl. lia.
  - destruct (g x) eqn:Eg.
    + rewrite (Hg x Eg). simpl. lia.
    + destruct (h x); simpl; lia.
Qed.

(** X19: what the analysis counts. On a log all of whose events are
    usable the analysis raises nothing; it reports at most one round per
    [round_start] event and at most one per [round_end] event, with one
    entropy each; the changes it counts, and the changes it attributes to
    the three reasons taken together, are at most the responses logged. *)
Theorem analysis_counts_are_bounded (events : list json) :
  forallb usable events = true ->
  exists analysis,
    analyze_single_experiment events = Returns analysis
    /\ 0 <= num_rounds analysis <= count_type "round_start" events
    /\ num_rounds analysis <= count_type "round_end" events
    /\ num_rounds analysis = Z.of_nat (List.length (entropy_history analysis))
    /\ 0 <= total_changes (change_analysis analysis)
       <= count_type "agent_response" events
    /\ informational (change_analysis analysis)
       + normative (change_analysis analysis)
       + uncertainty (change_analysis analysis)
       <= count_type "agent_response" events.
Proof.
  intros Hus. unfold analyze_single_experiment.
  destruct (loop_usable events initial Hus) as (st & Hl & Ha & Hr & Hn).
  rewrite Hl. cbn [and_then]. eexists. split; [reflexivity|].
  simpl in Ha, Hr, Hn. cbn [num_rounds entropy_history change_analysis
    total_changes informational normative uncertainty].
  unfold count_type, count_if. rewrite Ha, length_map.
  set (rs := filter (is_type "agent_response") events).
  pose proof (filter_length_le
                (fun r => truth (field "changed" (JBool false) r)) rs).
  pose proof (exclusive_filters (has_reason "INFORMATIONAL")
                (has_reason "NORMATIVE") (has_reason "UNCERTAINTY") rs) as He.
  destruct (is_open st); repeat split; try lia.
  all: assert (Hsum :
         (List.length (filter (has_reason "INFORMATIONAL") rs)
          + List.length (filter (has_reason "NORMATIVE") rs)
          + List.length (filter (has_reason "UNCERTAINTY") rs)
          <= List.length rs)%nat);
    [apply He; [intros x Hx; split|intros x Hx];
     eapply has_reason_exclusive; eauto; discriminate|lia].
Qed.

Lemma analysis_counts_are_bounded_witness :
  exists analysis,
    analyze_single_experiment
      (flat_map events_of_round [round_zero] ++ round_one_interrupted)
    = Returns analysis
    /\ total_changes (change_analysis analysis) = 1
    /\ informational (change_analysis analysis) = 1.
Proof.
  destruct (analysis_counts_are_bounded
              (flat_map events_of_round [round_zero] ++ round_one_interrupted))
    as (analysis & Hrun & _).
  - vm_compute. reflexivity.
  - exists analysis. split; [exact Hrun|].
    vm_compute in Hrun. injection Hrun as <-. split; reflexivity.
Defined.

Lemma loop_skips_ignored (events : list json) (st : loop_state) :
  loop (filter (fun e => negb (ignored e)) events) st = loop events st.
Proof.
  revert st. induction events as [|e events IH]; intros st; [reflexivity|].
  simpl. destruct (ignored e) eqn:E; simpl.
  - rewrite (step_ignored st e E). cbn [and_then]. apply IH.
  - destruct (step st e) as [st'|x]; simpl; [apply IH|reflexivity].
Qed.

(** X20: the analysis looks at four types of events only. Removing from
    a log the events of any other type (the start and the end of the
    experiment, for instance) does not change what the analysis returns or
    raises. *)
Theorem analysis_ignores_other_events (events : list json) :
  analyze_single_experiment (filter (fun e => negb (ignored e)) events)
  = analyze_single_experiment events.
Proof.
  unfold analyze_single_experiment. rewrite loop_skips_ignored. reflexivity.
Qed.

(** X21: what the analysis raises. After usable events, an event that is
    not an object raises [AttributeError]; a [round_start] event without a
    round, or with a round but without statistics, raises [KeyError]; a
    [round_end] event without statistics, or with statistics but without
    an entropy, raises [KeyError] if a round is open, and is passed over
    if none is. *)
Theorem analysis_raises_on_missing_keys (good rest : list json) (bad : json)
    (st : loop_state) :
  loop good initial = Returns st ->
  (is_type "round_start" bad = true -> has_key "round" bad = false ->
   analyze_single_experiment (good ++ bad :: rest)
   = Raises (KeyError "round"))
  /\ (is_type "round_start" bad = true -> has_key "round" bad = true ->
      has_key "stats" bad = false ->
      analyze_single_experiment (good ++ bad :: rest)
      = Raises (KeyError "stats"))
  /\ (is_type "round_end" bad = true -> is_open st = true ->
      has_key "stats" bad = false ->
      analyze_single_experiment (good ++ bad :: rest)
      = Raises (KeyError "stats"))
  /\ (is_type "round_end" bad = true -> is_open st = true ->
      has_key "stats" bad = true -> has_key "entropy" bad = false ->
      analyze_single_experiment (good ++ bad :: rest)
      = Raises (KeyError "entropy"))
  /\ (is_type "round_end" bad = true -> is_open st = false ->
      analyze_single_experiment (good ++ bad :: rest)
      = analyze_single_experiment (good ++ rest))
  /\ (match bad with JObj _ => False | _ => True end ->
      analyze_single_experiment (good ++ bad :: rest)
      = Raises (Builtin AttributeError)).
Proof.
  intros Hgood. unfold analyze_single_experiment.
  rewrite !loop_app, Hgood. cbn [and_then loop].
  assert (Hkey : forall kvs key,
            has_key key (JObj kvs) = false ->
            subscript kvs key = Raises (KeyError key)).
  { intros kvs key. unfold has_key, subscript.
    destruct (obj_lookup key kvs); [discriminate|reflexivity]. }
  repeat split.
  - intros Hty Hr. destruct bad as [| | | | | |kvs]; try discriminate.
    pose proof (is_type_exclusive _ "config" _ Hty ltac:(discriminate)) as E1.
    simpl in Hty, E1. simpl step. rewrite E1, Hty, (Hkey _ _ Hr).
    reflexivity.
  - intros Hty Hr Hs. destruct bad as [| | | | | |kvs]; try discriminate.
    pose proof (is_type_exclusive _ "config" _ Hty ltac:(discriminate)) as E1.
    simpl in Hty, E1. simpl step.
    rewrite E1, Hty, (subscript_has_key _ _ Hr), (Hkey _ _ Hs).
    reflexivity.
  - intros Hty Hopen Hs. destruct bad as [| | | | | |kvs]; try discriminate.
    pose proof (is_type_exclusive _ "config" _ Hty ltac:(discriminate)) as E1.
    pose proof (is_type_exclusive _ "round_start" _ Hty ltac:(discriminate))
      as E2.
    pose proof (is_type_exclusive _ "agent_response" _ Hty
                  ltac:(discriminate)) as E3.
    simpl in Hty, E1, E2, E3. simpl step. rewrite E1, E2, E3, Hty.
    unfold is_open in Hopen.
    destruct (current_round st); [|discriminate].
    rewrite (Hkey _ _ Hs). reflexivity.
  - intros Hty Hopen Hs Hh. destruct bad as [| | | | | |kvs]; try discriminate.
    pose proof (is_type_exclusive _ "config" _ Hty ltac:(discriminate)) as E1.
    pose proof (is_type_exclusive _ "round_start" _ Hty ltac:(discriminate))
      as E2.
    pose proof (is_type_exclusive _ "agent_response" _ Hty
                  ltac:(discriminate)) as E3.
    simpl in Hty, E1, E2, E3. simpl step. rewrite E1, E2, E3, Hty.
    unfold is_open in Hopen.
    destruct (current_round st); [|discriminate].
    rewrite (subscript_has_key _ _ Hs), (Hkey _ _ Hh). reflexivity.
  - intros Hty Hopen. destruct bad as [| | | | | |kvs]; try discriminate.
    pose proof (is_type_exclusive _ "config" _ Hty ltac:(discriminate)) as E1.
    pose proof (is_type_exclusive _ "round_start" _ Hty ltac:(discriminate))
      as E2.
    pose proof (is_type_exclusive _ "agent_response" _ Hty
                  ltac:(discriminate)) as E3.
    simpl in Hty, E1, E2, E3. simpl step. rewrite E1, E2, E3, Hty.
    unfold is_open in Hopen.
    destruct (current_round st) eqn:Ecr; [discriminate|].
    cbn [and_then]. destruct st. simpl in *. subst. reflexivity.
  - intros Hbad. destruct bad; try contradiction; reflexivity.
Qed.

Lemma analysis_raises_on_missing_keys_witness :
  analyze_single_experiment
    [ev_round_start 0; JObj [("type", JStr "round_end")]]
  = Raises (KeyError "stats").
Proof.
  apply (proj1 (proj2 (proj2
           (analysis_raises_on_missing_keys [ev_round_start 0] []
              (JObj [("type", JStr "round_end")])
              {| config := []; rounds_data := [];
                 current_round :=
                   Some {| round := JInt 0;
                           start_stats :=
                             JObj [("PULL_LEVER", JInt 1);
                                   ("DO_NOT_PULL", JInt 1)];
                           responses := [] |};
                 agent_responses := [] |} eq_refl))));
    reflexivity.
Defined.


Section Loading.

Variable json_loads : string -> loads_outcome.

(** X22: loading a log is all or nothing. [load_experiment_log] returns
    what the lines that are not blank decode to, in order, when each of
    them decodes; one line that does not makes it raise what [json.loads]
    raises on the first such line, [JSONDecodeError] or another exception
    (the replay of [find_last_complete_round] skips a line that raises
    [JSONDecodeError]); a file that is missing or cannot be read raises
    too. When the lines read the same stripped or not, the events loaded
    are those the replay sees. *)
Theorem loading_is_all_or_nothing (lines : list string) :
  load_experiment_log json_loads (Readable lines)
  = match first_failure json_loads lines with
    | None => Returns (loaded json_loads lines)
    | Some e => Raises e
    end
  /\ (first_failure json_loads lines = None
      <-> forallb (loadable json_loads) lines = true)
  /\ load_experiment_log json_loads Missing = Raises FileNotFoundError
  /\ load_experiment_log json_loads Unreadable = Raises ReadError
  /\ (Forall (fun l => loaded_value (json_loads l) = event_of json_loads l)
        lines ->
      loaded json_loads lines = events json_loads lines).
Proof.
  split; [|split; [|split; [reflexivity|split; [reflexivity|]]]].
  - simpl. induction lines as [|l lines IH]; [reflexivity|].
    cbn [load_lines first_failure loaded flat_map]. unfold not_blank.
    destruct (is_empty (strip l)); simpl; [exact IH|].
    destruct (json_loads l) as [e| |e msg]; simpl; try reflexivity.
    rewrite IH. destruct (first_failure json_loads lines); reflexivity.
  - induction lines as [|l lines IH]; [simpl; tauto|].
    cbn [first_failure forallb]. unfold loadable at 1, not_blank.
    destruct (is_empty (strip l)); simpl; [exact IH|].
    destruct (json_loads l) as [e| |e msg]; simpl;
      [exact IH|split; discriminate|split; discriminate].
  - induction 1 as [|l lines Hl _ IH]; [reflexivity|].
    unfold loaded, events in *. simpl. rewrite IH. f_equal.
    rewrite <- Hl. unfold not_blank.
    destruct (is_empty (strip l)) eqn:E.
    + simpl. unfold event_of in Hl. rewrite E in Hl.
      destruct (json_loads l); [discriminate|reflexivity|reflexivity].
    + simpl. destruct (json_loads l); reflexivity.
Qed.

End Loading.

(** The interrupted log can be resumed from, but not loaded. *)
Example interrupted_log_does_not_load :
  load_experiment_log decode (Readable interrupted_log)
  = Raises JSONDecodeError
  /\ fst (find_last_complete_round decode (Readable interrupted_log))
     = Some (JInt 0).
Proof. split; vm_compute; reflexivity. Qed.

End AnalyzeProps.


(** ** The experiment logger *)
Module LoggingProps.
Import Py Json PyMore Utils ResumeUtils Logging Spec Notions.
Import ResumeProps PipelineProps ClientSetupProps RecoveryProps.
Local Open Scope list_scope.
Local Open Scope string_scope.

(** *** Dictionaries *)

Lemma find_over_app {A} (f : A -> bool) (l1 l2 : list A) :
  find f (l1 ++ l2)
  = match find f l1 with
    | Some x => Some x
    | None => find f l2
    end.
Proof.
  induction l1 as [|x l1 IH]; simpl; [reflexivity|].
  destruct (f x); [reflexivity|exact IH].
Qed.

Lemma obj_get_cons (key k : string) (v : json) (kvs : list (string * json)) :
  obj_get key ((k, v) :: kvs)
  = match obj_lookup key kvs with
    | Some x => x
    | None => if String.eqb k key then v else JNull
    end.
Proof.
  unfold obj_get, obj_lookup. simpl rev. rewrite find_over_app.
  destruct (find _ (rev kvs)) as [[k' v']|]; [reflexivity|].
  simpl. destruct (String.eqb k key); reflexivity.
Qed.

Lemma obj_lookup_cons (key k : string) (v : json)
    (kvs : list (string * json)) :
  obj_lookup key ((k, v) :: kvs)
  = match obj_lookup key kvs with
    | Some x => Some x
    | None => if String.eqb k key then Some v else None
    end.
Proof.
  unfold obj_lookup. simpl rev. rewrite find_over_app.
  destruct (find _ (rev kvs)) as [[k' v']|]; [reflexivity|].
  simpl. destruct (String.eqb k key); reflexivity.
Qed.

Lemma obj_get_lookup (key : string) (kvs : list (string * json)) :
  obj_get key kvs
  = match obj_lookup key kvs with Some v => v | None => JNull end.
Proof.
  unfold obj_get, obj_lookup.
  destruct (find _ (rev kvs)) as [[k v]|]; reflexivity.
Qed.

Lemma obj_lookup_app (key : string) (l1 l2 : list (string * json)) :
  obj_lookup key (l1 ++ l2)
  = match obj_lookup key l2 with
    | Some v => Some v
    | None => obj_lookup key l1
    end.
Proof.
  induction l1 as [|[k v] l1 IH]; simpl app.
  - destruct (obj_lookup key l2); reflexivity.
  - rewrite !obj_lookup_cons, IH.
    destruct (obj_lookup key l2); reflexivity.
Qed.

Lemma obj_lookup_absent (key : string) (d : list (string * json)) :
  ~ In key (map fst d) -> obj_lookup key d = None.
Proof.
  induction d as [|[k v] d IH]; [reflexivity|].
  simpl map. intros H. rewrite obj_lookup_cons, IH by (simpl in H; tauto).
  destruct (String.eqb_spec k key) as [->|]; [|reflexivity].
  exfalso. apply H. left. reflexivity.
Qed.

Lemma set_item_keys (k : string) (v : json) (d : list (string * json)) :
  NoDup (map fst d) ->
  NoDup (map fst (set_item k v d))
  /\ forall key,
      obj_lookup key (set_item k v d)
      = if String.eqb k key then Some v else obj_lookup key d.
Proof.
  induction d as [|[k0 v0] d IH]; simpl.
  - intros _. split; [repeat constructor; simpl; tauto|].
    intros key. rewrite obj_lookup_cons. reflexivity.
  - intros Hnd. inversion Hnd as [|? ? Hnotin Hnd']; subst.
    destruct (String.eqb_spec k0 k) as [->|Hne].
    + split; [exact Hnd|]. intros key.
      rewrite !obj_lookup_cons.
      destruct (String.eqb_spec k key) as [->|]; [|reflexivity].
      rewrite (obj_lookup_absent key d Hnotin). reflexivity.
    + destruct (IH Hnd') as [IH1 IH2]. split.
      * simpl. constructor; [|exact IH1]. intros Hin.
        apply Hnotin. clear - Hin Hne.
        induction d as [|[k1 v1] d IHd]; simpl in *.
        -- destruct Hin as [Hin|[]]. congruence.
        -- destruct (String.eqb k1 k); simpl in *; tauto.
      * intros key. rewrite !obj_lookup_cons, IH2.
        destruct (String.eqb_spec k key) as [->|]; [|reflexivity].
        destruct (String.eqb_spec k0 key); [congruence|].
        destruct (obj_lookup key d); reflexivity.
Qed.

Lemma display_from (bindings d : list (string * json)) :
  NoDup (map fst d) ->
  forall key,
    obj_lookup key
      (fold_left (fun d kv => set_item (fst kv) (snd kv) d) bindings d)
    = match obj_lookup key bindings with
      | Some v => Some v
      | None => obj_lookup key d
      end.
Proof.
  revert d. induction bindings as [|[k v] bindings IH]; intros d Hnd key.
  - reflexivity.
  - simpl fold_left. destruct (set_item_keys k v d Hnd) as [H1 H2].
    rewrite (IH _ H1), H2, obj_lookup_cons.
    destruct (obj_lookup key bindings); [reflexivity|].
    destruct (String.eqb k key); reflexivity.
Qed.

(** A display binds each key to its last binding. *)
Lemma obj_lookup_display (bindings : list (string * json)) (key : string) :
  obj_lookup key (display bindings) = obj_lookup key bindings.
Proof.
  unfold display. rewrite display_from by constructor.
  destruct (obj_lookup key bindings); reflexivity.
Qed.

Lemma obj_get_display (bindings : list (string * json)) (key : string) :
  obj_get key (display bindings) = obj_get key bindings.
Proof. rewrite !obj_get_lookup, obj_lookup_display. reflexivity. Qed.

(** *** Lines *)

Lemma readlines_nonempty (c : ascii) (s : string) :
  readlines (String c s) <> [].
Proof.
  simpl. destruct (Ascii.eqb c (ascii_of_nat 10)); [discriminate|].
  destruct (readlines s); discriminate.
Qed.

Lemma readlines_app (a b : string) :
  complete_text a = true ->
  readlines (a ++ b) = (readlines a ++ readlines b)%list.
Proof.
  induction a as [|c a IH]; [reflexivity|].
  intros Hc. change (String c a ++ b) with (String c (a ++ b)).
  cbn [readlines].
  destruct (Ascii.eqb c (ascii_of_nat 10)) eqn:Ec.
  - rewrite IH; [reflexivity|]. destruct a; [reflexivity|exact Hc].
  - destruct a as [|c' a].
    + simpl in Hc. unfold line_feed in Hc. congruence.
    + rewrite IH by exact Hc.
      pose proof (readlines_nonempty c' a) as Hne.
      destruct (readlines (String c' a)); [congruence|reflexivity].
Qed.

Lemma readlines_one_line (s : string) :
  no_char line_feed s = true -> readlines (s ++ newline) = [s ++ newline].
Proof.
  induction s as [|c s IH]; [reflexivity|].
  intros H. apply no_char_cons in H. destruct H as [Hc Hs].
  change (String c s ++ newline) with (String c (s ++ newline)).
  cbn [readlines]. fold line_feed. rewrite Ascii.eqb_sym, Hc, (IH Hs).
  reflexivity.
Qed.

Lemma complete_text_app (a s : string) :
  complete_text (a ++ s ++ newline) = true.
Proof.
  induction a as [|c a IH].
  - induction s as [|c s IH]; [reflexivity|].
    change ("" ++ String c s ++ newline) with (String c (s ++ newline)).
    cbn [complete_text]. destruct (s ++ newline) eqn:E; [|exact IH].
    destruct s; discriminate.
  - change (String c a ++ s ++ newline) with (String c (a ++ s ++ newline)).
    cbn [complete_text]. destruct (a ++ s ++ newline) eqn:E; [|exact IH].
    destruct a; [destruct s|]; discriminate.
Qed.

(** *** What the calls append *)

Section Written.

Variable json_dumps : json -> string.
Variable json_dumps_indented : json -> string.

(** The text a call appends to the log. *)
Lemma perform_text (now : string) (c : call) (fs : files) :
  text_of (log_file (perform json_dumps json_dumps_indented now c fs))
  = text_of (log_file fs)
    ++ match recorded_event now c with
       | Some e => json_dumps e ++ newline
       | None => ""
       end.
Proof.
  destruct c as [experiment_id resume| | | | |]; simpl;
    try reflexivity.
  destruct resume; simpl; [rewrite append_nil_r|]; reflexivity.
Qed.

Lemma perform_complete (now : string) (c : call) (fs : files) :
  complete (log_file fs) = true ->
  complete (log_file (perform json_dumps json_dumps_indented now c fs)) = true.
Proof.
  intros H.
  destruct c as [experiment_id resume| | | | |]; simpl;
    try apply complete_text_app.
  destruct resume; simpl; [exact H|apply complete_text_app].
Qed.

Lemma complete_text_of (file : option string) :
  complete file = complete_text (text_of file).
Proof. destruct file; reflexivity. Qed.

Lemma run_lines (calls : list (string * call)) (fs : files) :
  complete (log_file fs) = true ->
  Forall (fun e => no_char line_feed (json_dumps e) = true)
    (recorded_events calls) ->
  lines_of (log_file (run json_dumps json_dumps_indented calls fs))
  = (lines_of (log_file fs)
     ++ map (fun e => (json_dumps e ++ newline)%string)
          (recorded_events calls))%list
  /\ complete (log_file (run json_dumps json_dumps_indented calls fs)) = true.
Proof.
  revert fs. induction calls as [|[now c] calls IH]; intros fs Hc Hl.
  - simpl. rewrite app_nil_r. auto.
  - unfold run in *. cbn [fold_left fst snd].
    unfold recorded_events in Hl |- *. cbn [flat_map fst snd] in Hl |- *.
    apply Forall_app in Hl. destruct Hl as [Hl1 Hl2].
    destruct (IH (perform json_dumps json_dumps_indented now c fs)
                (perform_complete now c fs Hc) Hl2) as [IH1 IH2].
    split; [|exact IH2]. rewrite IH1. unfold lines_of at 1.
    rewrite perform_text, map_app, app_assoc. f_equal.
    rewrite readlines_app by (rewrite <- complete_text_of; exact Hc).
    fold (lines_of (log_file fs)). f_equal.
    destruct (recorded_event now c) as [e|]; [|reflexivity].
    simpl. apply readlines_one_line.
    inversion Hl1; assumption.
Qed.

Lemma run_text (calls : list (string * call)) (fs : files) :
  text_of (log_file (run json_dumps json_dumps_indented calls fs))
  = text_of (log_file fs)
    ++ String.concat ""
         (map (fun e => json_dumps e ++ newline) (recorded_events calls)).
Proof.
  revert fs. induction calls as [|[now c] calls IH]; intros fs.
  - simpl. rewrite append_nil_r. reflexivity.
  - unfold run in *. cbn [fold_left fst snd]. rewrite IH, perform_text.
    rewrite append_assoc. f_equal.
    unfold recorded_events. cbn [flat_map fst snd]. rewrite map_app.
    destruct (recorded_event now c) as [e|]; [|reflexivity].
    cbn [map app]. generalize (map (fun e0 => json_dumps e0 ++ newline)
      (flat_map (fun c0 => match recorded_event (fst c0) (snd c0) with
                           | Some e0 => [e0]
                           | None => []
                           end) calls)).
    intros l. destruct l as [|x l]; simpl.
    + rewrite append_nil_r. reflexivity.
    + reflexivity.
Qed.

(** X24: the logger only ever appends to its log. Whatever calls are
    made, the text of the log afterwards is the text before followed by one
    line feed terminated text per event recorded (a constructor that
    resumes records none); nothing is removed or rewritten. When the log
    was empty, absent or ended in a line feed, and no event text holds a
    line feed, each event is a line of its own: the lines of the log are
    the lines before followed by one line per event. *)
Theorem logger_only_appends (calls : list (string * call)) (fs : files) :
  text_of (log_file (run json_dumps json_dumps_indented calls fs))
  = text_of (log_file fs)
    ++ String.concat ""
         (map (fun e => json_dumps e ++ newline) (recorded_events calls))
  /\ (complete (log_file fs) = true ->
      Forall (fun e => no_char line_feed (json_dumps e) = true)
        (recorded_events calls) ->
      lines_of (log_file (run json_dumps json_dumps_indented calls fs))
      = (lines_of (log_file fs)
         ++ map (fun e => (json_dumps e ++ newline)%string)
          (recorded_events calls))%list).
Proof.
  split; [apply run_text|].
  intros Hc Hl. apply (run_lines calls fs Hc Hl).
Qed.

End Written.


(** *** Fields of the logger and fields of the response *)

Lemma display_nodup (bindings : list (string * json)) :
  NoDup (map fst (display bindings)).
Proof.
  unfold display.
  assert (H : forall d, NoDup (map fst d) ->
                NoDup (map fst (fold_left
                                  (fun d kv => set_item (fst kv) (snd kv) d)
                                  bindings d))).
  { induction bindings as [|[k v] bindings IH]; intros d Hd; [exact Hd|].
    simpl. apply IH. apply set_item_keys. exact Hd. }
  apply H. constructor.
Qed.

Lemma plain_response_lookup (response : list (string * json)) (key : string) :
  plain_response response = true ->
  key = "type" \/ key = "round" \/ key = "agent_id" ->
  obj_lookup key response = None.
Proof.
  intros Hp Hk. induction response as [|[k v] response IH]; [reflexivity|].
  simpl in Hp. apply andb_true_iff in Hp. destruct Hp as [Hkv Hrest].
  rewrite obj_lookup_cons, (IH Hrest).
  apply andb_true_iff in Hkv. destruct Hkv as [Hkv H3].
  apply andb_true_iff in Hkv. destruct Hkv as [H1 H2].
  apply negb_true_iff in H1, H2, H3.
  destruct Hk as [->|[->| ->]]; [rewrite H1|rewrite H2|rewrite H3];
    reflexivity.
Qed.

Lemma agent_response_field (now : string) (r : Z) (a : string)
    (response : list (string * json)) (key : string) :
  obj_get key (agent_response_event now r a response)
  = match obj_lookup key response with
    | Some v => v
    | None =>
        obj_get key [("type", JStr "agent_response"); ("round", JInt r);
                     ("agent_id", JStr a); ("timestamp", JStr now)]
    end.
Proof.
  unfold agent_response_event.
  rewrite obj_get_display, obj_get_lookup, obj_lookup_app.
  destruct (obj_lookup key response); [reflexivity|].
  rewrite <- obj_get_lookup. reflexivity.
Qed.

Lemma agent_response_recorded (now : string) (r : Z) (a : string)
    (response : list (string * json)) :
  plain_response response = true ->
  response_of (JObj (agent_response_event now r a response))
  = Some (r, a, {| stance := obj_get "stance" response;
                   rationale := obj_get "rationale" response |}).
Proof.
  intros Hp. unfold response_of. rewrite !agent_response_field.
  rewrite !(plain_response_lookup response _ Hp) by tauto.
  rewrite !(obj_get_lookup _ response).
  destruct (obj_lookup "stance" response), (obj_lookup "rationale" response);
    reflexivity.
Qed.

(** X25: the fields of a response take precedence over the fields of the
    logger. In the event [log_agent_response] records every key stands
    once, and a key of the response has the value the response gives it,
    also when it is [type], [round], [agent_id] or [timestamp]; the other
    keys have the values of the logger. A response that uses none of the
    first three is recorded under the round and the agent it was logged
    for, with its own stance and rationale (none where it has none). *)
Theorem response_fields_take_precedence (now : string) (r : Z) (a : string)
    (response : list (string * json)) :
  NoDup (map fst (agent_response_event now r a response))
  /\ (forall key,
        obj_get key (agent_response_event now r a response)
        = match obj_lookup key response with
          | Some v => v
          | None =>
              obj_get key [("type", JStr "agent_response"); ("round", JInt r);
                           ("agent_id", JStr a); ("timestamp", JStr now)]
          end)
  /\ (plain_response response = true ->
      response_of (JObj (agent_response_event now r a response))
      = Some (r, a, {| stance := obj_get "stance" response;
                       rationale := obj_get "rationale" response |})).
Proof.
  split; [apply display_nodup|].
  split; [apply agent_response_field|apply agent_response_recorded].
Qed.

(** A response that names a round of its own is recorded under that
    round. *)
Example response_overrides_round :
  response_of
    (JObj (agent_response_event "20260114_020545" 3 "agent_0"
             [("stance", JStr "PULL_LEVER"); ("round", JInt 7)]))
  = Some (7%Z, "agent_0",
          {| stance := JStr "PULL_LEVER"; rationale := JNull |}).
Proof. vm_compute. reflexivity. Qed.

(** *** Resuming from what the logger wrote *)

Section ReadBack.

Variable json_loads : string -> loads_outcome.
Variable json_dumps : json -> string.
Variable json_dumps_indented : json -> string.

Lemma events_of_lines_written (es : list json) :
  Forall (reads_back json_loads json_dumps) es ->
  events json_loads (map (fun e => json_dumps e ++ newline) es) = es.
Proof.
  induction 1 as [|e es [_ He] _ IH]; [reflexivity|].
  unfold events in *. simpl. rewrite He, IH. reflexivity.
Qed.

Lemma lines_written_load (es : list json) :
  Forall (reads_back json_loads json_dumps) es ->
  existsb (fails_to_load json_loads)
    (map (fun e => json_dumps e ++ newline) es) = false.
Proof.
  induction 1 as [|e es [_ He] _ IH]; [reflexivity|].
  cbn [map existsb]. rewrite IH, orb_false_r.
  unfold event_of in He. unfold fails_to_load.
  destruct (is_empty (strip (json_dumps e ++ newline))); [reflexivity|].
  destruct (json_loads (strip (json_dumps e ++ newline)));
    [reflexivity|reflexivity|discriminate].
Qed.

Lemma round_start_plain (now : string) (r : Z) (stats : distribution_t) :
  well_formed_event (JObj (round_start_event now r stats)) = true
  /\ round_end_of (JObj (round_start_event now r stats)) = None
  /\ response_of (JObj (round_start_event now r stats)) = None.
Proof. repeat split. Qed.

Lemma round_end_closes (now : string) (r : Z) (stats : distribution_t)
    (h : float) :
  (0 <= r)%Z ->
  well_formed_event (JObj (round_end_event now r stats h)) = true
  /\ round_end_of (JObj (round_end_event now r stats h)) = Some r
  /\ response_of (JObj (round_end_event now r stats h)) = None.
Proof.
  intros Hr. repeat split. simpl. apply Z.leb_le. exact Hr.
Qed.

Lemma response_well_formed (now : string) (r : Z) (a : string)
    (response : list (string * json)) :
  plain_response response = true ->
  well_formed_event (JObj (agent_response_event now r a response)) = true
  /\ round_end_of (JObj (agent_response_event now r a response)) = None.
Proof.
  intros Hp. unfold well_formed_event, round_end_of.
  rewrite !agent_response_field.
  rewrite !(plain_response_lookup response _ Hp) by tauto.
  split; reflexivity.
Qed.

(** The events of the answers of a round. *)
Lemma answers_events (r : Z) (answers : list answer) :
  Forall (fun a => plain_response (snd a) = true) answers ->
  let es :=
    map (fun a => JObj (agent_response_event (fst (fst a)) r (snd (fst a))
                          (snd a))) answers in
  forallb well_formed_event es = true
  /\ completed_rounds es = []
  /\ forall a,
      last_response es r a
      = match last_answer a answers with
        | Some response =>
            Some {| stance := obj_get "stance" response;
                    rationale := obj_get "rationale" response |}
        | None => None
        end.
Proof.
  intros H es. subst es.
  induction H as [|[[t a0] response] answers Hp _ IH].
  - repeat split.
  - destruct IH as (IH1 & IH2 & IH3).
    cbn [fst snd] in Hp.
    destruct (response_well_formed t r a0 response Hp) as [Hwf Hre].
    cbn [map forallb fst snd]. split; [rewrite Hwf, IH1; reflexivity|].
    split.
    + unfold completed_rounds in *. cbn [flat_map]. rewrite Hre, IH2.
      reflexivity.
    + intros a. cbn [last_response last_answer]. rewrite IH3.
      destruct (last_answer a answers); [reflexivity|].
      rewrite (agent_response_recorded t r a0 response Hp).
      rewrite Z.eqb_refl. cbn [andb]. destruct (String.eqb a0 a); reflexivity.
Qed.


Lemma recorded_round_calls (r : Z) (t_start t_end : string)
    (stats end_stats : distribution_t) (answers : list answer) (h : float) :
  recorded_events (round_calls r t_start stats answers t_end end_stats h)
  = (JObj (round_start_event t_start r stats)
     :: map (fun a => JObj (agent_response_event (fst (fst a)) r
                              (snd (fst a)) (snd a))) answers
     ++ [JObj (round_end_event t_end r end_stats h)])%list.
Proof.
  unfold round_calls, recorded_events. cbn [flat_map fst snd recorded_event].
  cbn [app]. f_equal. rewrite flat_map_app. f_equal.
  induction answers as [|x answers IH]; [reflexivity|].
  cbn [map flat_map fst snd recorded_event app]. f_equal. exact IH.
Qed.

Lemma perform_keeps_file (now : string) (c : call) (fs : files) (t : string) :
  log_file fs = Some t ->
  exists t',
    log_file (perform json_dumps json_dumps_indented now c fs) = Some t'.
Proof.
  intros H. destruct c as [experiment_id resume| | | | |]; simpl;
    try (eexists; reflexivity).
  destruct resume; simpl; eexists; [exact H|reflexivity].
Qed.

Lemma run_keeps_file (calls : list (string * call)) (fs : files)
    (t : string) :
  log_file fs = Some t ->
  exists t', log_file (run json_dumps json_dumps_indented calls fs) = Some t'.
Proof.
  revert fs t. induction calls as [|[now c] calls IH]; intros fs t H.
  - exists t. exact H.
  - destruct (perform_keeps_file now c fs t H) as [t1 H1].
    unfold run in *. cbn [fold_left fst snd]. apply (IH _ t1 H1).
Qed.

(** X26: what the logger writes for a round is what resuming finds.
    After [log_round_start], one [log_agent_response] per answer and
    [log_round_end] for a round [r] that is not below a round completed in
    the log before, [find_last_complete_round] reports round [r] and, for
    each agent that answered, the stance and rationale of its last answer
    (for another agent, what the log held for it in round [r] before).
    The log before has complete lines, follows the line schema and has no
    line on which [json.loads] raises anything but [JSONDecodeError]; the
    responses use none of the logger's field names, and the text of each
    event is one line that [json.loads] reads back as the event. *)
Theorem resume_finds_the_logged_round (fs : files) (r : Z)
    (t_start t_end : string) (stats end_stats : distribution_t)
    (answers : list answer) (h : float) :
  let calls := round_calls r t_start stats answers t_end end_stats h in
  let before := events json_loads (lines_of (log_file fs)) in
  complete (log_file fs) = true ->
  existsb (fails_to_load json_loads) (lines_of (log_file fs)) = false ->
  forallb well_formed_event before = true ->
  (0 <= r)%Z ->
  (forall r', In r' (completed_rounds before) -> (r' <= r)%Z) ->
  Forall (fun a => plain_response (snd a) = true) answers ->
  Forall (reads_back json_loads json_dumps) (recorded_events calls) ->
  exists agent_states,
    find_last_complete_round json_loads
      (as_file (log_file (run json_dumps json_dumps_indented calls fs)))
    = (Some (JInt r), agent_states)
    /\ forall a,
        dict_get (JStr a) agent_states
        = match last_answer a answers with
          | Some response =>
              Some {| stance := obj_get "stance" response;
                      rationale := obj_get "rationale" response |}
          | None => last_response before r a
          end.
Proof.
  intros calls before Hcomplete Hclean Hwf Hr Hmax Hplain Hback.
  destruct (answers_events r answers Hplain) as (Hwa & Hca & Hla).
  set (es := map (fun a => JObj (agent_response_event (fst (fst a)) r
                                   (snd (fst a)) (snd a))) answers) in *.
  assert (Hrec : recorded_events calls
                 = (JObj (round_start_event t_start r stats)
                    :: es ++ [JObj (round_end_event t_end r end_stats h)])%list)
    by apply recorded_round_calls.
  destruct (run_lines json_dumps json_dumps_indented calls fs Hcomplete)
    as [Hlines _].
  { eapply Forall_impl; [|exact Hback]. intros e He. apply He. }
  assert (Hfile : exists t,
             log_file (run json_dumps json_dumps_indented calls fs) = Some t).
  { unfold calls, round_calls, run. cbn [fold_left fst snd].
    eapply run_keeps_file. reflexivity. }
  destruct Hfile as [t Ht]. rewrite Ht in Hlines |- *.
  unfold as_file. change (readlines t) with (lines_of (Some t)).
  rewrite Hlines.
  set (lines := (lines_of (log_file fs)
                 ++ map (fun e => (json_dumps e ++ newline)%string)
                      (recorded_events calls))%list).
  assert (Hev : events json_loads lines
                = (before
                   ++ JObj (round_start_event t_start r stats)
                      :: es
                      ++ [JObj (round_end_event t_end r end_stats h)])%list).
  { unfold lines. rewrite (events_app json_loads).
    rewrite (events_of_lines_written _ Hback), Hrec. reflexivity. }
  destruct (round_start_plain t_start r stats) as (Hs1 & Hs2 & Hs3).
  destruct (round_end_closes t_end r end_stats h Hr) as (He1 & He2 & He3).
  assert (Hwf' : forallb well_formed_event (events json_loads lines) = true).
  { rewrite Hev, forallb_app. rewrite Hwf. cbn [forallb andb].
    rewrite Hs1, forallb_app, Hwa. cbn [forallb andb]. rewrite He1.
    reflexivity. }
  assert (Hclean' : existsb (fails_to_load json_loads) lines = false).
  { unfold lines. rewrite existsb_app, Hclean.
    apply (lines_written_load _ Hback). }
  destruct (replay_result json_loads lines Hclean' Hwf')
    as (states & Hres & Hst).
  assert (Hcr : completed_rounds (events json_loads lines)
                = (completed_rounds before ++ [r])%list).
  { rewrite Hev, completed_rounds_app.
    change (JObj (round_start_event t_start r stats)
            :: es ++ [JObj (round_end_event t_end r end_stats h)])%list
      with ([JObj (round_start_event t_start r stats)]
            ++ es ++ [JObj (round_end_event t_end r end_stats h)])%list.
    rewrite !completed_rounds_app, Hca.
    unfold completed_rounds at 2 3. cbn [flat_map]. rewrite Hs2, He2.
    reflexivity. }
  assert (Htop : fold_left Z.max (completed_rounds (events json_loads lines))
                   (-1)%Z = r).
  { rewrite Hcr, fold_left_app. cbn [fold_left].
    pose proof (fold_max_spec (completed_rounds before) (-1)%Z)
      as (_ & _ & [Hm|Hm]).
    - rewrite Hm. lia.
    - specialize (Hmax _ Hm). lia. }
  rewrite Htop in Hres, Hst.
  destruct (Z.eqb_spec r (-1)) as [|_]; [lia|].
  exists states. split; [exact Hres|].
  intros a. rewrite Hst, Hev, last_response_app.
  change (JObj (round_start_event t_start r stats)
          :: es ++ [JObj (round_end_event t_end r end_stats h)])%list
    with ([JObj (round_start_event t_start r stats)]
          ++ es ++ [JObj (round_end_event t_end r end_stats h)])%list.
  rewrite !last_response_app. cbn [last_response]. rewrite He3, Hs3, Hla.
  destruct (last_answer a answers); reflexivity.
Qed.

End ReadBack.


Lemma resume_finds_the_logged_round_witness :
  exists agent_states,
    find_last_complete_round decode
      (as_file
         (log_file
            (run demo_dumps demo_dumps demo_round
               (Logging.__init__ demo_dumps "20260114_020543" "demo" false
                  no_files))))
    = (Some (JInt 0), agent_states)
    /\ dict_get (JStr "agent_1") agent_states
       = Some {| stance := JStr "DO_NOT_PULL";
                 rationale := JStr "Do not kill" |}.
Proof.
  destruct (resume_finds_the_logged_round decode demo_dumps demo_dumps
              (Logging.__init__ demo_dumps "20260114_020543" "demo" false
                 no_files)
              0 "20260114_020544" "20260114_020547"
              [("PULL_LEVER", 1%Z); ("DO_NOT_PULL", 1%Z)]
              [("PULL_LEVER", 1%Z); ("DO_NOT_PULL", 1%Z)]
              demo_answers 1%float)
    as (states & Hfind & Hstates).
  - reflexivity.
  - vm_compute. reflexivity.
  - vm_compute. reflexivity.
  - lia.
  - vm_compute. tauto.
  - repeat (apply Forall_cons; [reflexivity|]). apply Forall_nil.
  - repeat (apply Forall_cons; [split; vm_compute; reflexivity|]).
    apply Forall_nil.
  - exists states. split; [exact Hfind|]. rewrite Hstates. reflexivity.
Defined.

(** The log of the example, line by line. *)
Example logger_writes_one_line_per_event :
  List.length
    (lines_of
       (log_file
          (run demo_dumps demo_dumps demo_round
             (Logging.__init__ demo_dumps "20260114_020543" "demo" false
                no_files))))
  = 5%nat.
Proof. vm_compute. reflexivity. Qed.

End LoggingProps.

(** ** The stable seed *)
Module SeedProps.
Import Sha256 Seed.
Local Open Scope Z_scope.

Lemma from_bytes_of_word (w : Z) :
  from_bytes_big (bytes_of_word w) = w mod 2 ^ 32.
Proof.
  unfold from_bytes_big, bytes_of_word. cbn [fold_left].
  change (2 ^ 32) with (2 ^ 8 * 2 ^ 24).
  rewrite (Z.rem_mul_r w (2 ^ 8) (2 ^ 24)) by lia.
  change (2 ^ 24) with (2 ^ 8 * 2 ^ 16) at 2.
  rewrite (Z.rem_mul_r (w / 2 ^ 8) (2 ^ 8) (2 ^ 16)) by lia.
  change (2 ^ 16) with (2 ^ 8 * 2 ^ 8) at 2.
  rewrite (Z.rem_mul_r (w / 2 ^ 8 / 2 ^ 8) (2 ^ 8) (2 ^ 8)) by lia.
  rewrite !Z.div_div by lia.
  change (2 ^ 8 * 2 ^ 8) with (2 ^ 16). change (2 ^ 16 * 2 ^ 8) with (2 ^ 24).
  change (2 ^ 8) with 256. lia.
Qed.

(** X27: the stable seed is a 32-bit number, the first four bytes of the
    SHA-256 digest of the UTF-8 text read as one big-endian integer; the
    digest has 32 bytes, each below 256. *)
Theorem stable_seed_is_32_bits (base_str : string) :
  0 <= get_stable_seed base_str < 2 ^ 32
  /\ List.length (digest (encode base_str)) = 32%nat
  /\ Forall (fun b => 0 <= b < 256) (digest (encode base_str))
  /\ get_stable_seed "abc" = 3128432319.
Proof.
  unfold get_stable_seed, digest.
  set (s := blocks _ _ _).
  split; [|split; [reflexivity|split; [|vm_compute; reflexivity]]].
  - change (firstn 4 (bytes_of_word (h0 s) ++ _)) with (bytes_of_word (h0 s)).
    rewrite from_bytes_of_word. apply Z.mod_pos_bound. lia.
  - unfold bytes_of_word. cbn [app].
    repeat (apply Forall_cons; [apply Z.mod_pos_bound; lia|]).
    apply Forall_nil.
Qed.

End SeedProps.

(** ** The condition named on the command line *)
Module RunPhase1Props.
Import Analyze RunPhase1.
Local Open Scope string_scope.

(** X28: [get_condition] accepts exactly the choices of the command
    line. Each of the five choices gives a condition, whose value begins
    with the choice; different choices give different conditions and every
    condition is given by a choice; any other string raises [KeyError]. *)
Theorem get_condition_accepts_the_choices (condition_str : string) :
  (In condition_str condition_choices ->
   exists c,
     get_condition condition_str = Returns c
     /\ String.prefix (condition_str ++ "_") (condition_value c) = true)
  /\ (~ In condition_str condition_choices ->
      get_condition condition_str = Raises (KeyError condition_str))
  /\ (forall other c,
        get_condition condition_str = Returns c ->
        get_condition other = Returns c -> other = condition_str)
  /\ (forall c, exists choice,
        In choice condition_choices /\ get_condition choice = Returns c)
  /\ In condition_default condition_choices.
Proof.
  split; [|split; [|split; [|split]]].
  - simpl. intros [<-|[<-|[<-|[<-|[<-|[]]]]]]; eexists; split; reflexivity.
  - intros Hnot. unfold get_condition, mapping. cbn [find fst].
    repeat match goal with
    | |- context [String.eqb ?a condition_str] =>
        destruct (String.eqb_spec a condition_str) as [E|_];
        [exfalso; apply Hnot; rewrite <- E; simpl; tauto|]
    end.
    reflexivity.
  - intros other c. unfold get_condition, mapping. cbn [find fst].
    repeat match goal with
    | |- context [String.eqb ?a ?b] =>
        destruct (String.eqb_spec a b) as [<-|_]
    end; intros [= <-]; intros H; try reflexivity; try discriminate H.
  - intros c. destruct c;
      [exists "C0"|exists "C1"|exists "C2"|exists "C3"|exists "C4"];
      (split; [simpl; tauto|reflexivity]).
  - simpl. tauto.
Qed.

End RunPhase1Props.

(** ** From the logger to the analysis *)
Module EndToEndProps.
Import Py Json PyMore Utils ResumeUtils Analyze Logging Spec Notions.
Import ClientSetupProps RecoveryProps AnalyzeProps LoggingProps.
Local Open Scope list_scope.
Local Open Scope string_scope.

Section Logged.

Variable json_loads : string -> loads_outcome.
Variable json_dumps : json -> string.
Variable json_dumps_indented : json -> string.

Lemma load_lines_written (es : list json) :
  Forall (loads_back json_loads json_dumps) es ->
  load_lines json_loads (map (fun e => json_dumps e ++ newline) es)
  = Returns es.
Proof.
  induction 1 as [|e es (_ & Hnb & He) _ IH]; [reflexivity|].
  cbn [map load_lines]. unfold not_blank in Hnb.
  apply negb_true_iff in Hnb. rewrite Hnb, He, IH. reflexivity.
Qed.

(** The events a round records are a complete round for the analysis. *)
Lemma logged_round_complete (l : round_log) :
  Forall (fun a => plain_response (snd a) = true) (answers_given l) ->
  exists r,
    recorded_events (calls_of_round l) = events_of_round r
    /\ complete_round r = true
    /\ logged_entropy r = JFloat (final_entropy l).
Proof.
  intros Hplain.
  exists {| before_start := [];
            start_event :=
              JObj (round_start_event (started l) (number l)
                      (initial_stats l));
            between :=
              map (fun a => JObj (agent_response_event (fst (fst a))
                                    (number l) (snd (fst a)) (snd a)))
                (answers_given l);
            end_event :=
              JObj (round_end_event (ended l) (number l) (final_stats l)
                      (final_entropy l)) |}.
  split; [apply recorded_round_calls|]. split; [|reflexivity].
  unfold complete_round. cbn [before_start start_event between end_event].
  cbn [forallb andb].
  replace (usable (JObj (round_start_event (started l) (number l)
                           (initial_stats l)))) with true by reflexivity.
  replace (is_type "round_start"
             (JObj (round_start_event (started l) (number l)
                      (initial_stats l)))) with true by reflexivity.
  replace (usable (JObj (round_end_event (ended l) (number l)
                           (final_stats l) (final_entropy l))))
    with true by reflexivity.
  replace (is_type "round_end"
             (JObj (round_end_event (ended l) (number l) (final_stats l)
                      (final_entropy l)))) with true by reflexivity.
  cbn [andb]. rewrite andb_true_r.
  induction Hplain as [|[[t a] response] answers Hp _ IH]; [reflexivity|].
  cbn [map forallb fst snd]. rewrite IH, andb_true_r.
  cbn [fst snd] in Hp.
  assert (Hty : obj_get "type"
                  (agent_response_event t (number l) a response)
                = JStr "agent_response").
  { rewrite agent_response_field.
    rewrite (plain_response_lookup response "type" Hp) by tauto.
    reflexivity. }
  unfold within_round, usable, is_type. rewrite Hty. reflexivity.
Qed.

Lemma logged_rounds_complete (rounds : list round_log) :
  Forall (fun l => Forall (fun a => plain_response (snd a) = true)
                     (answers_given l)) rounds ->
  exists rs,
    recorded_events (flat_map calls_of_round rounds)
    = flat_map events_of_round rs
    /\ forallb complete_round rs = true
    /\ map logged_entropy rs
       = map (fun l => JFloat (final_entropy l)) rounds.
Proof.
  induction 1 as [|l rounds Hl _ (rs & IH1 & IH2 & IH3)].
  - exists []. repeat split.
  - destruct (logged_round_complete l Hl) as (r & Hr1 & Hr2 & Hr3).
    exists (r :: rs). cbn [flat_map map forallb].
    unfold recorded_events in *. rewrite flat_map_app, Hr1, IH1, Hr2, IH2.
    rewrite Hr3, IH3. repeat split.
Qed.

(** X29: from the logger to the analysis. For a fresh experiment that
    logs its rounds one after the other, [load_experiment_log] returns the
    events recorded and [analyze_single_experiment] reports as many rounds
    as were logged, with the entropies the logger was given, in order.
    The responses use none of the logger's field names, and the text of
    each event is one line that [json.loads] reads as the event. *)
Theorem analysis_recovers_the_logged_entropies (now experiment_id : string)
    (rounds : list round_log) :
  let calls := experiment_calls now experiment_id rounds in
  Forall (fun l => Forall (fun a => plain_response (snd a) = true)
                     (answers_given l)) rounds ->
  Forall (loads_back json_loads json_dumps) (recorded_events calls) ->
  exists analysis,
    load_experiment_log json_loads
      (as_file (log_file (run json_dumps json_dumps_indented calls no_files)))
    = Returns (recorded_events calls)
    /\ analyze_single_experiment (recorded_events calls) = Returns analysis
    /\ num_rounds analysis = Z.of_nat (List.length rounds)
    /\ entropy_history analysis
       = map (fun l => JFloat (final_entropy l)) rounds.
Proof.
  intros calls Hplain Hback.
  destruct (logged_rounds_complete rounds Hplain) as (rs & Hrs & Hc & He).
  assert (Hrec : recorded_events calls
                 = JObj (experiment_start_event now experiment_id)
                   :: flat_map events_of_round rs).
  { unfold calls, experiment_calls, recorded_events in *.
    cbn [flat_map fst snd recorded_event app]. f_equal. exact Hrs. }
  destruct (analysis_of_rounds rs [] Hc (or_introl eq_refl))
    as (analysis & Hrun & Hn & Hh).
  rewrite app_nil_r in Hrun.
  exists analysis. split; [|split; [|split]].
  - destruct (run_lines json_dumps json_dumps_indented calls no_files
                eq_refl) as [Hlines _].
    { eapply Forall_impl; [|exact Hback]. intros e He'. apply He'. }
    assert (Hfile : exists t,
               log_file (run json_dumps json_dumps_indented calls no_files)
               = Some t).
    { unfold calls, experiment_calls, run. cbn [fold_left fst snd].
      eapply run_keeps_file. reflexivity. }
    destruct Hfile as [t Ht]. rewrite Ht in Hlines |- *.
    unfold as_file, load_experiment_log.
    change (readlines t) with (lines_of (Some t)). rewrite Hlines.
    apply load_lines_written. exact Hback.
  - rewrite Hrec. unfold analyze_single_experiment in *. cbn [loop].
    rewrite (step_ignored initial) by reflexivity. exact Hrun.
  - rewrite Hn. f_equal.
    apply (f_equal (@List.length json)) in He.
    rewrite !length_map in He. exact He.
  - rewrite Hh. exact He.
Qed.

End Logged.

Lemma analysis_recovers_the_logged_entropies_witness :
  exists analysis,
    analyze_single_experiment
      (recorded_events
         (experiment_calls "20260114_020543" "demo" [demo_round_log]))
    = Returns analysis
    /\ entropy_history analysis = [JFloat 1%float].
Proof.
  destruct (analysis_recovers_the_logged_entropies decode demo_dumps
              demo_dumps "20260114_020543" "demo" [demo_round_log])
    as (analysis & _ & Hrun & _ & Hh).
  - repeat constructor.
  - repeat (apply Forall_cons; [repeat split; vm_compute; reflexivity|]).
    apply Forall_nil.
  - exists analysis. split; [exact Hrun|exact Hh].
Defined.

End EndToEndProps.
